(** * Verification of the decimal core of multivariate_calculus

    Shallow embedding of
      - [src/core/math/bignum.ts]      (class [BigNum], enum [RoundingMode],
                                        type [MathContext]),
      - the literal parser ([isInteger], [isDecimal], [isValid], [pad],
        [decimate], [trimZeroes], [parseNum]),
      - the Cayley-Dickson product of the hypercomplex layer.

    JavaScript strings are lists of characters, [BigInt] values are [Z],
    the numbers of the parser are integers held in binary64, [NaN] or an
    infinity, and thrown exceptions are the [Throw] branch of a small
    error monad.  Where a number decides how long a string becomes, the
    limit of the engine on the length of strings is modelled. *)

From Stdlib Require Import ZArith List String Ascii Bool Lia Znumtheory.
Import ListNotations.

Open Scope Z_scope.

(** ** Exceptions and the error monad *)

Inductive error : Set :=
| NumberFormat        (* Error("Number format exception.")            *)
| SyntaxError         (* BigInt(s) on a string that is not an integer *)
| RangeError          (* BigInt(n) on a non-integral number, x / 0n,
                         a string longer than the engine allows       *)
| RoundingNecessary   (* Error("Rounding necessary. ...")             *)
| DivisionByZero      (* DivisionByZero("Cannot divide by zero.")     *)
| IndeterminateForm   (* IndeterminateForm("Cannot determine 0/0.")   *)
| IllegalNumberFormat (* TypeError("Illegal number format.")          *)
| NegativeIndex       (* Error("Cannot put decimal point at ...")     *).

Inductive result (A : Type) : Type :=
| Ok (a : A)
| Throw (e : error).

Arguments Ok {A} a.
Arguments Throw {A} e.

Definition bind {A B : Type} (m : result A) (k : A -> result B) : result B :=
  match m with
  | Ok a => k a
  | Throw e => Throw e
  end.

Notation "x <- m ;; k" := (bind m (fun x => k))
  (at level 61, m at next level, right associativity).

(** ** JavaScript strings *)

Module JS.

Definition jsstring : Set := list ascii.

(** A string literal of the source. *)
Definition js (s : string) : jsstring := list_ascii_of_string s.

Definition len (s : jsstring) : Z := Z.of_nat (List.length s).

(** [String.prototype.substring]: both indices are clamped to
    [0 .. length] and swapped when out of order. *)
Definition clamp (s : jsstring) (i : Z) : Z := Z.max 0 (Z.min i (len s)).

Definition substring (s : jsstring) (a b : Z) : jsstring :=
  let lo := Z.min (clamp s a) (clamp s b) in
  let hi := Z.max (clamp s a) (clamp s b) in
  firstn (Z.to_nat (hi - lo)) (skipn (Z.to_nat lo) s).

(** [s.substring(a)]: the end index defaults to the length. *)
Definition substring_from (s : jsstring) (a : Z) : jsstring :=
  substring s a (len s).

(** [s.split(c)] for a one-character separator: the pieces between the
    occurrences of [c]; never empty. *)
Fixpoint split_on (c : ascii) (s : jsstring) : jsstring * list jsstring :=
  match s with
  | [] => ([], [])
  | x :: s' =>
      let (p, ps) := split_on c s' in
      if Ascii.eqb x c then ([], p :: ps) else (x :: p, ps)
  end.

Definition split (c : ascii) (s : jsstring) : list jsstring :=
  let (p, ps) := split_on c s in p :: ps.

(** [s.indexOf(c)], [None] for [-1]. *)
Fixpoint indexOf (c : ascii) (s : jsstring) : option nat :=
  match s with
  | [] => None
  | x :: s' => if Ascii.eqb x c then Some O
               else option_map S (indexOf c s')
  end.

(** *** BigInt(string) *)

(** White space of [StrWhiteSpaceChar] below U+0100: TAB, LF, VT, FF, CR,
    SP, NBSP. *)
Definition is_white (c : ascii) : bool :=
  let n := N_of_ascii c in
  (((9 <=? n) && (n <=? 13)) || (n =? 32) || (n =? 160))%N.

Fixpoint drop_white (s : jsstring) : jsstring :=
  match s with
  | c :: s' => if is_white c then drop_white s' else s
  | [] => []
  end.

Definition trim (s : jsstring) : jsstring :=
  rev (drop_white (rev (drop_white s))).

(** Value of a digit in radix up to 16. *)
Definition digit_value (c : ascii) : option Z :=
  let n := Z.of_N (N_of_ascii c) in
  if (48 <=? n) && (n <=? 57) then Some (n - 48)
  else if (97 <=? n) && (n <=? 102) then Some (n - 87)
  else if (65 <=? n) && (n <=? 70) then Some (n - 55)
  else None.

Fixpoint parse_digits (radix acc : Z) (s : jsstring) : option Z :=
  match s with
  | [] => Some acc
  | c :: s' =>
      match digit_value c with
      | Some d => if d <? radix then parse_digits radix (acc * radix + d) s'
                  else None
      | None => None
      end
  end.

(** At least one digit is required. *)
Definition parse_number (radix : Z) (s : jsstring) : option Z :=
  match s with
  | [] => None
  | _ => parse_digits radix 0 s
  end.

(** [StringToBigInt]: surrounding white space is ignored, the empty string
    is [0n], then either a signed decimal or an unsigned literal with a
    radix prefix. *)
Definition StringToBigInt (s : jsstring) : option Z :=
  match trim s with
  | [] => Some 0
  | "0" :: "x" :: ds | "0" :: "X" :: ds => parse_number 16 ds
  | "0" :: "o" :: ds | "0" :: "O" :: ds => parse_number 8 ds
  | "0" :: "b" :: ds | "0" :: "B" :: ds => parse_number 2 ds
  | "+" :: ds => parse_number 10 ds
  | "-" :: ds => option_map Z.opp (parse_number 10 ds)
  | ds => parse_number 10 ds
  end%char.

Definition BigInt_of_string (s : jsstring) : result Z :=
  match StringToBigInt s with
  | Some z => Ok z
  | None => Throw SyntaxError
  end.

(** *** BigInt.prototype.toString() *)

Definition digit_char (d : Z) : ascii := ascii_of_N (Z.to_N (48 + d)).

(** Decimal digits of [n >= 0], most significant first, pushed in front of
    [acc]; [fuel] bounds the number of digits. *)
Fixpoint digits_onto (fuel : nat) (n : Z) (acc : jsstring) : jsstring :=
  match fuel with
  | O => acc
  | S f =>
      let acc' := digit_char (n mod 10) :: acc in
      if n <? 10 then acc' else digits_onto f (n / 10) acc'
  end.

Definition digits_of (n : Z) : jsstring :=
  digits_onto (S (Z.to_nat (Z.log2 n))) n [].

Definition BigInt_toString (z : Z) : jsstring :=
  if z <? 0 then "-"%char :: digits_of (- z) else digits_of z.

(** *** Math.pow on powers of ten

    [Math.pow] works on IEEE-754 binary64 numbers.  A positive integer is
    converted to the nearest representable number, ties to even; from
    [2^1024] on the result is [Infinity] ([None]).  The language leaves
    the precision of [Math.pow] to the engine: every engine gives the
    powers [10^0] to [10^22], which binary64 holds exactly; beyond, the
    correctly rounded value is taken here, from which an engine may be off
    by one unit in the last place. *)
Definition binary64_of_Z (v : Z) : option Z :=
  let k := Z.log2 v + 1 in
  if k <=? 53 then Some v
  else
    let sh := k - 53 in
    let q := Z.shiftr v sh in
    let r := v - Z.shiftl q sh in
    let half := Z.shiftl 1 (sh - 1) in
    let q' := if (half <? r) || ((r =? half) && Z.odd q) then q + 1 else q in
    let w := Z.shiftl q' sh in
    if w <? 2 ^ 1024 then Some w else None.

(** [BigInt(Math.pow(10, n))]: a negative exponent gives a fraction
    (RangeError) until it underflows to zero; a large one gives a rounded
    integer, and RangeError once the power is [Infinity]. *)
Definition BigInt_pow10 (n : Z) : result Z :=
  if n <? 0 then (if n <? -323 then Ok 0 else Throw RangeError)
  else match binary64_of_Z (10 ^ n) with
       | Some v => Ok v
       | None => Throw RangeError
       end.

(** [BigInt(5 * Math.pow(10, n))] for [n >= 0]. *)
Definition BigInt_5pow10 (n : Z) : result Z :=
  match binary64_of_Z (10 ^ n) with
  | Some v => match binary64_of_Z (5 * v) with
              | Some w => Ok w
              | None => Throw RangeError
              end
  | None => Throw RangeError
  end.

(** *** Number values

    The numbers the parser computes with are integers held in binary64,
    [NaN], or an infinity.  The sign of zero plays no part in what is done
    with them. *)
Inductive number : Set :=
| NaN
| Infinity (negative : bool)
| Finite (v : Z).

(** The binary64 number nearest to the integer [v]. *)
Definition Number_of_Z (v : Z) : number :=
  match binary64_of_Z (Z.abs v) with
  | Some w => Finite (Z.sgn v * w)
  | None => Infinity (v <? 0)
  end.

(** [a - b] *)
Definition number_sub (a b : number) : number :=
  match a, b with
  | NaN, _ | _, NaN => NaN
  | Infinity s, Infinity t => if Bool.eqb s t then NaN else Infinity s
  | Infinity s, Finite _ => Infinity s
  | Finite _, Infinity t => Infinity (negb t)
  | Finite x, Finite y => Number_of_Z (x - y)
  end.

(** [a < b]; [a > b] is [number_ltb b a].  A comparison with [NaN] is
    false. *)
Definition number_ltb (a b : number) : bool :=
  match a, b with
  | NaN, _ | _, NaN => false
  | Infinity s, Infinity t => s && negb t
  | Infinity s, Finite _ => s
  | Finite _, Infinity t => negb t
  | Finite x, Finite y => x <? y
  end.

(** A number as an index into [s]: [NaN] is [0], and an infinity is
    clamped as [substring] clamps every index. *)
Definition index_of_number (s : jsstring) (n : number) : Z :=
  match n with
  | NaN => 0
  | Infinity true => 0
  | Infinity false => len s
  | Finite v => v
  end.

(** *** The length of strings

    An engine refuses to build a string beyond its limit, with
    RangeError("Invalid string length").  The limit is that of V8 on a
    64-bit machine, [2^29 - 24], which Node.js reports as
    [buffer.constants.MAX_STRING_LENGTH]. *)
Definition max_string_length : Z := 536870888.

(** [a + b] on strings. *)
Definition string_concat (a b : jsstring) : result jsstring :=
  if max_string_length <? len a + len b then Throw RangeError
  else Ok (a ++ b).

(** [s.padEnd(maxLength, fill)] for a filler of one character: [ToLength]
    brings [maxLength] into [0 .. 2^53 - 1]. *)
Definition padEnd (s : jsstring) (maxLength : number) (fill : ascii)
  : result jsstring :=
  let intMaxLength :=
    match maxLength with
    | NaN => 0
    | Infinity true => 0
    | Infinity false => 2 ^ 53 - 1
    | Finite v => Z.max 0 (Z.min v (2 ^ 53 - 1))
    end in
  if intMaxLength <=? len s then Ok s
  else if max_string_length <? intMaxLength then Throw RangeError
  else Ok (s ++ repeat fill (Z.to_nat (intMaxLength - len s))).

End JS.

Import JS.

(** ** [bignum.ts]: rounding modes, contexts and the class [BigNum] *)

Inductive RoundingMode : Set :=
| UP | DOWN | CEIL | FLOOR | HALF_UP | HALF_DOWN | HALF_EVEN | UNNECESSARY.

(** The type [MathContext]; [precision] counts digits after the decimal
    point. *)
Module MathContext.

Record t : Set := {
  precision : nat;
  rounding : RoundingMode
}.

End MathContext.

Module BigNum.

Record t : Set := {
  integer : jsstring;
  decimal : jsstring
}.

Definition DEFAULT_CONTEXT : MathContext.t :=
  {| MathContext.precision := 17; MathContext.rounding := HALF_EVEN |}.

(** The first loop of the constructor: the index of the first character
    that is not ['0']. *)
Fixpoint first_nonzero (s : jsstring) : nat :=
  match s with
  | "0"%char :: s' => S (first_nonzero s')
  | _ => O
  end.

(** The second loop runs from the end; [i + 1] where [i] is the index it
    stops at ([-1] when every character is ['0']). *)
Definition after_last_nonzero (s : jsstring) : nat :=
  (List.length s - first_nonzero (rev s))%nat.

(** [s || "0"]: the empty string is falsy. *)
Definition or_zero (s : jsstring) : jsstring :=
  match s with
  | [] => js "0"
  | _ => s
  end.

Definition new (num : jsstring) : result t :=
  match split "."%char num with
  | [i] =>
      Ok {| integer := or_zero (skipn (first_nonzero i) i);
            decimal := js "0" |}
  | [i; d] =>
      Ok {| integer := or_zero (skipn (first_nonzero i) i);
            decimal := or_zero (firstn (after_last_nonzero d) d) |}
  | _ => Throw NumberFormat
  end.

Definition asBigInt (x : t) : result Z :=
  BigInt_of_string (integer x ++ decimal x).

(** The number of digits after the decimal point stored by the number. *)
Definition precision (x : t) : nat := List.length (decimal x).

Definition jsstring_eqb (a b : jsstring) : bool :=
  if list_eq_dec Ascii.ascii_dec a b then true else false.

Definition sign (x : t) : Z :=
  if jsstring_eqb (integer x) (js "0") && jsstring_eqb (decimal x) (js "0")
  then 0
  else match integer x with
       | "-"%char :: _ => -1
       | _ => 1
       end.

Definition abs (x : t) : result t :=
  match integer x with
  | "-"%char :: rest => new (rest ++ js "." ++ decimal x)
  | _ => Ok x
  end.

(** The [switch] of [round]: adjusts the truncated quotient [rounded] from
    the remainder [last]; [five] is half of the divider. *)
Definition round_switch (mode : RoundingMode) (rounded last five : Z)
  : result Z :=
  match mode with
  | UP =>
      if 0 <? last then Ok (rounded + 1)
      else if last <? 0 then Ok (rounded - 1)
      else Ok rounded
  | DOWN => Ok rounded
  | CEIL => if 0 <? last then Ok (rounded + 1) else Ok rounded
  | FLOOR => if last <? 0 then Ok (rounded - 1) else Ok rounded
  | HALF_DOWN =>
      if five <? last then Ok (rounded + 1)
      else if last <? - five then Ok (rounded - 1)
      else Ok rounded
  | HALF_UP =>
      if five <=? last then Ok (rounded + 1)
      else if last <=? - five then Ok (rounded - 1)
      else Ok rounded
  | HALF_EVEN =>
      if five <? last then Ok (rounded + 1)
      else if last <? - five then Ok (rounded - 1)
      else if negb (Z.rem (Z.abs (Z.rem rounded 10)) 2 =? 0) then
        if last =? five then Ok (rounded + 1)
        else if last =? - five then Ok (rounded - 1)
        else Ok rounded
      else Ok rounded
  | UNNECESSARY =>
      if (0 <? last) || (last <? 0) then Throw RoundingNecessary
      else Ok rounded
  end.

(** [r.substring(0, i) + "." + r.substring(i)] passed to the constructor:
    the idiom every operation uses to place the decimal point [p] digits
    from the end of [r]. *)
Definition place_point (r : jsstring) (p : nat) : result t :=
  let i := len r - Z.of_nat p in
  new (substring r 0 i ++ js "." ++ substring_from r i).

Definition round (x : t) (context : MathContext.t) : result t :=
  if (MathContext.precision context <? precision x)%nat then
    let diff := Z.of_nat (precision x)
                - Z.of_nat (MathContext.precision context) in
    num <- asBigInt x ;;
    divider <- BigInt_pow10 diff ;;
    let rounded := Z.quot num divider in
    let last := Z.rem num divider in
    five <- BigInt_5pow10 (diff - 1) ;;
    rounded' <- round_switch (MathContext.rounding context) rounded last five ;;
    place_point (BigInt_toString rounded') (MathContext.precision context)
  else Ok x.

Definition add (this that : t) : result t :=
  let d := Z.of_nat (precision this) - Z.of_nat (precision that) in
  padding <- BigInt_pow10 (Z.abs d) ;;
  a <- asBigInt this ;;
  b <- asBigInt that ;;
  let sum := BigInt_toString (if 0 <? d then a + b * padding
                              else a * padding + b) in
  place_point sum (Nat.max (precision this) (precision that)).

Definition sub (this that : t) : result t :=
  let d := Z.of_nat (precision this) - Z.of_nat (precision that) in
  padding <- BigInt_pow10 (Z.abs d) ;;
  a <- asBigInt this ;;
  b <- asBigInt that ;;
  let diff := BigInt_toString (if 0 <? d then a - b * padding
                               else a * padding - b) in
  place_point diff (Nat.max (precision this) (precision that)).

Definition mul (this that : t) : result t :=
  a <- asBigInt this ;;
  b <- asBigInt that ;;
  place_point (BigInt_toString (a * b)) (precision this + precision that).

(** [new Array(n).fill("0").join("")] *)
Definition zeros (n : nat) : jsstring := repeat "0"%char n.

Definition div (this that : t) : result t :=
  if sign that =? 0 then
    if sign this =? 0 then Throw IndeterminateForm
    else Throw DivisionByZero
  else
    let p := MathContext.precision DEFAULT_CONTEXT in
    let raise := Z.of_nat p - Z.of_nat (precision this)
                 + Z.of_nat (precision that) in
    n <- asBigInt this ;;
    scale <- BigInt_pow10 raise ;;
    let a := n * scale in
    b <- asBigInt that ;;
    if b =? 0 then Throw RangeError
    else
      let quo := BigInt_toString (Z.quot a b) in
      let quo := if (List.length quo <? p)%nat
                 then zeros (p - List.length quo) ++ quo else quo in
      place_point quo p.

Definition toString (x : t) : jsstring :=
  integer x ++ js "." ++ decimal x.

End BigNum.

(** ** The literal parser ([parseNum] and its helpers) *)

Module Parser.

Fixpoint trimStart (s : jsstring) (zero : ascii) : jsstring :=
  match s with
  | c :: s' => if Ascii.eqb c zero then trimStart s' zero else s
  | [] => []
  end.

Definition trimEnd (s : jsstring) (zero : ascii) : jsstring :=
  rev (trimStart (rev s) zero).

(** The argument [pos] of [trimZeroes]: ["start"] or ["end"]. *)
Inductive position : Set := pos_start | pos_end.

Definition trimZeroes (s : jsstring) (pos : position) (zero : ascii)
  : jsstring :=
  match pos with
  | pos_end => trimEnd s zero
  | pos_start => trimStart s zero
  end.

(** [x in valids]: the keys of the array of the ten digits that are one
    character long are its indices ['0'] to ['9']. *)
Definition in_valids (x : ascii) : bool :=
  let n := N_of_ascii x in ((48 <=? n) && (n <=? 57))%N.

Definition isInteger (s : jsstring) (positive : bool) : bool :=
  let st := match s with
            | "+"%char :: r => r
            | "-"%char :: r => if positive then s else r
            | _ => s
            end in
  forallb in_valids st.

Definition isDecimal (s : jsstring) : bool :=
  match split "."%char s with
  | [a] => isInteger a false
  | [a; b] => isInteger a false && isInteger b true
  | _ => false
  end.

(** [s.substring(0, i)] and [s.substring(i + 1)] around the first ['e']. *)
Definition isValid (s : jsstring) : bool :=
  match indexOf "e"%char s with
  | Some i =>
      let mantissa := substring s 0 (Z.of_nat i) in
      let exponent := substring_from s (Z.of_nat i + 1) in
      isDecimal mantissa && isInteger exponent false
  | None => isDecimal s
  end.

(** [pad(s, n, char, front)] as the parser calls it, with the padding
    string "0": the guard on the length of that string never fires. *)
Definition pad (s : jsstring) (n : number) (front : bool)
  : result jsstring :=
  filler <- padEnd [] n "0"%char ;;
  if front then string_concat filler s else string_concat s filler.

(** [Number(s)] on the strings [isInteger] accepts, an optional sign and
    digits: the empty string is [0], a sign without digits is [NaN], and
    the digits give the nearest binary64 number. *)
Definition Number_of_integer (s : jsstring) : number :=
  match s with
  | [] => Finite 0
  | "+"%char :: ds =>
      match parse_number 10 ds with
      | Some v => Number_of_Z v
      | None => NaN
      end
  | "-"%char :: ds =>
      match parse_number 10 ds with
      | Some v => Number_of_Z (- v)
      | None => NaN
      end
  | ds =>
      match parse_number 10 ds with
      | Some v => Number_of_Z v
      | None => NaN
      end
  end.

Definition decimate (a : jsstring) (index : number) : result jsstring :=
  if number_ltb index (Finite 0) then Throw NegativeIndex
  else
    let (sgn, s) := match a with
                    | "-"%char :: r => (js "-", r)
                    | _ => ([], a)
                    end in
    s' <- (if number_ltb (Finite (len s)) index
           then padded <- pad s (number_sub index (Finite (len s))) true ;;
                string_concat (js "0.") padded
           else
             let i := index_of_number s
                        (number_sub (Finite (len s)) index) in
             front <- string_concat (substring s 0 i) (js ".") ;;
             string_concat front (substring_from s i)) ;;
    string_concat sgn s'.

Definition parseNum (s : jsstring) : result (jsstring * jsstring) :=
  if negb (isValid s) then Throw IllegalNumberFormat
  else
    a <- match indexOf "e"%char s with
         | Some i =>
             let mantissa := substring s 0 (Z.of_nat i) in
             let exponent :=
               Number_of_integer (substring_from s (Z.of_nat i + 1)) in
             let precision :=
               match indexOf "."%char mantissa with
               | None => 0
               | Some index =>
                   len (substring_from mantissa (Z.of_nat index + 1))
               end in
             let num := List.concat (split "."%char mantissa) in
             num' <- (if number_ltb (Finite precision) exponent
                      then pad mantissa
                             (number_sub exponent (Finite precision)) false
                      else decimate num
                             (number_sub (Finite precision) exponent)) ;;
             Ok (split "."%char num')
         | None => Ok (split "."%char s)
         end ;;
    match a with
    | [x] => Ok (trimZeroes x pos_start "0"%char, [])
    | x :: y :: _ =>
        Ok (trimZeroes x pos_start "0"%char, trimZeroes y pos_end "0"%char)
    | [] => Ok ([], [])
    end.

End Parser.

(** ** Numerals: the strings of decimal digits and their value *)

Module Numeral.

Definition digit (c : ascii) : bool :=
  let n := N_of_ascii c in ((48 <=? n) && (n <=? 57))%N.

Definition numeral (s : jsstring) : bool := forallb digit s.

Fixpoint value_from (acc : Z) (s : jsstring) : Z :=
  match s with
  | [] => acc
  | c :: s' => value_from (acc * 10 + (Z.of_N (N_of_ascii c) - 48)) s'
  end.

Definition value (s : jsstring) : Z := value_from 0 s.

Definition no_point (s : jsstring) : bool :=
  forallb (fun c => negb (Ascii.eqb c ".")) s.

Definition no_exp (s : jsstring) : bool :=
  forallb (fun c => negb (Ascii.eqb c "e")) s.

End Numeral.

Import Numeral.

(** ** What the specification says, in its own words *)

Module Spec.

(** [x] stands for the number [v / 10^p]: its unscaled integer [u] over
    its own scale [10^digits] is the same fraction. *)
Definition denotes (x : BigNum.t) (v : Z) (p : nat) : Prop :=
  exists u, BigNum.asBigInt x = Ok u /\
            u * 10 ^ Z.of_nat p = v * 10 ^ Z.of_nat (BigNum.precision x).

(** [x] can be written with [p] digits after the decimal point. *)
Definition exact_at (x : BigNum.t) (p : nat) : Prop :=
  exists v, denotes x v p.

(** The numbers the constructor builds from a plain literal: an optional
    sign in front of the digits of the integer part (at least one digit
    when there is no sign), and a fractional part of at least one digit
    that ends in a zero only when it is "0". *)
Definition well_formed (x : BigNum.t) : Prop :=
  exists sg i,
    BigNum.integer x = sg ++ i
    /\ (sg = [] \/ sg = js "-" \/ sg = js "+")
    /\ numeral i = true
    /\ (sg = [] -> i <> [])
    /\ numeral (BigNum.decimal x) = true
    /\ BigNum.decimal x <> []
    /\ (BigNum.decimal x = js "0"
        \/ BigNum.first_nonzero (rev (BigNum.decimal x)) = O).

(** The quotient of [A / 10^pa] by [B / 10^pb], times [10^17], is the
    fraction [quotient_num / quotient_den]. *)
Definition quotient_num (A : Z) (pb : nat) : Z :=
  A * 10 ^ Z.of_nat pb * 10 ^ 17.

Definition quotient_den (B : Z) (pa : nat) : Z :=
  B * 10 ^ Z.of_nat pa.

(** The integer nearest to [n / d], a tie going to the even neighbour. *)
Definition nearest_even (n d : Z) : Z :=
  let n' := if d <? 0 then - n else n in
  let d' := Z.abs d in
  let q := n' / d' in
  let r := n' mod d' in
  if 2 * r <? d' then q
  else if d' <? 2 * r then q + 1
  else if Z.even q then q else q + 1.

(** [n / d] with the fraction dropped. *)
Definition truncated (n d : Z) : Z := Z.quot n d.

(** *** Rounding modes

    [r] is the rounding of [num / d] to an integer: [r * d] is a multiple
    of [d] next to [num], chosen as the mode says. *)
Definition rounds_as (mode : RoundingMode) (num d r : Z) : Prop :=
  let x := r * d in
  match mode with
  | UP => Z.abs (x - num) < d /\ Z.abs num <= Z.abs x
  | DOWN => Z.abs (x - num) < d /\ Z.abs x <= Z.abs num
  | CEIL => Z.abs (x - num) < d /\ num <= x
  | FLOOR => Z.abs (x - num) < d /\ x <= num
  | HALF_UP =>
      2 * Z.abs (x - num) <= d
      /\ (2 * Z.abs (x - num) = d -> Z.abs num < Z.abs x)
  | HALF_DOWN =>
      2 * Z.abs (x - num) <= d
      /\ (2 * Z.abs (x - num) = d -> Z.abs x < Z.abs num)
  | HALF_EVEN =>
      2 * Z.abs (x - num) <= d
      /\ (2 * Z.abs (x - num) = d -> Z.even r = true)
  | UNNECESSARY => x = num
  end.

(** *** Canonical strings

    An optional minus sign, an integer part without superfluous leading
    zero, one decimal point, and a fractional part that is not empty and
    has no superfluous trailing zero. *)
Definition lone_zero (s : jsstring) : bool :=
  match s with
  | ["0"%char] => true
  | _ => false
  end.

Definition starts_with_zero (s : jsstring) : bool :=
  match s with
  | "0"%char :: _ => true
  | _ => false
  end.

Definition canonical (s : jsstring) : bool :=
  let body := match s with
              | "-"%char :: r => r
              | _ => s
              end in
  match split "."%char body with
  | [ip; fp] =>
      numeral ip && numeral fp
      && (0 <? List.length ip)%nat && (0 <? List.length fp)%nat
      && (lone_zero ip || negb (starts_with_zero ip))
      && (lone_zero fp || negb (starts_with_zero (rev fp)))
  | _ => false
  end.

(** *** Defects of a literal *)

Definition is_digit (c : ascii) : bool :=
  existsb (Ascii.eqb c) (js "0123456789").

(** The literals the parser is meant for: an optional sign, digits, and
    optionally a decimal point with digits. *)
Definition plain_literal (s : jsstring) : bool :=
  let body := match s with
              | "-"%char :: r | "+"%char :: r => r
              | _ => s
              end in
  match split "."%char body with
  | [ip] => numeral ip
  | [ip; fp] => numeral ip && numeral fp
  | _ => false
  end.

Definition is_sign (c : ascii) : bool :=
  Ascii.eqb c "+" || Ascii.eqb c "-".

Definition count (c : ascii) (s : jsstring) : nat :=
  count_occ Ascii.ascii_dec s c.

(** A character is in place when it is a digit, the decimal point of the
    mantissa, the exponent marker, or a sign that leads the literal or the
    exponent.  [prev] is the character before it and [seen_e] tells that
    an exponent marker came earlier: a decimal point behind the exponent
    marker is out of place, the exponent being an integer.  With
    [lenient], a ['+'] right after the decimal point is in place as
    well. *)
Definition in_place (lenient : bool) (prev : option ascii) (seen_e : bool)
    (c : ascii) : bool :=
  is_digit c
  || (Ascii.eqb c "." && negb seen_e)
  || Ascii.eqb c "e"
  || (is_sign c && match prev with
                   | None => true
                   | Some p => Ascii.eqb p "e"
                   end)
  || (lenient && Ascii.eqb c "+" && match prev with
                                    | Some p => Ascii.eqb p "."
                                    | None => false
                                    end).

Fixpoint stray (lenient : bool) (prev : option ascii) (seen_e : bool)
    (s : jsstring) : bool :=
  match s with
  | [] => false
  | c :: s' =>
      negb (in_place lenient prev seen_e c)
      || stray lenient (Some c) (seen_e || Ascii.eqb c "e") s'
  end.

(** More than one decimal point, a non-digit character outside an
    optional leading sign, or more than one exponent marker. *)
Definition malformed (lenient : bool) (s : jsstring) : bool :=
  (1 <? count "." s)%nat
  || stray lenient None false s
  || (1 <? count "e" s)%nat.

End Spec.

(** ** The hypercomplex layer *)

Module Hyper.

(** Modelled from the spec: the hypercomplex class (section 4.3) is not
    among the sources, only its tests are.  A number is the list of its
    components, component 0 first; the components are taken in [Z], where
    the arithmetic of the decimal type is exact. *)
Definition t : Set := list Z.

Definition real (x : Z) : t := [x].

(** Zero-padding up to length [n]. *)
Definition zero_extend (n : nat) (a : t) : t :=
  a ++ repeat 0 (n - List.length a).

(** The smallest power of two that holds [k] components. *)
Definition dim_for (k : nat) : nat := (2 ^ Nat.log2_up k)%nat.

Definition hyper (components : list Z) : t :=
  zero_extend (dim_for (List.length components)) components.

Definition dim (a : t) : nat := List.length a.

(** Negates components [1 .. dim-1], keeps component 0. *)
Definition conj (a : t) : t :=
  match a with
  | [] => []
  | x :: r => x :: map Z.opp r
  end.

Definition neg (a : t) : t := map Z.opp a.

(** Elementwise, zero-extending the shorter operand. *)
Fixpoint add (a b : t) : t :=
  match a, b with
  | [], _ => b
  | _, [] => a
  | x :: a', y :: b' => (x + y) :: add a' b'
  end.

Definition sub (a b : t) : t := add a (neg b).

(** The Cayley-Dickson product of two numbers of dimension [2^n]: for
    [a = (a1, a2)] and [b = (b1, b2)],
    [a b = (a1 b1 - conj(b2) a2, b2 a1 + a2 conj(b1))]; at dimension 1 it
    is the product of the two components. *)
Fixpoint mul_level (n : nat) (a b : t) : t :=
  match n with
  | O => [nth 0 a 0 * nth 0 b 0]
  | S n' =>
      let h := (2 ^ n')%nat in
      let a1 := firstn h a in
      let a2 := skipn h a in
      let b1 := firstn h b in
      let b2 := skipn h b in
      sub (mul_level n' a1 b1) (mul_level n' (conj b2) a2)
      ++ add (mul_level n' b2 a1) (mul_level n' a2 (conj b1))
  end.

Definition mul (a b : t) : t :=
  let n := Nat.max (Nat.log2_up (dim a)) (Nat.log2_up (dim b)) in
  mul_level n (zero_extend (2 ^ n) a) (zero_extend (2 ^ n) b).

(** Equality by value: trailing zero components do not count. *)
Definition equal (a b : t) : Prop :=
  let n := Nat.max (dim a) (dim b) in
  zero_extend n a = zero_extend n b.

(** The number with [1] in slot [i] and [0] elsewhere, of dimension [d]. *)
Definition unit_at (d i : nat) : t :=
  repeat 0 i ++ 1 :: repeat 0 (d - S i).

End Hyper.

(* ================================================================== *)
(** * Properties *)

(** ** Characters and numerals *)

Lemma digit_inv c :
  digit c = true -> In c (js "0123456789").
Proof.
  destruct c as [[] [] [] [] [] [] [] []]; intros H; vm_compute in H;
    try discriminate H; simpl; tauto.
Qed.

Lemma digit_not_white c : digit c = true -> is_white c = false.
Proof.
  intros H; apply digit_inv in H; simpl in H.
  repeat (destruct H as [<- | H]; [reflexivity |]); contradiction.
Qed.

Lemma digit_not_point c : digit c = true -> Ascii.eqb c "." = false.
Proof.
  intros H; apply digit_inv in H; simpl in H.
  repeat (destruct H as [<- | H]; [reflexivity |]); contradiction.
Qed.

Lemma digit_value_digit c :
  digit c = true ->
  digit_value c = Some (Z.of_N (N_of_ascii c) - 48)
  /\ 0 <= Z.of_N (N_of_ascii c) - 48 < 10.
Proof.
  intros H; apply digit_inv in H; simpl in H.
  repeat (destruct H as [<- | H]; [vm_compute; intuition congruence |]);
    contradiction.
Qed.

Lemma digit_zero c :
  digit c = true -> Z.of_N (N_of_ascii c) - 48 = 0 -> c = "0"%char.
Proof.
  intros H. apply digit_inv in H; simpl in H.
  repeat (destruct H as [<- | H];
          [vm_compute; intros E; try discriminate E; reflexivity |]).
  contradiction.
Qed.

Lemma numeral_app s t : numeral (s ++ t) = numeral s && numeral t.
Proof. apply forallb_app. Qed.

Lemma numeral_rev s : numeral (rev s) = numeral s.
Proof.
  induction s as [|c s IH]; simpl; [reflexivity|].
  rewrite numeral_app, IH; simpl. rewrite andb_true_r. apply andb_comm.
Qed.

Lemma numeral_no_point s : numeral s = true -> no_point s = true.
Proof.
  induction s as [|c s IH]; simpl; [reflexivity|].
  intros H; apply andb_true_iff in H as [Hc Hs].
  rewrite (digit_not_point _ Hc), IH; auto.
Qed.

Lemma numeral_skipn k s : numeral s = true -> numeral (skipn k s) = true.
Proof.
  intros H. rewrite <- (firstn_skipn k s), numeral_app in H.
  apply andb_true_iff in H; tauto.
Qed.

Lemma numeral_firstn k s : numeral s = true -> numeral (firstn k s) = true.
Proof.
  intros H. rewrite <- (firstn_skipn k s), numeral_app in H.
  apply andb_true_iff in H; tauto.
Qed.

Lemma numeral_zeros k : numeral (repeat "0"%char k) = true.
Proof. induction k; simpl; auto. Qed.

Lemma value_from_app acc s t :
  value_from acc (s ++ t) = value_from (value_from acc s) t.
Proof. revert acc; induction s; simpl; intros; auto. Qed.

Lemma value_from_shift acc s :
  value_from acc s = acc * 10 ^ len s + value s.
Proof.
  unfold value, len; revert acc.
  induction s as [|c s IH]; intros acc.
  - simpl; lia.
  - cbn [value_from List.length]. rewrite IH, (IH (0 * 10 + _)).
    rewrite Nat2Z.inj_succ, Z.pow_succ_r by lia. ring.
Qed.

Lemma value_app s t : value (s ++ t) = value s * 10 ^ len t + value t.
Proof.
  unfold value at 1. rewrite value_from_app, value_from_shift. reflexivity.
Qed.

Lemma value_bounds s : numeral s = true -> 0 <= value s < 10 ^ len s.
Proof.
  induction s as [|c s IH] using rev_ind; intros H.
  - vm_compute; split; congruence.
  - rewrite numeral_app in H; apply andb_true_iff in H as [Hs Hc].
    simpl in Hc; rewrite andb_true_r in Hc.
    destruct (digit_value_digit _ Hc) as [_ Hd].
    specialize (IH Hs).
    assert (Hv : value [c] = Z.of_N (N_of_ascii c) - 48)
      by (unfold value; cbn [value_from]; lia).
    assert (Hl : len (s ++ [c]) = Z.succ (len s))
      by (unfold len; rewrite length_app; cbn [List.length]; lia).
    rewrite value_app, Hl, Hv, Z.pow_succ_r by (unfold len; lia).
    change (len [c]) with 1. rewrite Z.pow_1_r. lia.
Qed.

Lemma value_zeros k : value (repeat "0"%char k) = 0.
Proof.
  induction k as [|k IH]; [reflexivity|].
  unfold value in *; cbn [repeat value_from]. exact IH.
Qed.

Lemma parse_digits_numeral acc s :
  numeral s = true -> parse_digits 10 acc s = Some (value_from acc s).
Proof.
  revert acc; induction s as [|c s IH]; intros acc H; simpl; [reflexivity|].
  simpl in H; apply andb_true_iff in H as [Hc Hs].
  destruct (digit_value_digit _ Hc) as [-> Hd].
  replace (_ <? 10) with true by (symmetry; apply Z.ltb_lt; lia).
  apply IH, Hs.
Qed.

Lemma parse_number_numeral s :
  numeral s = true -> s <> [] -> parse_number 10 s = Some (value s).
Proof.
  intros H Hne; destruct s; [congruence|].
  unfold parse_number. apply parse_digits_numeral, H.
Qed.

(** ** BigInt(string) on signed numerals *)

Lemma drop_white_head c s :
  is_white c = false -> drop_white (c :: s) = c :: s.
Proof. intros H; simpl; rewrite H; reflexivity. Qed.

Lemma trim_fixed c r l r' :
  rev (c :: r) = l :: r' -> is_white c = false -> is_white l = false ->
  trim (c :: r) = c :: r.
Proof.
  intros Hr Hc Hl. unfold trim.
  rewrite (drop_white_head _ _ Hc), Hr, (drop_white_head _ _ Hl), <- Hr.
  apply rev_involutive.
Qed.

Lemma numeral_rev_head s :
  numeral s = true -> s <> [] ->
  exists l r', rev s = l :: r' /\ digit l = true.
Proof.
  intros H Hne. rewrite <- numeral_rev in H.
  destruct (rev s) as [|l r'] eqn:E.
  - apply (f_equal (@rev ascii)) in E. rewrite rev_involutive in E.
    simpl in E; congruence.
  - simpl in H; apply andb_true_iff in H as [Hl _]. eauto.
Qed.

Lemma trim_numeral s : numeral s = true -> s <> [] -> trim s = s.
Proof.
  intros H Hne. destruct (numeral_rev_head s H Hne) as (l & r' & Hr & Hl).
  destruct s as [|c r]; [congruence|].
  simpl in H; apply andb_true_iff in H as [Hc _].
  eapply trim_fixed; eauto using digit_not_white.
Qed.

Lemma trim_signed_numeral c s :
  is_white c = false -> numeral s = true -> s <> [] ->
  trim (c :: s) = c :: s.
Proof.
  intros Hc H Hne. destruct (numeral_rev_head s H Hne) as (l & r' & Hr & Hl).
  eapply trim_fixed with (l := l) (r' := r' ++ [c]);
    eauto using digit_not_white.
  simpl; rewrite Hr; reflexivity.
Qed.

Lemma StringToBigInt_numeral s :
  numeral s = true -> s <> [] -> StringToBigInt s = Some (value s).
Proof.
  intros H Hne. unfold StringToBigInt. rewrite (trim_numeral s H Hne).
  rewrite <- (parse_number_numeral s H Hne).
  destruct s as [|c r]; [congruence|].
  pose proof H as H'. simpl in H'; apply andb_true_iff in H' as [Hc Hr].
  apply digit_inv in Hc; simpl in Hc.
  destruct Hc as [<- | Hc].
  { destruct r as [|c2 r2]; [reflexivity|].
    simpl in Hr; apply andb_true_iff in Hr as [Hc2 _].
    apply digit_inv in Hc2; simpl in Hc2.
    repeat (destruct Hc2 as [<- | Hc2]; [reflexivity|]). contradiction. }
  repeat (destruct Hc as [<- | Hc]; [reflexivity|]). contradiction.
Qed.

Lemma StringToBigInt_minus s :
  numeral s = true -> s <> [] ->
  StringToBigInt ("-"%char :: s) = Some (- value s).
Proof.
  intros H Hne. unfold StringToBigInt.
  rewrite (trim_signed_numeral "-" s eq_refl H Hne).
  rewrite (parse_number_numeral s H Hne). reflexivity.
Qed.

Lemma StringToBigInt_plus s :
  numeral s = true -> s <> [] ->
  StringToBigInt ("+"%char :: s) = Some (value s).
Proof.
  intros H Hne. unfold StringToBigInt.
  rewrite (trim_signed_numeral "+" s eq_refl H Hne).
  apply (parse_number_numeral s H Hne).
Qed.

(** ** BigInt.prototype.toString *)

Lemma digit_char_spec d :
  0 <= d < 10 ->
  digit (digit_char d) = true
  /\ Z.of_N (N_of_ascii (digit_char d)) - 48 = d
  /\ (0 < d -> digit_char d <> "0"%char).
Proof.
  intros H.
  assert (E : d = 0 \/ d = 1 \/ d = 2 \/ d = 3 \/ d = 4 \/ d = 5 \/ d = 6
              \/ d = 7 \/ d = 8 \/ d = 9) by lia.
  repeat (destruct E as [-> | E];
          [vm_compute; repeat split; congruence |]).
  subst; vm_compute; repeat split; congruence.
Qed.

Lemma first_nonzero_head c s :
  c <> "0"%char -> BigNum.first_nonzero (c :: s) = O.
Proof.
  intros H. destruct c as [[] [] [] [] [] [] [] []]; try reflexivity.
  congruence.
Qed.

Lemma digits_onto_spec f : forall n acc,
  0 <= n < 2 ^ Z.of_nat (S f) ->
  exists ds, digits_onto (S f) n acc = ds ++ acc
             /\ numeral ds = true /\ ds <> [] /\ value ds = n
             /\ (0 < n -> BigNum.first_nonzero ds = O).
Proof.
  induction f as [|f IH]; intros n acc Hn.
  - change (2 ^ Z.of_nat 1) with 2 in Hn.
    cbn [digits_onto]. replace (n <? 10) with true
      by (symmetry; apply Z.ltb_lt; lia).
    rewrite Z.mod_small by lia.
    destruct (digit_char_spec n) as (Hd & Hv & Hz); [lia|].
    exists [digit_char n]. repeat split.
    + simpl; rewrite Hd; reflexivity.
    + congruence.
    + unfold value; cbn [value_from]; lia.
    + intros Hp. apply first_nonzero_head; auto.
  - cbn [digits_onto]. destruct (n <? 10) eqn:E.
    + apply Z.ltb_lt in E. rewrite Z.mod_small by lia.
      destruct (digit_char_spec n) as (Hd & Hv & Hz); [lia|].
      exists [digit_char n]. repeat split.
      * simpl; rewrite Hd; reflexivity.
      * congruence.
      * unfold value; cbn [value_from]; lia.
      * intros Hp. apply first_nonzero_head; auto.
    + apply Z.ltb_ge in E.
      assert (Hq : 0 <= n / 10 < 2 ^ Z.of_nat (S f)).
      { split; [apply Z.div_pos; lia|].
        apply Z.div_lt_upper_bound; [lia|].
        rewrite (Nat2Z.inj_succ (S f)), Z.pow_succ_r in Hn by lia. lia. }
      destruct (IH (n / 10) (digit_char (n mod 10) :: acc) Hq)
        as (ds & Hds & Hnum & Hne & Hval & Hlead).
      destruct (digit_char_spec (n mod 10)) as (Hd & Hv & _).
      { apply Z.mod_pos_bound; lia. }
      exists (ds ++ [digit_char (n mod 10)]). repeat split.
      * change (digits_onto (S f) (n / 10) (digit_char (n mod 10) :: acc)
                = (ds ++ [digit_char (n mod 10)]) ++ acc).
        rewrite Hds, <- app_assoc. reflexivity.
      * rewrite numeral_app, Hnum. simpl; rewrite Hd; reflexivity.
      * intros C; apply app_eq_nil in C as [_ C]; congruence.
      * rewrite value_app, Hval. change (len [_]) with 1.
        unfold value; cbn [value_from]. rewrite Hv, Z.pow_1_r.
        pose proof (Z.div_mod n 10). lia.
      * intros Hp. destruct ds as [|c ds']; [congruence|].
        assert (Hq' : 0 < n / 10) by (apply Z.div_str_pos; lia).
        specialize (Hlead Hq').
        destruct c as [[] [] [] [] [] [] [] []]; try reflexivity.
        discriminate Hlead.
Qed.

Lemma digits_of_spec n :
  0 <= n ->
  numeral (digits_of n) = true /\ digits_of n <> []
  /\ value (digits_of n) = n
  /\ (0 < n -> BigNum.first_nonzero (digits_of n) = O).
Proof.
  intros Hn. unfold digits_of.
  destruct (digits_onto_spec (Z.to_nat (Z.log2 n)) n [])
    as (ds & Hds & H).
  { split; [assumption|].
    rewrite Nat2Z.inj_succ, Z2Nat.id by apply Z.log2_nonneg.
    destruct (Z.eq_dec n 0) as [-> | Hnz]; [reflexivity|].
    apply Z.log2_spec; lia. }
  rewrite Hds, app_nil_r. exact H.
Qed.

Lemma digits_of_zero : digits_of 0 = js "0".
Proof. reflexivity. Qed.

Lemma toString_no_point z : no_point (BigInt_toString z) = true.
Proof.
  unfold BigInt_toString. destruct (z <? 0) eqn:E.
  - apply Z.ltb_lt in E. cbn [no_point forallb].
    apply numeral_no_point. apply digits_of_spec. lia.
  - apply Z.ltb_ge in E. apply numeral_no_point. apply digits_of_spec. lia.
Qed.

(** ** Powers of ten that [Math.pow] gives exactly *)

Lemma BigInt_pow10_small n :
  0 <= n <= 22 -> BigInt_pow10 n = Ok (10 ^ n).
Proof.
  intros H.
  assert (E : exists k, (k <= 22)%nat /\ n = Z.of_nat k)
    by (exists (Z.to_nat n); lia).
  destruct E as (k & Hk & ->).
  do 23 (destruct k as [|k]; [vm_compute; reflexivity|]). lia.
Qed.

Lemma BigInt_5pow10_small n :
  0 <= n <= 21 -> BigInt_5pow10 n = Ok (5 * 10 ^ n).
Proof.
  intros H.
  assert (E : exists k, (k <= 21)%nat /\ n = Z.of_nat k)
    by (exists (Z.to_nat n); lia).
  destruct E as (k & Hk & ->).
  do 22 (destruct k as [|k]; [vm_compute; reflexivity|]). lia.
Qed.

(** ** The constructor *)

Lemma first_nonzero_split s :
  s = repeat "0"%char (BigNum.first_nonzero s)
      ++ skipn (BigNum.first_nonzero s) s.
Proof.
  induction s as [|c s IH]; [reflexivity|].
  destruct c as [[] [] [] [] [] [] [] []]; try reflexivity.
  cbn [BigNum.first_nonzero repeat skipn app]. f_equal. exact IH.
Qed.

Lemma first_nonzero_le s : (BigNum.first_nonzero s <= List.length s)%nat.
Proof.
  induction s as [|c s IH]; [simpl; lia|].
  destruct c as [[] [] [] [] [] [] [] []]; simpl; lia.
Qed.

Lemma first_nonzero_skip l :
  BigNum.first_nonzero (skipn (BigNum.first_nonzero l) l) = O.
Proof.
  induction l as [|c l IH]; [reflexivity|].
  destruct c as [[] [] [] [] [] [] [] []]; try reflexivity. exact IH.
Qed.

Lemma value_skip_zeros s :
  value (skipn (BigNum.first_nonzero s) s) = value s.
Proof.
  transitivity (value (repeat "0"%char (BigNum.first_nonzero s)
                       ++ skipn (BigNum.first_nonzero s) s)).
  - rewrite value_app, value_zeros. lia.
  - f_equal. symmetry. apply first_nonzero_split.
Qed.

Lemma or_zero_nonempty s : BigNum.or_zero s <> [].
Proof. destruct s; simpl; congruence. Qed.

Lemma value_or_zero s : value (BigNum.or_zero s) = value s.
Proof. destruct s; reflexivity. Qed.

Lemma numeral_or_zero s :
  numeral s = true -> numeral (BigNum.or_zero s) = true.
Proof. destruct s; auto. Qed.

Lemma length_or_zero s p :
  (List.length s <= p)%nat -> (List.length (BigNum.or_zero s) <= Nat.max p 1)%nat.
Proof. destruct s; simpl; lia. Qed.

(** The fractional part splits into what the loop keeps and the zeros it
    drops. *)
Lemma after_last_nonzero_split d :
  d = firstn (BigNum.after_last_nonzero d) d
      ++ repeat "0"%char (BigNum.first_nonzero (rev d)).
Proof.
  unfold BigNum.after_last_nonzero.
  set (k := BigNum.first_nonzero (rev d)).
  rewrite <- (rev_involutive d) at 1.
  rewrite (first_nonzero_split (rev d)) at 1. fold k.
  rewrite rev_app_distr, rev_repeat, skipn_rev, rev_involutive.
  reflexivity.
Qed.

Lemma value_kept d :
  value d = value (firstn (BigNum.after_last_nonzero d) d)
            * 10 ^ Z.of_nat (BigNum.first_nonzero (rev d)).
Proof.
  transitivity (value (firstn (BigNum.after_last_nonzero d) d
                       ++ repeat "0"%char (BigNum.first_nonzero (rev d)))).
  - f_equal. apply after_last_nonzero_split.
  - rewrite value_app, value_zeros. unfold len. rewrite repeat_length. lia.
Qed.

Lemma length_kept d :
  List.length d
  = (List.length (firstn (BigNum.after_last_nonzero d) d)
     + BigNum.first_nonzero (rev d))%nat.
Proof.
  transitivity (List.length (firstn (BigNum.after_last_nonzero d) d
                       ++ repeat "0"%char (BigNum.first_nonzero (rev d)))).
  - f_equal. apply after_last_nonzero_split.
  - rewrite length_app, repeat_length. reflexivity.
Qed.

(** Dropping the trailing zeros of a fraction keeps the fraction. *)
Lemma kept_fraction v :
  let dv := BigNum.or_zero (firstn (BigNum.after_last_nonzero v) v) in
  value dv * 10 ^ len v = value v * 10 ^ len dv.
Proof.
  intros dv. subst dv.
  pose proof (value_kept v) as Hv. pose proof (length_kept v) as Hl.
  set (v' := firstn (BigNum.after_last_nonzero v) v) in *.
  set (k := BigNum.first_nonzero (rev v)) in *.
  unfold len. rewrite Hv, Hl, Nat2Z.inj_add, Z.pow_add_r by lia.
  destruct v' as [|c w].
  - cbn [BigNum.or_zero]. change (value []) with 0.
    replace (value (js "0")) with 0 by reflexivity. lia.
  - cbn [BigNum.or_zero]. ring.
Qed.

Lemma numeral_kept v :
  numeral v = true ->
  numeral (BigNum.or_zero (firstn (BigNum.after_last_nonzero v) v)) = true.
Proof. intros H. apply numeral_or_zero, numeral_firstn, H. Qed.

Lemma kept_no_trailing_zero d :
  let D := BigNum.or_zero (firstn (BigNum.after_last_nonzero d) d) in
  D = js "0" \/ BigNum.first_nonzero (rev D) = O.
Proof.
  cbv zeta.
  assert (Hrev : rev (firstn (BigNum.after_last_nonzero d) d)
                 = skipn (BigNum.first_nonzero (rev d)) (rev d))
    by (unfold BigNum.after_last_nonzero; symmetry; apply skipn_rev).
  destruct (firstn (BigNum.after_last_nonzero d) d) as [|y r].
  - left. reflexivity.
  - right. cbn [BigNum.or_zero]. rewrite Hrev. apply first_nonzero_skip.
Qed.

Lemma split_on_no_point s :
  no_point s = true -> split_on "." s = (s, []).
Proof.
  induction s as [|c s IH]; intros H; [reflexivity|].
  simpl in H; apply andb_true_iff in H as [Hc Hs].
  cbn [split_on]. rewrite (IH Hs).
  apply negb_true_iff in Hc. rewrite Hc. reflexivity.
Qed.

Lemma split_point u v :
  no_point u = true -> no_point v = true ->
  split "." (u ++ js "." ++ v) = [u; v].
Proof.
  intros Hu Hv. unfold split.
  induction u as [|c u IH].
  - cbn [app js list_ascii_of_string split_on].
    rewrite (split_on_no_point v Hv). reflexivity.
  - simpl in Hu; apply andb_true_iff in Hu as [Hc Hu].
    specialize (IH Hu). cbn [app split_on].
    destruct (split_on "." (u ++ js "." ++ v)) as [p ps].
    apply negb_true_iff in Hc. rewrite Hc. congruence.
Qed.

Lemma split_signed c s :
  Ascii.eqb c "." = false ->
  split "." (c :: s)
  = match split "." s with
    | p :: ps => (c :: p) :: ps
    | [] => []
    end.
Proof.
  intros H. unfold split. cbn [split_on].
  destruct (split_on "." s) as [p ps]. rewrite H. reflexivity.
Qed.

Lemma new_throws s e : BigNum.new s = Throw e -> e = NumberFormat.
Proof.
  unfold BigNum.new. destruct (split "." s) as [|i [|d [|x l]]];
    intros H; congruence.
Qed.

(** ** Numbers built from plain literals *)

Lemma plain_literal_unsigned c r :
  Ascii.eqb c "+" = false -> Ascii.eqb c "-" = false ->
  Spec.plain_literal (c :: r)
  = match split "." (c :: r) with
    | [ip] => numeral ip
    | [ip; fp] => numeral ip && numeral fp
    | _ => false
    end.
Proof.
  destruct c as [[] [] [] [] [] [] [] []]; intros H1 H2;
    try reflexivity; discriminate.
Qed.

(** The shape of a plain literal: sign, integer digits, fraction. *)
Lemma plain_literal_split s :
  Spec.plain_literal s = true ->
  exists sg ip,
    (sg = [] \/ sg = js "-" \/ sg = js "+")
    /\ numeral ip = true
    /\ (split "." s = [sg ++ ip]
        \/ exists fp, numeral fp = true /\ split "." s = [sg ++ ip; fp]).
Proof.
  intros H.
  assert (Hbody : forall body,
    match split "." body with
    | [ip] => numeral ip
    | [ip; fp] => numeral ip && numeral fp
    | _ => false
    end = true ->
    exists ip, numeral ip = true
      /\ (split "." body = [ip]
          \/ exists fp, numeral fp = true /\ split "." body = [ip; fp])).
  { intros body Hb. destruct (split "." body) as [|ip [|fp [|x l]]];
      try discriminate Hb.
    - exists ip. split; [exact Hb | left; reflexivity].
    - apply andb_true_iff in Hb as [H1 H2].
      exists ip. split; [exact H1 | right; eauto]. }
  destruct s as [|c r].
  { exists [], []. repeat split; auto. }
  destruct (Ascii.eqb c "+") eqn:E1.
  { apply Ascii.eqb_eq in E1; subst c.
    destruct (Hbody r H) as (ip & Hip & Hs).
    exists (js "+"), ip. split; [auto|]. split; [exact Hip|].
    rewrite split_signed by reflexivity.
    destruct Hs as [-> | (fp & Hfp & ->)]; [left | right; exists fp];
      auto. }
  destruct (Ascii.eqb c "-") eqn:E2.
  { apply Ascii.eqb_eq in E2; subst c.
    destruct (Hbody r H) as (ip & Hip & Hs).
    exists (js "-"), ip. split; [auto|]. split; [exact Hip|].
    rewrite split_signed by reflexivity.
    destruct Hs as [-> | (fp & Hfp & ->)]; [left | right; exists fp];
      auto. }
  rewrite (plain_literal_unsigned c r E1 E2) in H.
  destruct (Hbody (c :: r) H) as (ip & Hip & Hs).
  exists [], ip. split; [auto|]. split; [exact Hip|]. exact Hs.
Qed.

Lemma integer_part_shape sg ip :
  (sg = [] \/ sg = js "-" \/ sg = js "+") -> numeral ip = true ->
  exists i,
    BigNum.or_zero (skipn (BigNum.first_nonzero (sg ++ ip)) (sg ++ ip))
    = sg ++ i
    /\ numeral i = true /\ (sg = [] -> i <> []).
Proof.
  intros [-> | [-> | ->]] Hip.
  - exists (BigNum.or_zero (skipn (BigNum.first_nonzero ip) ip)).
    split; [reflexivity|]. split.
    + apply numeral_or_zero, numeral_skipn, Hip.
    + intros _. apply or_zero_nonempty.
  - exists ip. split; [reflexivity|]. split; [exact Hip | discriminate].
  - exists ip. split; [reflexivity|]. split; [exact Hip | discriminate].
Qed.

Lemma new_well_formed s :
  Spec.plain_literal s = true ->
  exists x, BigNum.new s = Ok x /\ Spec.well_formed x.
Proof.
  intros H. destruct (plain_literal_split s H) as (sg & ip & Hsg & Hip & Hs).
  destruct (integer_part_shape sg ip Hsg Hip) as (i & Hi & Hni & Hne).
  unfold BigNum.new.
  destruct Hs as [-> | (fp & Hfp & ->)]; eexists; (split; [reflexivity|]);
    exists sg, i; cbn [BigNum.integer BigNum.decimal];
    (split; [exact Hi|]); (split; [exact Hsg|]); (split; [exact Hni|]);
    (split; [exact Hne|]).
  - split; [reflexivity|]. split; [discriminate | left; reflexivity].
  - split; [apply numeral_kept, Hfp|].
    split; [apply or_zero_nonempty | apply kept_no_trailing_zero].
Qed.

Lemma asBigInt_well_formed x :
  Spec.well_formed x ->
  exists u, BigNum.asBigInt x = Ok u
            /\ (u mod 10 = 0 -> BigNum.decimal x = js "0").
Proof.
  intros (sg & i & Hint & Hsg & Hni & Hne & HnD & HDne & Htr).
  set (D := BigNum.decimal x) in *.
  assert (Hnum : numeral (i ++ D) = true)
    by (rewrite numeral_app, Hni, HnD; reflexivity).
  assert (Hnil : i ++ D <> [])
    by (intros C; apply app_eq_nil in C as [_ C]; congruence).
  assert (Hlast : value (i ++ D) mod 10 = 0 -> D = js "0").
  { intros Hm. destruct Htr as [Htr | Htr]; [exact Htr|]. exfalso.
    destruct (exists_last HDne) as (D0 & c & HD).
    rewrite HD, rev_app_distr in Htr. cbn [rev app] in Htr.
    rewrite HD, numeral_app in HnD. apply andb_true_iff in HnD as [_ Hc].
    cbn [numeral forallb] in Hc. rewrite andb_true_r in Hc.
    destruct (digit_value_digit c Hc) as [_ Hrange].
    rewrite HD, app_assoc, value_app in Hm.
    replace (len [c]) with 1 in Hm by reflexivity.
    replace (value [c]) with (Z.of_N (N_of_ascii c) - 48) in Hm
      by (unfold value; cbn [value_from]; lia).
    rewrite Z.pow_1_r, Z.add_comm, Z_mod_plus_full, Z.mod_small in Hm
      by lia.
    rewrite (digit_zero c Hc Hm) in Htr. discriminate Htr. }
  unfold BigNum.asBigInt, BigInt_of_string. fold D. rewrite Hint.
  destruct Hsg as [-> | [-> | ->]]; cbn [app js list_ascii_of_string].
  - rewrite (StringToBigInt_numeral _ Hnum Hnil). eauto.
  - rewrite (StringToBigInt_minus _ Hnum Hnil).
    eexists; split; [reflexivity|]. intros Hm. apply Hlast.
    apply Z_mod_zero_opp_full in Hm. rewrite Z.opp_involutive in Hm.
    exact Hm.
  - rewrite (StringToBigInt_plus _ Hnum Hnil). eauto.
Qed.

(** ** [toString] *)

Lemma starts_with_zero_spec l :
  l <> [] -> BigNum.first_nonzero l = O -> Spec.starts_with_zero l = false.
Proof.
  destruct l as [|c l]; [congruence|]. intros _.
  destruct c as [[] [] [] [] [] [] [] []]; try reflexivity.
  discriminate.
Qed.

(** X24. A literal without sign is printed in canonical form. *)
Lemma toString_canonical_unsigned s :
  numeral s = true \/ (exists ip fp, s = ip ++ js "." ++ fp
                                     /\ numeral ip = true
                                     /\ numeral fp = true) ->
  exists x, BigNum.new s = Ok x
            /\ Spec.canonical (BigNum.toString x) = true.
Proof.
  intros H.
  assert (Hshape : exists ip D,
            numeral ip = true /\ numeral D = true /\ D <> []
            /\ (D = js "0" \/ BigNum.first_nonzero (rev D) = O)
            /\ BigNum.new s
               = Ok {| BigNum.integer :=
                         BigNum.or_zero
                           (skipn (BigNum.first_nonzero ip) ip);
                       BigNum.decimal := D |}).
  { destruct H as [H | (ip & fp & -> & Hip & Hfp)].
    - exists s, (js "0"). repeat split; auto; [discriminate|].
      unfold BigNum.new, split.
      rewrite (split_on_no_point s (numeral_no_point s H)). reflexivity.
    - exists ip, (BigNum.or_zero (firstn (BigNum.after_last_nonzero fp) fp)).
      split; [exact Hip|]. split; [apply numeral_kept, Hfp|].
      split; [apply or_zero_nonempty|].
      split; [apply kept_no_trailing_zero|].
      unfold BigNum.new.
      rewrite (split_point ip fp (numeral_no_point _ Hip)
                 (numeral_no_point _ Hfp)). reflexivity. }
  destruct Hshape as (ip & D & Hip & HD & HDne & Htr & ->).
  eexists; split; [reflexivity|].
  unfold BigNum.toString. cbn [BigNum.integer BigNum.decimal].
  set (I := BigNum.or_zero (skipn (BigNum.first_nonzero ip) ip)).
  assert (HI : numeral I = true)
    by (apply numeral_or_zero, numeral_skipn, Hip).
  assert (HIne : I <> []) by apply or_zero_nonempty.
  assert (HIz : Spec.lone_zero I || negb (Spec.starts_with_zero I) = true).
  { unfold I. destruct (skipn (BigNum.first_nonzero ip) ip) as [|c l] eqn:E.
    - reflexivity.
    - cbn [BigNum.or_zero]. rewrite starts_with_zero_spec.
      + apply orb_true_r.
      + discriminate.
      + rewrite <- E. apply first_nonzero_skip. }
  assert (HDz : Spec.lone_zero D
                || negb (Spec.starts_with_zero (rev D)) = true).
  { destruct Htr as [-> | Htr]; [reflexivity|].
    rewrite starts_with_zero_spec; [apply orb_true_r | | exact Htr].
    intros C. apply (f_equal (@rev ascii)) in C.
    rewrite rev_involutive in C. exact (HDne C). }
  unfold Spec.canonical.
  destruct I as [|c l] eqn:EI; [congruence|].
  match goal with |- context [split "." ?body] =>
    replace body with ((c :: l) ++ js "." ++ D) end.
  - rewrite (split_point (c :: l) D (numeral_no_point _ HI)
               (numeral_no_point _ HD)).
    rewrite HI, HD, HIz, HDz.
    destruct D as [|d D']; [congruence|]. reflexivity.
  - cbn [numeral forallb] in HI. apply andb_true_iff in HI as [Hc _].
    cbn [app].
    destruct c as [[] [] [] [] [] [] [] []]; try reflexivity.
    vm_compute in Hc. discriminate Hc.
Qed.

(** C4. The constructor leaves the zeros that follow a minus sign:
    "-007.5" prints as "-007.5", which is not canonical. *)
Theorem toString_keeps_zeros_after_sign :
  Spec.plain_literal (js "-007.5") = true
  /\ exists x, BigNum.new (js "-007.5") = Ok x
               /\ BigNum.toString x = js "-007.5"
               /\ Spec.canonical (BigNum.toString x) = false.
Proof.
  split; [reflexivity|].
  eexists. split; [vm_compute; reflexivity|].
  split; vm_compute; reflexivity.
Qed.

(** ** Where the decimal point lands *)

Lemma substring_prefix r i :
  substring r 0 i = firstn (Z.to_nat i) r.
Proof.
  unfold substring, clamp, len.
  assert (H0 : Z.max 0 (Z.min 0 (Z.of_nat (List.length r))) = 0) by lia.
  rewrite H0.
  replace (Z.min 0 _) with 0 by lia.
  rewrite Z.max_r by lia. cbn [Z.to_nat skipn]. rewrite Z.sub_0_r.
  destruct (Z_le_gt_dec i (Z.of_nat (List.length r))).
  - f_equal. lia.
  - rewrite !firstn_all2 by lia. reflexivity.
Qed.

Lemma substring_suffix r i :
  substring_from r i = skipn (Z.to_nat i) r.
Proof.
  unfold substring_from, substring, clamp, len.
  set (n := Z.of_nat (List.length r)).
  assert (Hn : 0 <= n) by (unfold n; lia).
  replace (Z.max 0 (Z.min n n)) with n by lia.
  destruct (Z_le_gt_dec i n).
  - replace (Z.min (Z.max 0 (Z.min i n)) n) with (Z.max 0 i) by lia.
    replace (Z.max (Z.max 0 (Z.min i n)) n) with n by lia.
    replace (Z.to_nat (Z.max 0 i)) with (Z.to_nat i) by lia.
    apply firstn_all2. rewrite length_skipn. unfold n. lia.
  - replace (Z.min (Z.max 0 (Z.min i n)) n) with n by lia.
    replace (Z.max (Z.max 0 (Z.min i n)) n) with n by lia.
    rewrite Z.sub_diag. cbn [Z.to_nat firstn].
    rewrite skipn_all2; [reflexivity | unfold n in *; lia].
Qed.

Lemma place_point_eq r p :
  no_point r = true ->
  let u := firstn (List.length r - p) r in
  let v := skipn (List.length r - p) r in
  BigNum.place_point r p
  = Ok {| BigNum.integer :=
            BigNum.or_zero (skipn (BigNum.first_nonzero u) u);
          BigNum.decimal :=
            BigNum.or_zero (firstn (BigNum.after_last_nonzero v) v) |}.
Proof.
  intros Hr u v. unfold BigNum.place_point.
  rewrite substring_prefix, substring_suffix.
  replace (Z.to_nat (len r - Z.of_nat p)) with (List.length r - p)%nat
    by (unfold len; lia).
  fold u v. unfold BigNum.new.
  assert (Hu : no_point u = true).
  { unfold u, no_point. rewrite <- (firstn_skipn (List.length r - p) r) in Hr.
    unfold no_point in Hr. rewrite forallb_app in Hr.
    apply andb_true_iff in Hr; tauto. }
  assert (Hv : no_point v = true).
  { unfold v, no_point. rewrite <- (firstn_skipn (List.length r - p) r) in Hr.
    unfold no_point in Hr. rewrite forallb_app in Hr.
    apply andb_true_iff in Hr; tauto. }
  rewrite (split_point u v Hu Hv). reflexivity.
Qed.

Lemma place_point_numeral r p :
  numeral r = true -> (p <= List.length r)%nat ->
  exists y, BigNum.place_point r p = Ok y /\ Spec.denotes y (value r) p.
Proof.
  intros Hr Hp.
  rewrite (place_point_eq r p (numeral_no_point r Hr)). cbv zeta.
  set (k := (List.length r - p)%nat).
  set (u := firstn k r). set (v := skipn k r).
  set (iu := BigNum.or_zero (skipn (BigNum.first_nonzero u) u)).
  set (dv := BigNum.or_zero (firstn (BigNum.after_last_nonzero v) v)).
  eexists; split; [reflexivity|].
  assert (Hu : numeral u = true) by (apply numeral_firstn, Hr).
  assert (Hv : numeral v = true) by (apply numeral_skipn, Hr).
  assert (Hiu : numeral iu = true)
    by (apply numeral_or_zero, numeral_skipn, Hu).
  assert (Hdv : numeral dv = true) by (apply numeral_kept, Hv).
  assert (Hlv : len v = Z.of_nat p)
    by (unfold len, v, k; rewrite length_skipn; lia).
  exists (value (iu ++ dv)). split.
  - unfold BigNum.asBigInt, BigInt_of_string.
    cbn [BigNum.integer BigNum.decimal].
    rewrite StringToBigInt_numeral; [reflexivity | |].
    + rewrite numeral_app, Hiu, Hdv; reflexivity.
    + intros C; apply app_eq_nil in C as [C _].
      exact (or_zero_nonempty _ C).
  - unfold BigNum.precision; cbn [BigNum.decimal].
    assert (Er : value r = value u * 10 ^ Z.of_nat p + value v).
    { rewrite <- Hlv, <- value_app. unfold u, v.
      rewrite firstn_skipn. reflexivity. }
    assert (Eiu : value iu = value u)
      by (unfold iu; rewrite value_or_zero; apply value_skip_zeros).
    pose proof (kept_fraction v) as Hk. cbv zeta in Hk. fold dv in Hk.
    rewrite Hlv in Hk. fold (len dv).
    rewrite value_app, Eiu, Er.
    rewrite Z.mul_add_distr_r, Z.mul_add_distr_r, Hk. ring.
Qed.

Lemma place_point_negative ds p :
  numeral ds = true -> (p <= List.length ds)%nat -> ds <> [] ->
  exists y, BigNum.place_point ("-"%char :: ds) p = Ok y
            /\ Spec.denotes y (- value ds) p.
Proof.
  intros Hr Hp Hne.
  assert (Hnp : no_point ("-"%char :: ds) = true)
    by (cbn [no_point forallb]; apply (numeral_no_point ds Hr)).
  rewrite (place_point_eq _ p Hnp). cbv zeta.
  cbn [List.length].
  replace (S (List.length ds) - p)%nat with (S (List.length ds - p))
    by lia.
  set (k := (List.length ds - p)%nat). cbn [firstn skipn].
  set (u := firstn k ds). set (v := skipn k ds).
  cbn [BigNum.first_nonzero skipn BigNum.or_zero].
  set (dv := BigNum.or_zero (firstn (BigNum.after_last_nonzero v) v)).
  eexists; split; [reflexivity|].
  assert (Hu : numeral u = true) by (apply numeral_firstn, Hr).
  assert (Hv : numeral v = true) by (apply numeral_skipn, Hr).
  assert (Hdv : numeral dv = true) by (apply numeral_kept, Hv).
  assert (Hlv : len v = Z.of_nat p)
    by (unfold len, v, k; rewrite length_skipn; lia).
  exists (- value (u ++ dv)). split.
  - unfold BigNum.asBigInt, BigInt_of_string.
    cbn [BigNum.integer BigNum.decimal app].
    rewrite StringToBigInt_minus; [reflexivity | |].
    + rewrite numeral_app, Hu, Hdv; reflexivity.
    + intros C; apply app_eq_nil in C as [_ C].
      exact (or_zero_nonempty _ C).
  - unfold BigNum.precision; cbn [BigNum.decimal].
    assert (Er : value ds = value u * 10 ^ Z.of_nat p + value v).
    { rewrite <- Hlv, <- value_app. unfold u, v.
      rewrite firstn_skipn. reflexivity. }
    pose proof (kept_fraction v) as Hk. cbv zeta in Hk. fold dv in Hk.
    rewrite Hlv in Hk. fold (len dv).
    rewrite value_app, Er.
    rewrite !Z.mul_opp_l, Z.mul_add_distr_r, Z.mul_add_distr_r, Hk.
    ring.
Qed.

Lemma place_point_integer q :
  exists y, BigNum.place_point (BigInt_toString q) 0 = Ok y
            /\ Spec.denotes y q 0.
Proof.
  unfold BigInt_toString. destruct (q <? 0) eqn:E.
  - apply Z.ltb_lt in E.
    destruct (digits_of_spec (- q)) as (Hn & Hne & Hv & _); [lia|].
    destruct (place_point_negative _ 0 Hn (Nat.le_0_l _) Hne)
      as (y & Hy & Hd).
    exists y. split; [exact Hy|]. rewrite Hv, Z.opp_involutive in Hd.
    exact Hd.
  - apply Z.ltb_ge in E.
    destruct (digits_of_spec q) as (Hn & Hne & Hv & _); [lia|].
    destruct (place_point_numeral _ 0 Hn (Nat.le_0_l _)) as (y & Hy & Hd).
    exists y. split; [exact Hy|]. rewrite Hv in Hd. exact Hd.
Qed.

(** ** [add] *)

(** Where the padding is an exact power of ten and the printed sum has
    at least as many digits as the longer fraction, [add] is exact. *)
Lemma add_exact_when_wide a b A B :
  BigNum.asBigInt a = Ok A ->
  BigNum.asBigInt b = Ok B ->
  let pa := BigNum.precision a in
  let pb := BigNum.precision b in
  let p := Nat.max pa pb in
  let S := A * 10 ^ Z.of_nat (p - pa) + B * 10 ^ Z.of_nat (p - pb) in
  Z.abs (Z.of_nat pa - Z.of_nat pb) <= 22 ->
  10 ^ Z.of_nat p <= 10 * Z.abs S ->
  exists y, BigNum.add a b = Ok y /\ Spec.denotes y S p.
Proof.
  intros Ha Hb pa pb p S Hd Hwide. unfold BigNum.add. fold pa pb p.
  rewrite BigInt_pow10_small, Ha, Hb by lia. cbn [bind].
  assert (ES : (if 0 <? Z.of_nat pa - Z.of_nat pb
                then A + B * 10 ^ Z.abs (Z.of_nat pa - Z.of_nat pb)
                else A * 10 ^ Z.abs (Z.of_nat pa - Z.of_nat pb) + B) = S).
  { unfold S, p. destruct (0 <? Z.of_nat pa - Z.of_nat pb) eqn:E.
    - apply Z.ltb_lt in E.
      replace (Nat.max pa pb - pa)%nat with O by lia.
      replace (Z.of_nat (Nat.max pa pb - pb))
        with (Z.abs (Z.of_nat pa - Z.of_nat pb)) by lia.
      change (10 ^ Z.of_nat 0) with 1. ring.
    - apply Z.ltb_ge in E.
      replace (Nat.max pa pb - pb)%nat with O by lia.
      replace (Z.of_nat (Nat.max pa pb - pa))
        with (Z.abs (Z.of_nat pa - Z.of_nat pb)) by lia.
      change (10 ^ Z.of_nat 0) with 1. ring. }
  rewrite ES. clearbody S. clear ES.
  assert (Hlen : forall n, 0 <= n -> 10 ^ Z.of_nat p <= 10 * n ->
                           (p <= List.length (digits_of n))%nat).
  { intros n Hn Hw.
    destruct (digits_of_spec n Hn) as (Hnum & _ & Hv & _).
    pose proof (value_bounds _ Hnum) as Hb'. rewrite Hv in Hb'.
    destruct (Nat.eq_dec p 0) as [-> | Hp]; [lia|].
    assert (Z.of_nat p - 1 < len (digits_of n)).
    { destruct (Z.pow_lt_mono_r_iff 10 (Z.of_nat p - 1)
                  (len (digits_of n))) as [_ Hpow];
        [lia | unfold len; lia |].
      apply Hpow.
      replace (Z.of_nat p) with (Z.succ (Z.of_nat p - 1)) in Hw by lia.
      rewrite Z.pow_succ_r in Hw by lia. lia. }
    unfold len in *; lia. }
  unfold BigInt_toString. destruct (S <? 0) eqn:E.
  - apply Z.ltb_lt in E.
    destruct (digits_of_spec (- S)) as (Hn & Hne & Hv & _); [lia|].
    destruct (place_point_negative _ p Hn) as (y & Hy & Hden);
      [apply Hlen; lia | exact Hne |].
    exists y. split; [exact Hy|].
    rewrite Hv, Z.opp_involutive in Hden. exact Hden.
  - apply Z.ltb_ge in E.
    destruct (digits_of_spec S) as (Hn & Hne & Hv & _); [lia|].
    destruct (place_point_numeral _ p Hn) as (y & Hy & Hden);
      [apply Hlen; lia |].
    exists y. split; [exact Hy|]. rewrite Hv in Hden. exact Hden.
Qed.

(** C1. 0.05 + 0.04: the sum of the unscaled integers prints as "9",
    shorter than the two fractional digits, and the decimal point lands in
    front of it: the result is 0.9, not 0.09. *)
Theorem add_loses_leading_zeros :
  exists a b s,
    BigNum.new (js "0.05") = Ok a /\ Spec.denotes a 5 2
    /\ BigNum.new (js "0.04") = Ok b /\ Spec.denotes b 4 2
    /\ BigNum.add a b = Ok s
    /\ BigNum.toString s = js "0.9"
    /\ ~ Spec.denotes s (5 + 4) 2.
Proof.
  eexists _, _, _.
  split; [vm_compute; reflexivity|].
  split; [exists 5; split; vm_compute; reflexivity|].
  split; [vm_compute; reflexivity|].
  split; [exists 4; split; vm_compute; reflexivity|].
  split; [vm_compute; reflexivity|].
  split; [vm_compute; reflexivity|].
  intros (u & Hu & He). vm_compute in Hu. injection Hu as <-.
  vm_compute in He. discriminate He.
Qed.

(** ** [div] *)

Lemma jsstring_eqb_eq a b : BigNum.jsstring_eqb a b = true -> a = b.
Proof.
  unfold BigNum.jsstring_eqb. destruct (list_eq_dec _ a b); congruence.
Qed.

Lemma sign_zero_value b : BigNum.sign b = 0 -> BigNum.asBigInt b = Ok 0.
Proof.
  unfold BigNum.sign. intros H.
  destruct (BigNum.jsstring_eqb (BigNum.integer b) (js "0")
            && BigNum.jsstring_eqb (BigNum.decimal b) (js "0")) eqn:E.
  - apply andb_true_iff in E as [E1 E2].
    apply jsstring_eqb_eq in E1, E2.
    unfold BigNum.asBigInt. rewrite E1, E2. reflexivity.
  - destruct (BigNum.integer b) as [|c r]; [discriminate H|].
    destruct c as [[] [] [] [] [] [] [] []]; discriminate H.
Qed.

(** The guard of [div] decides on the sign alone. *)
Lemma div_guard this that :
  BigNum.sign that = 0 ->
  BigNum.div this that
  = if BigNum.sign this =? 0 then Throw IndeterminateForm
    else Throw DivisionByZero.
Proof. intros H. unfold BigNum.div. rewrite H. reflexivity. Qed.

(** Past the guard neither of the two errors is raised. *)
Lemma div_past_guard this that :
  BigNum.sign that <> 0 ->
  BigNum.div this that <> Throw DivisionByZero
  /\ BigNum.div this that <> Throw IndeterminateForm.
Proof.
  intros H. unfold BigNum.div.
  replace (BigNum.sign that =? 0) with false
    by (symmetry; apply Z.eqb_neq; exact H).
  unfold BigNum.asBigInt, BigInt_of_string, BigInt_pow10.
  repeat match goal with
         | |- context [match ?c with _ => _ end] =>
             lazymatch c with
             | BigNum.place_point _ _ => fail
             | _ => destruct c; cbn [bind]
             end
         end;
    try (split; discriminate);
    unfold BigNum.place_point;
    match goal with
    | |- context [BigNum.new ?t] =>
        destruct (BigNum.new t) as [y|e] eqn:E;
          [split; discriminate
          | apply new_throws in E; subst e; split; discriminate]
    end.
Qed.

(** C5. The divisor "-0" has the value zero, but its sign is computed as
    [-1]; the division then reaches the BigInt division, which raises a
    RangeError and not DivisionByZero. *)
Theorem div_by_negative_zero :
  exists a b,
    BigNum.new (js "1") = Ok a /\ Spec.denotes a 1 0
    /\ BigNum.new (js "-0") = Ok b /\ Spec.denotes b 0 0
    /\ BigNum.sign b = -1
    /\ BigNum.div a b = Throw RangeError.
Proof.
  eexists _, _.
  split; [vm_compute; reflexivity|].
  split; [exists 10; split; vm_compute; reflexivity|].
  split; [vm_compute; reflexivity|].
  split; [exists 0; split; vm_compute; reflexivity|].
  split; vm_compute; reflexivity.
Qed.

Lemma quotient_scaled A B pa pb :
  B <> 0 -> 0 <= 17 - Z.of_nat pa + Z.of_nat pb ->
  Spec.truncated (Spec.quotient_num A pb) (Spec.quotient_den B pa)
  = Z.quot (A * 10 ^ (17 - Z.of_nat pa + Z.of_nat pb)) B.
Proof.
  intros HB Hr. unfold Spec.truncated, Spec.quotient_num, Spec.quotient_den.
  replace (A * 10 ^ Z.of_nat pb * 10 ^ 17)
    with (A * 10 ^ (17 - Z.of_nat pa + Z.of_nat pb) * 10 ^ Z.of_nat pa).
  - apply Z.quot_mul_cancel_r; [assumption|].
    apply Z.pow_nonzero; lia.
  - rewrite <- !Z.mul_assoc, <- !Z.pow_add_r by lia. do 2 f_equal. lia.
Qed.

(** C2. 2 / 3: the default context asks for seventeen digits rounded
    half-even, which is 0.66666666666666667; [div] reads the precision of
    that context and not its rounding mode, divides the BigInts, which
    cuts the quotient, and returns 0.66666666666666666. *)
Theorem div_two_by_three_not_rounded :
  BigNum.DEFAULT_CONTEXT
  = {| MathContext.precision := 17; MathContext.rounding := HALF_EVEN |}
  /\ exists a b q,
    BigNum.new (js "2") = Ok a /\ BigNum.asBigInt a = Ok 20
    /\ BigNum.new (js "3") = Ok b /\ BigNum.asBigInt b = Ok 30
    /\ BigNum.div a b = Ok q
    /\ BigNum.toString q = js "0.66666666666666666"
    /\ Spec.nearest_even (Spec.quotient_num 20 (BigNum.precision b))
                         (Spec.quotient_den 30 (BigNum.precision a))
       = 66666666666666667
    /\ ~ Spec.denotes q
           (Spec.nearest_even (Spec.quotient_num 20 (BigNum.precision b))
                              (Spec.quotient_den 30 (BigNum.precision a)))
           17.
Proof.
  split; [reflexivity|].
  eexists _, _, _.
  split; [vm_compute; reflexivity|].
  split; [vm_compute; reflexivity|].
  split; [vm_compute; reflexivity|].
  split; [vm_compute; reflexivity|].
  split; [vm_compute; reflexivity|].
  split; [vm_compute; reflexivity|].
  split; [vm_compute; reflexivity|].
  intros (u & Hu & He). vm_compute in Hu. injection Hu as <-.
  vm_compute in He. discriminate He.
Qed.

(** X27. For operands that have an unscaled integer, a divisor other than
    zero, a scale [10^raise] with [raise] between 0 and 22, so that it is
    an exact power of ten, and a quotient that is not negative or has at
    least seventeen digits, so that no sign is misplaced: the result of
    [div] is the exact quotient with the digits after the seventeenth cut
    off (rounding toward zero). *)
Theorem div_truncates a b A B :
  BigNum.asBigInt a = Ok A ->
  BigNum.asBigInt b = Ok B ->
  B <> 0 ->
  0 <= 17 - Z.of_nat (BigNum.precision a) + Z.of_nat (BigNum.precision b) <= 22 ->
  let q := Spec.truncated (Spec.quotient_num A (BigNum.precision b))
                          (Spec.quotient_den B (BigNum.precision a)) in
  0 <= q \/ q <= - 10 ^ 16 ->
  exists r, BigNum.div a b = Ok r /\ Spec.denotes r q 17.
Proof.
  intros Ha Hb HB Hraise q Hq.
  assert (Eq : q = Z.quot (A * 10 ^ (17 - Z.of_nat (BigNum.precision a)
                                     + Z.of_nat (BigNum.precision b))) B)
    by (apply quotient_scaled; lia).
  unfold BigNum.div.
  destruct (BigNum.sign b =? 0) eqn:Es.
  { apply Z.eqb_eq, sign_zero_value in Es. congruence. }
  replace (MathContext.precision BigNum.DEFAULT_CONTEXT) with 17%nat by reflexivity.
  replace (Z.of_nat 17) with 17 by reflexivity.
  rewrite Ha, Hb, BigInt_pow10_small by lia. cbn [bind].
  replace (B =? 0) with false by (symmetry; apply Z.eqb_neq; exact HB).
  rewrite <- Eq. clearbody q. clear Eq.
  unfold BigInt_toString. destruct (q <? 0) eqn:Eneg.
  - apply Z.ltb_lt in Eneg.
    destruct (digits_of_spec (- q)) as (Hn & Hne & Hv & _); [lia|].
    pose proof (value_bounds _ Hn) as Hbound.
    assert (Hlen : (17 <= List.length (digits_of (- q)))%nat).
    { assert (16 < len (digits_of (- q))).
      { destruct (Z.pow_lt_mono_r_iff 10 16 (len (digits_of (- q))))
          as [_ Hpow]; [lia | unfold len; lia |].
        apply Hpow. lia. }
      unfold len in *; lia. }
    replace (List.length ("-"%char :: digits_of (- q)) <? 17)%nat
      with false by (symmetry; apply Nat.ltb_ge; cbn [List.length]; lia).
    destruct (place_point_negative _ 17 Hn Hlen Hne) as (y & Hy & Hd).
    exists y; split; [exact Hy|]. rewrite Hv, Z.opp_involutive in Hd.
    exact Hd.
  - apply Z.ltb_ge in Eneg.
    destruct (digits_of_spec q) as (Hn & Hne & Hv & _); [lia|].
    set (ds := digits_of q) in *.
    destruct (List.length ds <? 17)%nat eqn:El.
    + apply Nat.ltb_lt in El.
      destruct (place_point_numeral
                  (BigNum.zeros (17 - List.length ds) ++ ds) 17)
        as (y & Hy & Hd).
      * unfold BigNum.zeros. rewrite numeral_app, numeral_zeros, Hn.
        reflexivity.
      * unfold BigNum.zeros. rewrite length_app, repeat_length. lia.
      * exists y; split; [exact Hy|].
        unfold BigNum.zeros in Hd. rewrite value_app, value_zeros, Hv in Hd.
        exact Hd.
    + apply Nat.ltb_ge in El.
      destruct (place_point_numeral ds 17 Hn El) as (y & Hy & Hd).
      exists y; split; [exact Hy|]. rewrite Hv in Hd. exact Hd.
Qed.

(** 144 / -12, the first end-to-end scenario: the result is -12. *)
Lemma div_truncates_witness :
  let a := {| BigNum.integer := js "144"; BigNum.decimal := js "0" |} in
  let b := {| BigNum.integer := js "-12"; BigNum.decimal := js "0" |} in
  BigNum.asBigInt a = Ok 1440
  /\ BigNum.asBigInt b = Ok (-120)
  /\ -120 <> 0
  /\ 0 <= 17 - Z.of_nat (BigNum.precision a) + Z.of_nat (BigNum.precision b) <= 22
  /\ exists r, BigNum.div a b = Ok r /\ Spec.denotes r (- 12 * 10 ^ 17) 17.
Proof.
  cbv zeta.
  split; [reflexivity|]. split; [reflexivity|]. split; [lia|].
  split; [vm_compute; split; congruence|].
  apply (div_truncates
           {| BigNum.integer := js "144"; BigNum.decimal := js "0" |}
           {| BigNum.integer := js "-12"; BigNum.decimal := js "0" |}
           1440 (-120)).
  - reflexivity.
  - reflexivity.
  - lia.
  - vm_compute; split; congruence.
  - right. vm_compute. congruence.
Defined.

(** ** [round]: the modes *)

(** The parity test of HALF_EVEN, [abs(Number(rounded % ten)) % 2 !== 0],
    tells whether [rounded] is odd. *)
Lemma last_digit_parity q :
  (Z.rem (Z.abs (Z.rem q 10)) 2 =? 0) = Z.even q.
Proof.
  assert (H1 : Z.even q = Z.even (Z.rem q 10)).
  { rewrite (Z.quot_rem' q 10) at 1.
    replace (10 * (q ÷ 10) + Z.rem q 10)
      with (Z.rem q 10 + 2 * (5 * (q ÷ 10))) by ring.
    apply Z.even_add_mul_2. }
  assert (H2 : Z.even (Z.abs (Z.rem q 10)) = Z.even (Z.rem q 10))
    by (destruct (Z.rem q 10); reflexivity).
  rewrite Z.rem_mod_nonneg by lia.
  rewrite H1, <- H2. symmetry. apply Zeven_mod.
Qed.

Lemma round_switch_total mode q l five :
  mode <> UNNECESSARY -> exists r, BigNum.round_switch mode q l five = Ok r.
Proof.
  intros H. destruct mode; cbn [BigNum.round_switch];
    repeat match goal with
           | |- context [if ?c then _ else _] => destruct c
           end; eauto.
  congruence.
Qed.

(** Whatever the switch returns is the rounding of [num / divider] in the
    sense of the mode, for an even divider [2 * five]. *)
Lemma round_switch_modes mode num five r :
  0 < five ->
  BigNum.round_switch mode (Z.quot num (2 * five)) (Z.rem num (2 * five))
    five = Ok r ->
  Spec.rounds_as mode num (2 * five) r.
Proof.
  intros H5. set (d := 2 * five).
  pose proof (Z.quot_rem' num d) as Hnum.
  assert (Hl : (0 <= num /\ 0 <= Z.rem num d < d /\ Z.rem num d <= num)
               \/ (num <= 0 /\ - d < Z.rem num d <= 0
                   /\ num <= Z.rem num d)).
  { destruct (Z_le_gt_dec 0 num).
    - left. split; [assumption|]. split.
      + apply Z.rem_bound_pos_pos; lia.
      + apply Z.rem_le; lia.
    - right. split; [lia|]. split.
      + apply Z.rem_bound_pos_neg; lia.
      + pose proof (Z.rem_le (- num) d). rewrite Z.rem_opp_l in *; lia. }
  set (q := Z.quot num d) in *. set (l := Z.rem num d) in *.
  assert (Hd : d = 2 * five) by reflexivity.
  clearbody d q l.
  assert (Hq : q * d = num - l) by lia.
  unfold Spec.rounds_as.
  destruct mode; cbn [BigNum.round_switch]; cbv zeta;
    try rewrite last_digit_parity;
    repeat match goal with
           | |- context [if ?c then _ else _] => destruct c eqn:?
           end;
    intros E; try discriminate E; injection E as <-;
    repeat match goal with
           | H : (_ <? _) = true |- _ => apply Z.ltb_lt in H
           | H : (_ <? _) = false |- _ => apply Z.ltb_ge in H
           | H : (_ <=? _) = true |- _ => apply Z.leb_le in H
           | H : (_ <=? _) = false |- _ => apply Z.leb_gt in H
           | H : (_ =? _) = true |- _ => apply Z.eqb_eq in H
           | H : (_ =? _) = false |- _ => apply Z.eqb_neq in H
           | H : negb _ = true |- _ => apply negb_true_iff in H
           | H : negb _ = false |- _ => apply negb_false_iff in H
           | H : _ || _ = false |- _ => apply orb_false_iff in H as [? ?]
           end;
    rewrite ?Z.mul_add_distr_r, ?Z.mul_sub_distr_r, ?Z.mul_1_l, ?Hq;
    try lia;
    (split; [lia | intros Htie]);
    first [ lia
          | assumption
          | match goal with
            | H : Z.even q = false |- _ =>
                rewrite ?Z.even_add, ?Z.even_sub, H; reflexivity
            end ].
Qed.

Lemma round_switch_exact mode z five :
  0 < five -> BigNum.round_switch mode z 0 five = Ok z.
Proof.
  intros H. unfold BigNum.round_switch.
  assert (H1 : (five <? 0) = false) by (apply Z.ltb_ge; lia).
  assert (H2 : (0 <? - five) = false) by (apply Z.ltb_ge; lia).
  assert (H3 : (five <=? 0) = false) by (apply Z.leb_gt; lia).
  assert (H4 : (0 <=? - five) = false) by (apply Z.leb_gt; lia).
  assert (H5 : (0 =? five) = false) by (apply Z.eqb_neq; lia).
  assert (H6 : (0 =? - five) = false) by (apply Z.eqb_neq; lia).
  destruct mode; rewrite ?H1, ?H2, ?H3, ?H4, ?H5, ?H6; cbn;
    try reflexivity.
  destruct (negb _); reflexivity.
Qed.

(** ** [round]: UNNECESSARY *)

Lemma round_short x c :
  (BigNum.precision x <= MathContext.precision c)%nat -> BigNum.round x c = Ok x.
Proof.
  intros H. unfold BigNum.round.
  replace (MathContext.precision c <? BigNum.precision x)%nat with false
    by (symmetry; apply Nat.ltb_ge; exact H).
  reflexivity.
Qed.

(** X23. Where at most twenty-two digits are dropped, so that the divider
    is an exact power of ten, UNNECESSARY rounding of a number built from
    a plain literal fails exactly when the number is not exact at the
    precision asked for, and returns the same value when it is. *)
Lemma unnecessary_exact_in_range x p :
  Spec.well_formed x ->
  Z.of_nat (BigNum.precision x) - Z.of_nat p <= 22 ->
  let ctx := {| MathContext.precision := p; MathContext.rounding := UNNECESSARY |} in
  (BigNum.round x ctx = Throw RoundingNecessary <-> ~ Spec.exact_at x p)
  /\ (Spec.exact_at x p ->
      exists y, BigNum.round x ctx = Ok y
                /\ forall v, Spec.denotes x v p -> Spec.denotes y v p).
Proof.
  intros Hwf Hrange ctx.
  destruct (asBigInt_well_formed x Hwf) as (u & Hu & Hlast).
  destruct (le_lt_dec (BigNum.precision x) p) as [Hle | Hgt].
  - rewrite (round_short x ctx Hle).
    assert (Hex : Spec.exact_at x p).
    { exists (u * 10 ^ (Z.of_nat p - Z.of_nat (BigNum.precision x))), u.
      split; [exact Hu|].
      rewrite <- Z.mul_assoc, <- Z.pow_add_r by lia. do 2 f_equal. lia. }
    split; [split; [discriminate | tauto] | eauto].
  - set (diff := Z.of_nat (BigNum.precision x) - Z.of_nat p) in *.
    assert (Hround : BigNum.round x ctx
                     = (r <- BigNum.round_switch UNNECESSARY
                               (Z.quot u (10 ^ diff)) (Z.rem u (10 ^ diff))
                               (5 * 10 ^ (diff - 1)) ;;
                        BigNum.place_point (BigInt_toString r) p)).
    { unfold BigNum.round. cbn [MathContext.precision MathContext.rounding ctx].
      replace (p <? BigNum.precision x)%nat with true
        by (symmetry; apply Nat.ltb_lt; exact Hgt).
      fold diff. rewrite Hu, BigInt_pow10_small, BigInt_5pow10_small by lia.
      reflexivity. }
    assert (Hpow : 10 ^ Z.of_nat (BigNum.precision x)
                   = 10 ^ diff * 10 ^ Z.of_nat p).
    { rewrite <- Z.pow_add_r by lia. f_equal. lia. }
    assert (Hpos : 0 < 10 ^ diff) by (apply Z.pow_pos_nonneg; lia).
    assert (Hpp : 0 < 10 ^ Z.of_nat p) by (apply Z.pow_pos_nonneg; lia).
    assert (Hexact : Spec.exact_at x p <-> Z.rem u (10 ^ diff) = 0).
    { split.
      - intros (v & u' & Hu' & He). rewrite Hu in Hu'. injection Hu' as <-.
        rewrite Hpow, Z.mul_assoc in He.
        apply Z.mul_cancel_r in He; [|lia]. rewrite He. apply Z.rem_mul. lia.
      - intros Hl. pose proof (Z.quot_rem' u (10 ^ diff)) as Hq.
        rewrite Hl, Z.add_0_r in Hq.
        exists (Z.quot u (10 ^ diff)), u. split; [exact Hu|].
        rewrite Hpow. rewrite Hq at 1. ring. }
    rewrite Hround. cbn [BigNum.round_switch].
    destruct (Z.eq_dec (Z.rem u (10 ^ diff)) 0) as [Hl | Hl].
    + rewrite Hl. cbn [Z.ltb Z.compare orb bind].
      assert (Hten : u mod 10 = 0).
      { apply Z.rem_mod_eq_0; [lia|].
        pose proof (Z.quot_rem' u (10 ^ diff)) as Hq.
        rewrite Hl, Z.add_0_r in Hq. rewrite Hq.
        replace diff with (Z.succ (diff - 1)) by lia.
        rewrite Z.pow_succ_r, <- Z.mul_assoc, Z.mul_comm by lia.
        apply Z.rem_mul. lia. }
      assert (Hp0 : p = O).
      { specialize (Hlast Hten). unfold BigNum.precision in Hgt.
        rewrite Hlast in Hgt. cbn in Hgt. lia. }
      subst p.
      destruct (place_point_integer (Z.quot u (10 ^ diff)))
        as (y & Hy & Hd).
      rewrite Hy. split.
      * split; [discriminate|]. intros Hn. exfalso. apply Hn, Hexact, Hl.
      * intros _. exists y. split; [reflexivity|].
        intros v (u' & Hu' & He). rewrite Hu in Hu'. injection Hu' as <-.
        replace v with (Z.quot u (10 ^ diff)); [exact Hd|].
        pose proof (Z.quot_rem' u (10 ^ diff)) as Hq.
        rewrite Hl, Z.add_0_r in Hq.
        rewrite Hpow in He. change (10 ^ Z.of_nat 0) with 1 in He.
        rewrite !Z.mul_1_r in He. rewrite He in Hq at 1.
        rewrite Z.mul_comm in Hq. apply Z.mul_cancel_l in Hq; lia.
    + replace ((0 <? Z.rem u (10 ^ diff)) || (Z.rem u (10 ^ diff) <? 0))
        with true.
      * cbn [bind]. split; [split; [intros _ | reflexivity] | ].
        -- intros Hn. apply Hl, Hexact, Hn.
        -- intros Hn. exfalso. apply Hl, Hexact, Hn.
      * symmetry. apply orb_true_iff.
        destruct (Z_lt_le_dec 0 (Z.rem u (10 ^ diff))).
        -- left. apply Z.ltb_lt. assumption.
        -- right. apply Z.ltb_lt. lia.
Qed.

(** C6. With thirty fractional digits the divider [Math.pow(10, 30)] is
    the binary64 number 1000000000000000019884624838656; the number with
    exactly that unscaled integer leaves no remainder, so UNNECESSARY
    rounding to an integer returns 1 although the number is not an
    integer. *)
Theorem unnecessary_misses_inexact :
  exists x,
    BigNum.new (js "1.000000000000000019884624838656") = Ok x
    /\ ~ Spec.exact_at x 0
    /\ BigNum.round x {| MathContext.precision := 0; MathContext.rounding := UNNECESSARY |}
       = BigNum.new (js "1").
Proof.
  eexists. split; [vm_compute; reflexivity|].
  split; [|vm_compute; reflexivity].
  intros (v & u & Hu & He). vm_compute in Hu. injection Hu as <-.
  cbn [BigNum.precision BigNum.decimal] in He.
  apply (f_equal (fun t => t mod 10 ^ 30)) in He.
  change (Z.of_nat (List.length (js "000000000000000019884624838656")))
    with 30 in He.
  rewrite Z_mod_mult in He. vm_compute in He. discriminate He.
Qed.

(** ** [round]: rounding twice *)

(** A printed integer to which the constructor appends the fraction "0". *)
Lemma asBigInt_integral z :
  let r := BigInt_toString z in
  BigNum.asBigInt {| BigNum.integer :=
                       BigNum.or_zero (skipn (BigNum.first_nonzero r) r);
                     BigNum.decimal := js "0" |} = Ok (z * 10).
Proof.
  intros r. unfold BigNum.asBigInt, BigInt_of_string.
  cbn [BigNum.integer BigNum.decimal]. subst r. unfold BigInt_toString.
  destruct (z <? 0) eqn:E.
  - apply Z.ltb_lt in E.
    destruct (digits_of_spec (- z)) as (Hn & Hne & Hv & _); [lia|].
    cbn [BigNum.first_nonzero skipn BigNum.or_zero app].
    rewrite StringToBigInt_minus.
    + rewrite value_app, Hv.
      replace (value (js "0")) with 0 by reflexivity.
      replace (len (js "0")) with 1 by reflexivity.
      f_equal. f_equal. lia.
    + rewrite numeral_app, Hn. reflexivity.
    + intros C; apply app_eq_nil in C as [C _]; congruence.
  - apply Z.ltb_ge in E. destruct (Z.eq_dec z 0) as [-> | Hz].
    + reflexivity.
    + destruct (digits_of_spec z) as (Hn & Hne & Hv & Hlead); [lia|].
      rewrite Hlead by lia. cbn [skipn].
      destruct (digits_of z) as [|c ds] eqn:Ed; [congruence|].
      cbn [BigNum.or_zero]. rewrite StringToBigInt_numeral.
      * rewrite value_app, Hv.
        replace (value (js "0")) with 0 by reflexivity.
        replace (len (js "0")) with 1 by reflexivity.
        f_equal. lia.
      * rewrite numeral_app, Hn. reflexivity.
      * discriminate.
Qed.

Lemma round_after_place_point z p mode y :
  BigNum.place_point (BigInt_toString z) p = Ok y ->
  BigNum.round y {| MathContext.precision := p; MathContext.rounding := mode |} = Ok y.
Proof.
  intros H. pose proof H as H0.
  rewrite (place_point_eq _ p (toString_no_point z)) in H.
  destruct p as [|p].
  - set (r := BigInt_toString z) in *.
    assert (Ey : y = {| BigNum.integer :=
                          BigNum.or_zero (skipn (BigNum.first_nonzero r) r);
                        BigNum.decimal := js "0" |}).
    { injection H as <-. rewrite Nat.sub_0_r, skipn_all, firstn_all.
      reflexivity. }
    unfold BigNum.round. rewrite <- H0.
    assert (Hd : BigNum.precision y = 1%nat) by (rewrite Ey; reflexivity).
    rewrite Hd. cbn [MathContext.precision MathContext.rounding]. rewrite Ey at 1.
    unfold r at 1 2. rewrite asBigInt_integral.
    replace (0 <? 1)%nat with true by reflexivity.
    replace (Z.of_nat 1 - Z.of_nat 0) with 1 by reflexivity.
    replace (1 - 1) with 0 by reflexivity.
    rewrite BigInt_pow10_small, BigInt_5pow10_small by lia. cbn [bind].
    replace (10 ^ 1) with 10 by reflexivity.
    rewrite Z.quot_mul, Z.rem_mul by lia.
    rewrite round_switch_exact by lia. reflexivity.
  - injection H as <-. unfold BigNum.round.
    cbn [MathContext.precision MathContext.rounding BigNum.precision BigNum.decimal].
    match goal with |- (if (?a <? ?b)%nat then _ else _) = _ =>
      replace (a <? b)%nat with false; [reflexivity|] end.
    symmetry; apply Nat.ltb_ge.
    set (r := BigInt_toString z).
    set (v := skipn (List.length r - S p) r).
    assert (Hv : (List.length v <= S p)%nat)
      by (unfold v; rewrite length_skipn; lia).
    pose proof (length_or_zero
                  (firstn (BigNum.after_last_nonzero v) v) (S p)) as Hl.
    assert (Hf : (List.length (firstn (BigNum.after_last_nonzero v) v)
                  <= List.length v)%nat) by (rewrite length_firstn; lia).
    unfold BigNum.precision; cbn [BigNum.decimal]. lia.
Qed.

(** C10. Rounding is idempotent: rounding the result of [round] again
    with the same context changes nothing (and a failure stays the same
    failure); a number that stores at most [precision] fractional digits
    is returned as it is. *)
Theorem round_idempotent :
  (forall x c, (y <- BigNum.round x c ;; BigNum.round y c)
               = BigNum.round x c)
  /\ (forall x c, (BigNum.precision x <= MathContext.precision c)%nat ->
                  BigNum.round x c = Ok x).
Proof.
  split; [|exact round_short].
  intros x c. destruct (le_lt_dec (BigNum.precision x) (MathContext.precision c)) as [H|H].
  - rewrite (round_short x c H). cbn [bind]. apply round_short, H.
  - destruct (BigNum.round x c) as [y|e] eqn:E; [|reflexivity].
    cbn [bind]. unfold BigNum.round in E.
    replace (MathContext.precision c <? BigNum.precision x)%nat with true in E
      by (symmetry; apply Nat.ltb_lt; exact H).
    destruct (BigNum.asBigInt x) as [num|]; [|discriminate E].
    cbn [bind] in E.
    destruct (BigInt_pow10 _) as [divider|]; [|discriminate E].
    cbn [bind] in E.
    destruct (BigInt_5pow10 _) as [five|]; [|discriminate E].
    cbn [bind] in E.
    destruct (BigNum.round_switch _ _ _ _) as [z|]; [|discriminate E].
    cbn [bind] in E. destruct c as [p mode].
    apply round_after_place_point with (z := z). exact E.
Qed.

(** The number 2.5 under a context of three digits: it stores one
    fractional digit and is returned as it is. *)
Lemma round_idempotent_witness :
  (BigNum.precision {| BigNum.integer := js "2"; BigNum.decimal := js "5" |}
   <= MathContext.precision {| MathContext.precision := 3; MathContext.rounding := HALF_EVEN |})%nat
  /\ BigNum.round {| BigNum.integer := js "2"; BigNum.decimal := js "5" |}
       {| MathContext.precision := 3; MathContext.rounding := HALF_EVEN |}
     = Ok {| BigNum.integer := js "2"; BigNum.decimal := js "5" |}.
Proof.
  split; [cbn; lia|].
  apply (proj2 round_idempotent). cbn; lia.
Defined.

(** ** The literal parser *)

Lemma is_digit_in_valids c : Spec.is_digit c = Parser.in_valids c.
Proof. destruct c as [[] [] [] [] [] [] [] []]; reflexivity. Qed.

Lemma in_valids_plain c :
  Parser.in_valids c = true ->
  Ascii.eqb c "e" = false /\ Ascii.eqb c "." = false
  /\ Ascii.eqb c "+" = false /\ Ascii.eqb c "-" = false.
Proof.
  destruct c as [[] [] [] [] [] [] [] []]; intros H; vm_compute in H;
    try discriminate H; repeat split.
Qed.

Lemma isInteger_unsigned c w positive :
  Ascii.eqb c "+" = false -> Ascii.eqb c "-" = false ->
  Parser.isInteger (c :: w) positive = forallb Parser.in_valids (c :: w).
Proof.
  destruct c as [[] [] [] [] [] [] [] []]; intros H1 H2;
    try reflexivity; discriminate.
Qed.

Lemma isInteger_plain x positive :
  Parser.isInteger x positive = true ->
  no_exp x = true /\ no_point x = true.
Proof.
  assert (Hall : forall w, forallb Parser.in_valids w = true ->
                           no_exp w = true /\ no_point w = true).
  { induction w as [|c w IH]; intros H; [split; reflexivity|].
    simpl in H; apply andb_true_iff in H as [Hc Hw].
    destruct (in_valids_plain c Hc) as (He & Hp & _).
    destruct (IH Hw) as [IH1 IH2].
    cbn [no_exp no_point forallb]. rewrite He, Hp. auto. }
  destruct x as [|c w]; [split; reflexivity|].
  destruct (Ascii.eqb c "+") eqn:E1.
  { apply Ascii.eqb_eq in E1; subst c. unfold Parser.isInteger.
    intros H. destruct (Hall w H). split; assumption. }
  destruct (Ascii.eqb c "-") eqn:E2.
  { apply Ascii.eqb_eq in E2; subst c. unfold Parser.isInteger.
    destruct positive; intros H.
    - discriminate H.
    - destruct (Hall w H). split; assumption. }
  rewrite (isInteger_unsigned c w positive E1 E2). apply Hall.
Qed.

(** After a character that is neither the exponent marker nor the decimal
    point, only digits are in place. *)
Lemma stray_tail lenient w : forall p seen_e,
  Ascii.eqb p "e" = false -> Ascii.eqb p "." = false ->
  no_exp w = true -> seen_e = true \/ no_point w = true ->
  Spec.stray lenient (Some p) seen_e w
  = negb (forallb Parser.in_valids w).
Proof.
  induction w as [|c w IH]; intros p se Hpe Hpp He Hp; [reflexivity|].
  cbn [no_exp forallb] in He. apply andb_true_iff in He as [Hce He].
  apply negb_true_iff in Hce.
  assert (Hcp : Ascii.eqb c "." && negb se = false).
  { destruct Hp as [-> | Hp]; [apply andb_false_r|].
    cbn [no_point forallb] in Hp. apply andb_true_iff in Hp as [Hp _].
    apply negb_true_iff in Hp. rewrite Hp. reflexivity. }
  assert (Hp' : se = true \/ no_point w = true).
  { destruct Hp as [-> | Hp]; [left; reflexivity|].
    cbn [no_point forallb] in Hp. apply andb_true_iff in Hp as [_ Hp].
    right; exact Hp. }
  cbn [Spec.stray forallb]. unfold Spec.in_place.
  rewrite Hcp, Hce, Hpe, Hpp, is_digit_in_valids.
  rewrite !andb_false_r, !orb_false_r.
  destruct (Parser.in_valids c) eqn:Ec; [|reflexivity].
  destruct (in_valids_plain c Ec) as (_ & Hc2 & _).
  cbn [negb orb andb]. apply IH; auto.
Qed.

(** At the head of the literal or of the exponent, a sign is in place
    too: the check is [isInteger]. *)
Lemma stray_integer lenient prev seen_e w :
  match prev with None => true | Some p => Ascii.eqb p "e" end = true ->
  no_exp w = true -> seen_e = true \/ no_point w = true ->
  Spec.stray lenient prev seen_e w = negb (Parser.isInteger w false).
Proof.
  intros Hprev He Hp. destruct w as [|c w]; [reflexivity|].
  cbn [no_exp forallb] in He. apply andb_true_iff in He as [Hce He].
  apply negb_true_iff in Hce.
  assert (Hp' : seen_e = true \/ no_point w = true).
  { destruct Hp as [-> | Hp]; [left; reflexivity|].
    cbn [no_point forallb] in Hp. apply andb_true_iff in Hp as [_ Hp].
    right; exact Hp. }
  destruct (Ascii.eqb c "+") eqn:E1.
  { apply Ascii.eqb_eq in E1; subst c.
    cbn [Spec.stray]. unfold Spec.in_place at 1. rewrite Hprev.
    replace (Spec.is_sign "+") with true by reflexivity.
    rewrite andb_true_r, orb_true_r. cbn [orb negb].
    rewrite orb_false_r. apply stray_tail; auto. }
  destruct (Ascii.eqb c "-") eqn:E2.
  { apply Ascii.eqb_eq in E2; subst c.
    cbn [Spec.stray]. unfold Spec.in_place at 1. rewrite Hprev.
    replace (Spec.is_sign "-") with true by reflexivity.
    rewrite andb_true_r, orb_true_r. cbn [orb negb].
    rewrite orb_false_r. apply stray_tail; auto. }
  rewrite (isInteger_unsigned c w false E1 E2).
  assert (Hcp : Ascii.eqb c "." && negb seen_e = false).
  { destruct Hp as [-> | Hp]; [apply andb_false_r|].
    cbn [no_point forallb] in Hp. apply andb_true_iff in Hp as [Hp _].
    apply negb_true_iff in Hp. rewrite Hp. reflexivity. }
  cbn [Spec.stray forallb]. unfold Spec.in_place, Spec.is_sign.
  rewrite Hcp, Hce, E1, E2, is_digit_in_valids.
  rewrite !andb_false_r, !orb_false_r. cbn [andb orb].
  rewrite ?orb_false_r.
  destruct (Parser.in_valids c) eqn:Ec; [|reflexivity].
  destruct (in_valids_plain c Ec) as (_ & Hc2 & _).
  cbn [negb orb andb]. apply stray_tail; auto.
Qed.

(** Right after the decimal point the lenient reading lets a ['+'] pass:
    the check is [isInteger] with [positive] set. *)
Lemma stray_fraction w :
  no_exp w = true -> no_point w = true ->
  Spec.stray true (Some "."%char) false w
  = negb (Parser.isInteger w true).
Proof.
  intros He Hp. destruct w as [|c w]; [reflexivity|].
  cbn [no_exp forallb] in He. apply andb_true_iff in He as [Hce He].
  apply negb_true_iff in Hce.
  cbn [no_point forallb] in Hp. apply andb_true_iff in Hp as [Hcp Hp].
  apply negb_true_iff in Hcp.
  destruct (Ascii.eqb c "+") eqn:E1.
  { apply Ascii.eqb_eq in E1; subst c.
    cbn [Spec.stray]. unfold Spec.in_place at 1.
    cbn [Spec.is_digit Spec.is_sign existsb js list_ascii_of_string
         Ascii.eqb Bool.eqb andb orb negb].
    apply stray_tail; auto. }
  destruct (Ascii.eqb c "-") eqn:E2.
  { apply Ascii.eqb_eq in E2; subst c. reflexivity. }
  rewrite (isInteger_unsigned c w true E1 E2).
  cbn [Spec.stray forallb]. unfold Spec.in_place, Spec.is_sign.
  rewrite Hcp, Hce, E1, E2, is_digit_in_valids.
  cbn [andb orb negb]. rewrite ?orb_false_r.
  destruct (Parser.in_valids c) eqn:Ec; [|reflexivity].
  cbn [negb orb andb]. apply stray_tail; auto.
Qed.

(** Scanning across a character that is in place whatever precedes it. *)
Lemma stray_through lenient c b a : forall prev seen_e,
  no_exp a = true ->
  (forall p, Spec.in_place lenient p seen_e c = true) ->
  Spec.stray lenient prev seen_e (a ++ c :: b)
  = Spec.stray lenient prev seen_e a
    || Spec.stray lenient (Some c) (seen_e || Ascii.eqb c "e") b.
Proof.
  induction a as [|x a IH]; intros prev se He Hc.
  - cbn [app Spec.stray]. rewrite Hc. reflexivity.
  - cbn [no_exp forallb] in He. apply andb_true_iff in He as [Hxe He].
    apply negb_true_iff in Hxe.
    cbn [app Spec.stray]. rewrite Hxe, orb_false_r.
    rewrite (IH (Some x) se He Hc). apply orb_assoc.
Qed.

Lemma indexOf_none c s :
  indexOf c s = None -> forallb (fun x => negb (Ascii.eqb x c)) s = true.
Proof.
  induction s as [|x s IH]; [reflexivity|].
  cbn [indexOf forallb]. destruct (Ascii.eqb x c); [discriminate|].
  destruct (indexOf c s); [discriminate|]. intros _. apply IH. reflexivity.
Qed.

Lemma indexOf_some c s : forall i,
  indexOf c s = Some i ->
  s = firstn i s ++ c :: skipn (S i) s
  /\ forallb (fun x => negb (Ascii.eqb x c)) (firstn i s) = true
  /\ (i < List.length s)%nat.
Proof.
  induction s as [|x s IH]; intros i H; [discriminate H|].
  cbn [indexOf] in H. destruct (Ascii.eqb x c) eqn:E.
  - injection H as <-. apply Ascii.eqb_eq in E; subst x.
    cbn. repeat split. lia.
  - destruct (indexOf c s) as [j|]; [|discriminate H].
    injection H as <-. destruct (IH j eq_refl) as (H1 & H2 & H3).
    cbn [firstn skipn app forallb List.length]. rewrite E, H2.
    repeat split; [|lia]. f_equal. exact H1.
Qed.

Lemma split_on_char a b :
  no_point a = true ->
  split_on "." (a ++ "."%char :: b) = (a, split "." b).
Proof.
  intros Ha. induction a as [|x a IH].
  - cbn [app split_on]. unfold split.
    destruct (split_on "." b) as [p ps]. reflexivity.
  - cbn [no_point forallb] in Ha. apply andb_true_iff in Ha as [Hx Ha].
    apply negb_true_iff in Hx. cbn [app split_on].
    rewrite (IH Ha), Hx. reflexivity.
Qed.

Lemma count_lacks c s :
  forallb (fun x => negb (Ascii.eqb x c)) s = true -> Spec.count c s = O.
Proof.
  unfold Spec.count. induction s as [|x s IH]; [reflexivity|].
  cbn [forallb]. intros H. apply andb_true_iff in H as [Hx Hs].
  apply negb_true_iff, Ascii.eqb_neq in Hx.
  rewrite count_occ_cons_neq by exact Hx. apply IH, Hs.
Qed.

Lemma count_around c a b :
  Spec.count c (a ++ c :: b) = S (Spec.count c a + Spec.count c b).
Proof.
  unfold Spec.count. rewrite count_occ_app, count_occ_cons_eq by reflexivity.
  lia.
Qed.

Lemma count_other c x a b :
  x <> c ->
  Spec.count c (a ++ x :: b) = (Spec.count c a + Spec.count c b)%nat.
Proof.
  intros H. unfold Spec.count.
  rewrite count_occ_app, count_occ_cons_neq by exact H. reflexivity.
Qed.

Lemma no_exp_app a b : no_exp (a ++ b) = no_exp a && no_exp b.
Proof. apply forallb_app. Qed.

Lemma split_nonempty b : exists p ps, split "." b = p :: ps.
Proof. unfold split. destruct (split_on "." b) as [p ps]. eauto. Qed.

Lemma isDecimal_spec m :
  no_exp m = true ->
  Parser.isDecimal m
  = negb ((1 <? Spec.count "." m)%nat || Spec.stray true None false m).
Proof.
  intros He. destruct (indexOf "." m) as [i|] eqn:E.
  - destruct (indexOf_some _ _ _ E) as (Hm & Ha & _).
    revert Hm Ha. generalize (firstn i m) (skipn (S i) m).
    intros a b -> Ha. clear E i.
    rewrite no_exp_app in He. apply andb_true_iff in He as [Hea Heb].
    cbn [no_exp forallb] in Heb. apply andb_true_iff in Heb as [_ Heb].
    unfold Parser.isDecimal. unfold split at 1.
    rewrite (split_on_char a b Ha).
    destruct (indexOf "." b) as [j|] eqn:E.
    + destruct (indexOf_some _ _ _ E) as (Hb & Hb1 & _).
      revert Hb Hb1. generalize (firstn j b) (skipn (S j) b).
      intros b1 b2 -> Hb1. clear E j.
      unfold split at 1. rewrite (split_on_char b1 b2 Hb1).
      destruct (split_nonempty b2) as (p & ps & ->).
      rewrite !count_around.
      replace (1 <? _)%nat with true by (symmetry; apply Nat.ltb_lt; lia).
      reflexivity.
    + apply indexOf_none in E. unfold split.
      rewrite (split_on_no_point b E).
      rewrite count_around, (count_lacks "." a Ha), (count_lacks "." b E).
      replace (1 <? S (0 + 0))%nat with false by reflexivity.
      rewrite (stray_through true "." b a None false Hea)
        by (intros p; reflexivity).
      rewrite (stray_integer true None false a eq_refl Hea (or_intror Ha)).
      cbn [Ascii.eqb Bool.eqb orb].
      rewrite (stray_fraction b Heb E).
      rewrite negb_orb, !negb_involutive. reflexivity.
  - apply indexOf_none in E. unfold Parser.isDecimal, split.
    rewrite (split_on_no_point m E), (count_lacks "." m E).
    replace (1 <? 0)%nat with false by reflexivity.
    rewrite (stray_integer true None false m eq_refl He (or_intror E)).
    cbn [orb]. rewrite negb_involutive. reflexivity.
Qed.

Lemma malformed_exponent m x :
  no_exp m = true ->
  negb (Spec.malformed true (m ++ "e"%char :: x))
  = Parser.isDecimal m && Parser.isInteger x false.
Proof.
  intros Hm. unfold Spec.malformed.
  rewrite count_other by discriminate.
  rewrite count_around, (count_lacks "e" m Hm).
  rewrite (stray_through true "e" x m None false Hm)
    by (intros p; reflexivity).
  cbn [Ascii.eqb Bool.eqb orb].
  destruct (Parser.isInteger x false) eqn:Ex.
  - destruct (isInteger_plain _ _ Ex) as [Hxe Hxp].
    rewrite (count_lacks "." x Hxp), (count_lacks "e" x Hxe).
    rewrite (stray_integer true (Some "e"%char) true x eq_refl Hxe
               (or_introl eq_refl)), Ex.
    replace (1 <? S (0 + 0))%nat with false by reflexivity.
    rewrite Nat.add_0_r. cbn [negb]. rewrite !orb_false_r, andb_true_r.
    symmetry. apply isDecimal_spec, Hm.
  - rewrite andb_false_r. apply negb_false_iff.
    destruct (indexOf "e" x) as [j|] eqn:E.
    + destruct (indexOf_some _ _ _ E) as (Hx & _ & _).
      revert Hx. generalize (firstn j x) (skipn (S j) x).
      intros x1 x2 Hx. rewrite Hx, (count_around "e" x1 x2).
      match goal with |- context [(1 <? ?n)%nat] =>
        replace (1 <? n)%nat with true
          by (symmetry; apply Nat.ltb_lt; lia) end.
      apply orb_true_r.
    + apply indexOf_none in E.
      rewrite (stray_integer true (Some "e"%char) true x eq_refl E
                 (or_introl eq_refl)), Ex.
      cbn [negb]. rewrite !orb_true_r. reflexivity.
Qed.

Lemma isValid_spec s : Parser.isValid s = negb (Spec.malformed true s).
Proof.
  unfold Parser.isValid. destruct (indexOf "e" s) as [i|] eqn:E.
  - destruct (indexOf_some _ _ _ E) as (Hs & Hm & Hi).
    rewrite substring_prefix, substring_suffix.
    replace (Z.to_nat (Z.of_nat i)) with i by lia.
    replace (Z.to_nat (Z.of_nat i + 1)) with (S i) by lia.
    rewrite <- (malformed_exponent _ _ Hm). rewrite <- Hs. reflexivity.
  - apply indexOf_none in E. rewrite (isDecimal_spec s E).
    unfold Spec.malformed. rewrite (count_lacks "e" s E).
    replace (1 <? 0)%nat with false by reflexivity.
    rewrite orb_false_r. reflexivity.
Qed.

(** *** Numbers and the length of strings *)

Lemma binary64_range v w :
  0 <= v -> binary64_of_Z v = Some w ->
  (v < 2 ^ 53 /\ w = v) \/ (2 ^ 53 <= v /\ 2 ^ 53 <= w).
Proof.
  intros Hv. unfold binary64_of_Z.
  destruct (Z.log2 v + 1 <=? 53) eqn:E.
  - apply Z.leb_le in E. intros H. injection H as <-. left.
    split; [|reflexivity].
    destruct (Z.eq_dec v 0) as [-> | Hnz]; [reflexivity|].
    apply Z.log2_lt_pow2; lia.
  - apply Z.leb_gt in E. cbv zeta.
    set (sh := Z.log2 v + 1 - 53).
    set (q := Z.shiftr v sh).
    match goal with
    | |- context [Z.shiftl ?x sh <? _] => set (q' := x)
    end.
    destruct (Z.shiftl q' sh <? 2 ^ 1024); [|discriminate].
    intros H. injection H as <-. right.
    assert (Hsh : 1 <= sh) by (unfold sh; lia).
    assert (Hpos : 0 < v) by (destruct (Z.eq_dec v 0) as [-> | ?];
                              [cbn in E; lia | lia]).
    destruct (Z.log2_spec v Hpos) as [Hlo _].
    assert (Hp : 0 < 2 ^ sh) by (apply Z.pow_pos_nonneg; lia).
    assert (Hlog : 2 ^ Z.log2 v = 2 ^ 52 * 2 ^ sh).
    { rewrite <- Z.pow_add_r by lia. f_equal. unfold sh. lia. }
    assert (Hq : 2 ^ 52 <= q).
    { unfold q. rewrite Z.shiftr_div_pow2 by lia.
      apply Z.div_le_lower_bound; [exact Hp|]. lia. }
    assert (Hq' : q <= q') by (unfold q'; destruct (_ || _); lia).
    assert (H2 : 2 <= 2 ^ sh).
    { change 2 with (2 ^ 1) at 1. apply Z.pow_le_mono_r; lia. }
    split.
    + apply Z.le_trans with (2 ^ Z.log2 v); [|exact Hlo].
      rewrite Hlog. nia.
    + rewrite Z.shiftl_mul_pow2 by lia. nia.
Qed.

Lemma Number_of_Z_exact v :
  Z.abs v < 2 ^ 53 -> Number_of_Z v = Finite v.
Proof.
  intros H. unfold Number_of_Z.
  destruct (binary64_of_Z (Z.abs v)) as [w|] eqn:E.
  - destruct (binary64_range _ _ (Z.abs_nonneg v) E) as [[_ ->] | [H1 _]];
      [|lia].
    f_equal. destruct v; cbn; lia.
  - unfold binary64_of_Z in E.
    replace (Z.log2 (Z.abs v) + 1 <=? 53) with true in E;
      [discriminate E|].
    symmetry. apply Z.leb_le.
    destruct (Z.eq_dec (Z.abs v) 0) as [-> | Hnz]; [cbn; lia|].
    assert (Z.log2 (Z.abs v) < 53) by (apply Z.log2_lt_pow2; lia). lia.
Qed.

Lemma Number_of_Z_nonneg v :
  0 <= v -> number_ltb (Number_of_Z v) (Finite 0) = false.
Proof.
  intros H. unfold Number_of_Z.
  destruct (binary64_of_Z (Z.abs v)) as [w|] eqn:E.
  - cbn [number_ltb]. apply Z.ltb_ge.
    assert (Hw : 0 <= w).
    { destruct (binary64_range _ _ (Z.abs_nonneg v) E)
        as [[_ ->] | [_ Hw]]; [lia|].
      assert (0 < 2 ^ 53) by reflexivity. lia. }
    destruct (Z.eq_dec v 0) as [-> | Hnz]; [reflexivity|].
    rewrite Z.sgn_pos by lia. lia.
  - cbn [number_ltb]. apply Z.ltb_ge. exact H.
Qed.

(** From [2^53] on the nearest binary64 number is at least [2^53], or
    infinite. *)
Lemma Number_of_Z_large v :
  2 ^ 53 <= v ->
  (exists w, Number_of_Z v = Finite w /\ 2 ^ 53 <= w)
  \/ Number_of_Z v = Infinity false.
Proof.
  intros H. unfold Number_of_Z.
  assert (Hv : 0 < v) by (assert (0 < 2 ^ 53) by reflexivity; lia).
  replace (v <? 0) with false by (symmetry; apply Z.ltb_ge; lia).
  destruct (binary64_of_Z (Z.abs v)) as [w|] eqn:E; [|right; reflexivity].
  left. exists w.
  destruct (binary64_range _ _ (Z.abs_nonneg v) E) as [[H1 _] | [_ Hw]];
    [lia|].
  split; [|exact Hw]. rewrite Z.sgn_pos by lia. f_equal. lia.
Qed.

Lemma string_concat_ok a b :
  len a + len b <= max_string_length ->
  string_concat a b = Ok (a ++ b).
Proof.
  intros H. unfold string_concat.
  replace (max_string_length <? len a + len b) with false
    by (symmetry; apply Z.ltb_ge; exact H).
  reflexivity.
Qed.

Lemma string_concat_throws a b e :
  string_concat a b = Throw e -> e = RangeError.
Proof.
  unfold string_concat. destruct (_ <? _); [|discriminate].
  intros H. injection H as <-. reflexivity.
Qed.

Lemma padEnd_throws s n c e : padEnd s n c = Throw e -> e = RangeError.
Proof.
  unfold padEnd. cbv zeta. destruct (_ <=? _); [discriminate|].
  destruct (_ <? _); [|discriminate].
  intros H. injection H as <-. reflexivity.
Qed.

Lemma pad_throws s n front e :
  Parser.pad s n front = Throw e -> e = RangeError.
Proof.
  unfold Parser.pad. destruct (padEnd [] n "0") as [z|e'] eqn:E.
  - cbn [bind]. destruct front; apply string_concat_throws.
  - cbn [bind]. intros H. injection H as <-.
    exact (padEnd_throws _ _ _ _ E).
Qed.

Lemma pad_ok s k front :
  0 <= k -> k + len s <= max_string_length ->
  Parser.pad s (Finite k) front
  = Ok (if front then repeat "0"%char (Z.to_nat k) ++ s
        else s ++ repeat "0"%char (Z.to_nat k)).
Proof.
  intros Hk Hl.
  assert (Hs : 0 <= len s) by (unfold len; lia).
  assert (Hm : max_string_length < 2 ^ 53 - 1) by reflexivity.
  assert (Hz : padEnd [] (Finite k) "0" = Ok (repeat "0"%char (Z.to_nat k))).
  { unfold padEnd. cbv zeta.
    replace (Z.max 0 (Z.min k (2 ^ 53 - 1))) with k by lia.
    change (len []) with 0. rewrite Z.sub_0_r.
    destruct (k <=? 0) eqn:E.
    - apply Z.leb_le in E. replace k with 0 by lia. reflexivity.
    - replace (max_string_length <? k) with false
        by (symmetry; apply Z.ltb_ge; lia).
      reflexivity. }
  unfold Parser.pad. rewrite Hz. cbn [bind].
  assert (Hr : len (repeat "0"%char (Z.to_nat k)) = k)
    by (unfold len; rewrite repeat_length; lia).
  destruct front; apply string_concat_ok; rewrite Hr; lia.
Qed.

(** Padding beyond the limit throws, whatever the number is rounded
    to. *)
Lemma pad_too_long s n front :
  number_ltb (Finite max_string_length) n = true ->
  Parser.pad s n front = Throw RangeError.
Proof.
  intros H. unfold Parser.pad, padEnd. cbv zeta. change (len []) with 0.
  assert (Hm : 0 < max_string_length < 2 ^ 53 - 1) by (split; reflexivity).
  destruct n as [|[|]|v]; try discriminate H.
  - reflexivity.
  - cbn [number_ltb] in H. apply Z.ltb_lt in H.
    replace (Z.max 0 (Z.min v (2 ^ 53 - 1)) <=? 0) with false
      by (symmetry; apply Z.leb_gt; lia).
    replace (max_string_length <? Z.max 0 (Z.min v (2 ^ 53 - 1)))
      with true by (symmetry; apply Z.ltb_lt; lia).
    reflexivity.
Qed.

(** *** [decimate] and [parseNum]: what they throw *)

Lemma decimate_throws a index e :
  Parser.decimate a index = Throw e ->
  (e = NegativeIndex /\ number_ltb index (Finite 0) = true)
  \/ (e = RangeError /\ number_ltb index (Finite 0) = false).
Proof.
  unfold Parser.decimate.
  destruct (number_ltb index (Finite 0)).
  { intros H. injection H as <-. left. split; reflexivity. }
  intros H. right. split; [|reflexivity].
  destruct (match a with
            | "-"%char :: r => (js "-", r)
            | _ => ([], a)
            end) as [sgn s0].
  destruct (number_ltb (Finite (len s0)) index).
  - destruct (Parser.pad s0 _ true) as [padded|e1] eqn:E1; cbn [bind] in H.
    + destruct (string_concat (js "0.") padded) as [t|e2] eqn:E2;
        cbn [bind] in H.
      * exact (string_concat_throws _ _ _ H).
      * injection H as <-. exact (string_concat_throws _ _ _ E2).
    + injection H as <-. exact (pad_throws _ _ _ _ E1).
  - cbv zeta in H.
    destruct (string_concat (substring s0 0 _) (js ".")) as [f|e1] eqn:E1;
      cbn [bind] in H.
    + destruct (string_concat f _) as [t|e2] eqn:E2; cbn [bind] in H.
      * exact (string_concat_throws _ _ _ H).
      * injection H as <-. exact (string_concat_throws _ _ _ E2).
    + injection H as <-. exact (string_concat_throws _ _ _ E1).
Qed.

(** The index [parseNum] hands to [decimate] is never negative. *)
Lemma parseNum_index_not_negative p exponent :
  0 <= p -> number_ltb (Finite p) exponent = false ->
  number_ltb (number_sub (Finite p) exponent) (Finite 0) = false.
Proof.
  intros Hp H. destruct exponent as [|[|]|v]; try reflexivity.
  - discriminate H.
  - cbn [number_ltb] in H. apply Z.ltb_ge in H.
    cbn [number_sub]. apply Number_of_Z_nonneg. lia.
Qed.

(** Past the check, [parseNum] returns the two parts or runs into the
    limit on the length of strings. *)
Lemma parseNum_valid s :
  Parser.isValid s = true ->
  (exists parts, Parser.parseNum s = Ok parts)
  \/ Parser.parseNum s = Throw RangeError.
Proof.
  intros Hv. unfold Parser.parseNum. rewrite Hv. cbn [negb].
  assert (Hfin : forall a : list jsstring, exists parts,
            match a with
            | [x] => Ok (Parser.trimZeroes x Parser.pos_start "0", [])
            | x :: y :: _ =>
                Ok (Parser.trimZeroes x Parser.pos_start "0",
                    Parser.trimZeroes y Parser.pos_end "0")
            | [] => Ok ([], [])
            end = Ok parts).
  { intros [|x [|y l]]; eauto. }
  destruct (indexOf "e" s) as [i|]; [|left; cbn [bind]; apply Hfin].
  cbv zeta.
  match goal with
  | |- context [number_ltb (Finite ?p) ?x] =>
      set (precision := p); set (exponent := x)
  end.
  assert (Hp : 0 <= precision).
  { unfold precision. destruct (indexOf "." _); [unfold len|]; lia. }
  destruct (number_ltb (Finite precision) exponent) eqn:El.
  - match goal with
    | |- context [Parser.pad ?m ?n false] =>
        destruct (Parser.pad m n false) as [r|e] eqn:E
    end; cbn [bind].
    + left. apply Hfin.
    + right. rewrite (pad_throws _ _ _ _ E). reflexivity.
  - match goal with
    | |- context [Parser.decimate ?m ?n] =>
        destruct (Parser.decimate m n) as [r|e] eqn:E
    end; cbn [bind].
    + left. apply Hfin.
    + right. destruct (decimate_throws _ _ _ E) as [[_ Hneg] | [-> _]];
        [|reflexivity].
      rewrite (parseNum_index_not_negative _ _ Hp El) in Hneg.
      discriminate Hneg.
Qed.

(** C7. The literal "1.+5" has a plus sign behind the decimal point, a
    character that is no digit and leads neither the literal nor an
    exponent.  It has one decimal point and no exponent marker.  The
    parser accepts it and returns the parts "1" and "+5"; so does the
    constructor, and the number built has no unscaled integer:
    BigInt("1+5") throws a SyntaxError.  The check of the fractional part
    is [isInteger(parts[1], true)], which lets a leading plus sign
    pass. *)
Theorem parseNum_accepts_plus_after_point :
  nth 2 (js "1.+5") "0"%char = "+"%char
  /\ Spec.count "." (js "1.+5") = 1%nat
  /\ Spec.count "e" (js "1.+5") = 0%nat
  /\ Spec.malformed false (js "1.+5") = true
  /\ Parser.isValid (js "1.+5") = true
  /\ Parser.parseNum (js "1.+5") = Ok (js "1", js "+5")
  /\ BigNum.new (js "1.+5")
     = Ok {| BigNum.integer := js "1"; BigNum.decimal := js "+5" |}
  /\ BigNum.asBigInt {| BigNum.integer := js "1"; BigNum.decimal := js "+5" |}
     = Throw SyntaxError.
Proof. repeat split; vm_compute; reflexivity. Qed.

(** X25. [parseNum] throws its format error exactly on the literals that
    have more than one decimal point, more than one exponent marker, or a
    character out of place: one that is no digit, decimal point, exponent
    marker or sign; a decimal point behind the exponent marker; a sign
    that leads neither the literal nor the exponent, apart from a plus
    sign right behind the decimal point.  On every other literal it
    returns the two parts, or throws the RangeError of a string that
    would become too long. *)
Theorem parseNum_format_error s :
  (Parser.parseNum s = Throw IllegalNumberFormat
   <-> Spec.malformed true s = true)
  /\ (Spec.malformed true s = false
      -> (exists parts, Parser.parseNum s = Ok parts)
         \/ Parser.parseNum s = Throw RangeError).
Proof.
  pose proof (isValid_spec s) as Hv.
  destruct (Spec.malformed true s); cbn [negb] in Hv.
  - split; [|discriminate]. split; [reflexivity|]. intros _.
    unfold Parser.parseNum. rewrite Hv. reflexivity.
  - split; [|intros _; apply parseNum_valid, Hv].
    split; [|discriminate]. intros H.
    destruct (parseNum_valid s Hv) as [(parts & Hp) | Hp];
      rewrite Hp in H; discriminate H.
Qed.

(** The literal "4.001e1" of the tests is not malformed and is parsed. *)
Lemma parseNum_format_error_witness :
  Spec.malformed true (js "4.001e1") = false
  /\ ((exists parts, Parser.parseNum (js "4.001e1") = Ok parts)
      \/ Parser.parseNum (js "4.001e1") = Throw RangeError).
Proof.
  split; [reflexivity|].
  apply (proj2 (parseNum_format_error (js "4.001e1"))). reflexivity.
Defined.

(** ** The Cayley-Dickson product on basis elements *)

Section CayleyDickson.

Import Hyper.

Lemma neg_zeros d : neg (repeat 0 d) = repeat 0 d.
Proof. unfold neg. induction d; simpl; congruence. Qed.

Lemma conj_zeros d : conj (repeat 0 d) = repeat 0 d.
Proof.
  destruct d as [|d]; [reflexivity|].
  cbn [repeat conj]. f_equal. apply neg_zeros.
Qed.

Lemma add_zeros_r a : add a (repeat 0 (List.length a)) = a.
Proof.
  induction a as [|x a IH]; [reflexivity|].
  cbn [List.length repeat add]. rewrite IH. f_equal. lia.
Qed.

Lemma add_zeros_l a : add (repeat 0 (List.length a)) a = a.
Proof.
  induction a as [|x a IH]; [reflexivity|].
  cbn [List.length repeat add]. rewrite IH. reflexivity.
Qed.

Lemma sub_zeros_r a : sub a (repeat 0 (List.length a)) = a.
Proof. unfold sub. rewrite neg_zeros. apply add_zeros_r. Qed.

Lemma sub_zeros_l a : sub (repeat 0 (List.length a)) a = neg a.
Proof.
  unfold sub. rewrite <- (length_map Z.opp a). apply add_zeros_l.
Qed.

Lemma neg_add a : forall b, neg (add a b) = add (neg a) (neg b).
Proof.
  induction a as [|x a IH]; intros [|y b]; try reflexivity.
  cbn [add neg map]. fold (neg a) (neg b) (neg (add a b)).
  rewrite IH. f_equal. lia.
Qed.

Lemma neg_neg a : neg (neg a) = a.
Proof.
  unfold neg. rewrite map_map. rewrite <- (map_id a) at 2.
  apply map_ext. intros; lia.
Qed.

Lemma neg_app a b : neg (a ++ b) = neg a ++ neg b.
Proof. apply map_app. Qed.

Lemma neg_firstn k a : firstn k (neg a) = neg (firstn k a).
Proof. apply firstn_map. Qed.

Lemma neg_skipn k a : skipn k (neg a) = neg (skipn k a).
Proof. apply skipn_map. Qed.

Lemma conj_neg a : conj (neg a) = neg (conj a).
Proof. destruct a; reflexivity. Qed.

Lemma nth_neg a : nth 0 (neg a) 0 = - nth 0 a 0.
Proof. destruct a; reflexivity. Qed.

(** The product is odd in each factor. *)
Lemma mul_level_neg n : forall a b,
  mul_level n (neg a) b = neg (mul_level n a b)
  /\ mul_level n a (neg b) = neg (mul_level n a b).
Proof.
  induction n as [|n IH]; intros a b.
  - cbn [mul_level]. rewrite !nth_neg. cbn [neg map].
    split; f_equal; ring.
  - cbn [mul_level]. rewrite !neg_firstn, !neg_skipn, !conj_neg.
    set (h := (2 ^ n)%nat).
    split; rewrite neg_app; unfold sub; rewrite !neg_add; f_equal;
      repeat first [ rewrite (proj1 (IH _ _)) | rewrite (proj2 (IH _ _)) ];
      reflexivity.
Qed.

Lemma length_mul_level n a b :
  List.length (mul_level n a b) = (2 ^ n)%nat.
Proof.
  revert a b. induction n as [|n IH]; intros a b; [reflexivity|].
  cbn [mul_level]. unfold sub.
  assert (Hadd : forall x y : t, List.length x = List.length y ->
                                 List.length (add x y) = List.length x).
  { induction x as [|u x IHx]; intros [|v y] H; try discriminate H;
      [reflexivity|]. cbn [add List.length]. f_equal. apply IHx.
    injection H; auto. }
  rewrite length_app, !Hadd, !IH.
  - rewrite Nat.pow_succ_r'. lia.
  - rewrite !IH. reflexivity.
  - unfold neg. rewrite length_map, !IH. reflexivity.
Qed.

Lemma split_halves (a b : t) h :
  List.length a = h -> firstn h (a ++ b) = a /\ skipn h (a ++ b) = b.
Proof.
  intros <-. split.
  - rewrite firstn_app, Nat.sub_diag, firstn_all. cbn [firstn].
    apply app_nil_r.
  - rewrite skipn_app, Nat.sub_diag, skipn_all. reflexivity.
Qed.

(** Zero absorbs on either side. *)
Lemma mul_level_zeros n : forall x,
  mul_level n (repeat 0 (2 ^ n)) x = repeat 0 (2 ^ n)
  /\ mul_level n x (repeat 0 (2 ^ n)) = repeat 0 (2 ^ n).
Proof.
  induction n as [|n IH]; intros x.
  - cbn. split; f_equal; ring.
  - assert (Hz : repeat 0 (2 ^ S n) = repeat 0 (2 ^ n) ++ repeat 0 (2 ^ n)).
    { rewrite <- repeat_app. f_equal. rewrite Nat.pow_succ_r'. lia. }
    destruct (split_halves (repeat 0 (2 ^ n)) (repeat 0 (2 ^ n)) (2 ^ n)
                (repeat_length 0 (2 ^ n))) as [Hf Hs].
    rewrite <- Hz in Hf, Hs.
    assert (Hsub : sub (repeat 0 (2 ^ n)) (repeat 0 (2 ^ n)) = repeat 0 (2 ^ n)).
    { rewrite <- (repeat_length 0 (2 ^ n)) at 2. apply sub_zeros_r. }
    assert (Hadd : add (repeat 0 (2 ^ n)) (repeat 0 (2 ^ n)) = repeat 0 (2 ^ n)).
    { rewrite <- (repeat_length 0 (2 ^ n)) at 2. apply add_zeros_r. }
    split; cbn [mul_level]; rewrite Hf, Hs, ?conj_zeros;
      repeat first [ rewrite (proj1 (IH _)) | rewrite (proj2 (IH _)) ];
      rewrite Hsub, Hadd, Hz; reflexivity.
Qed.

Lemma unit_at_low h i :
  (i < h)%nat -> unit_at (h + h) i = unit_at h i ++ repeat 0 h.
Proof.
  intros H. unfold unit_at. rewrite <- app_assoc. cbn [app]. do 2 f_equal.
  rewrite <- repeat_app. f_equal. lia.
Qed.

Lemma unit_at_high h i :
  (h <= i)%nat -> (i < h + h)%nat ->
  unit_at (h + h) i = repeat 0 h ++ unit_at h (i - h).
Proof.
  intros H1 H2. unfold unit_at. rewrite app_assoc, <- repeat_app.
  replace (h + (i - h))%nat with i by lia.
  replace (h + h - S i)%nat with (h - S (i - h))%nat by lia. reflexivity.
Qed.

Lemma length_unit_at d i : (i < d)%nat -> List.length (unit_at d i) = d.
Proof.
  intros H. unfold unit_at.
  rewrite length_app, repeat_length. cbn [List.length].
  rewrite repeat_length. lia.
Qed.

Lemma conj_unit_at_zero d : conj (unit_at d 0) = unit_at d 0.
Proof. unfold unit_at. cbn [repeat app conj]. f_equal. apply neg_zeros. Qed.

Lemma conj_unit_at d i :
  (1 <= i)%nat -> conj (unit_at d i) = neg (unit_at d i).
Proof. intros H. destruct i as [|i]; [lia|]. reflexivity. Qed.

(** The unit of the algebra is idempotent. *)
Lemma mul_level_one n :
  mul_level n (unit_at (2 ^ n) 0) (unit_at (2 ^ n) 0) = unit_at (2 ^ n) 0.
Proof.
  induction n as [|n IH]; [reflexivity|].
  assert (Hpos : (0 < 2 ^ n)%nat) by (apply Nat.neq_0_lt_0, Nat.pow_nonzero; lia).
  replace (2 ^ S n)%nat with (2 ^ n + 2 ^ n)%nat
    by (rewrite Nat.pow_succ_r'; lia).
  rewrite (unit_at_low (2 ^ n) 0 Hpos). cbn [mul_level].
  destruct (split_halves (unit_at (2 ^ n) 0) (repeat 0 (2 ^ n)) (2 ^ n)
              (length_unit_at _ _ Hpos)) as [-> ->].
  rewrite conj_zeros, IH.
  repeat first [ rewrite (proj1 (mul_level_zeros n _))
               | rewrite (proj2 (mul_level_zeros n _)) ].
  f_equal.
  - rewrite <- (length_unit_at (2 ^ n) 0 Hpos) at 2. apply sub_zeros_r.
  - rewrite <- (repeat_length 0 (2 ^ n)) at 2. apply add_zeros_r.
Qed.

(** Every imaginary unit squares to minus the unit. *)
Lemma mul_level_unit_square n : forall i,
  (1 <= i)%nat -> (i < 2 ^ n)%nat ->
  mul_level n (unit_at (2 ^ n) i) (unit_at (2 ^ n) i)
  = neg (unit_at (2 ^ n) 0).
Proof.
  induction n as [|n IH]; intros i H1 H2; [cbn in H2; lia|].
  assert (Hpos : (0 < 2 ^ n)%nat) by (apply Nat.neq_0_lt_0, Nat.pow_nonzero; lia).
  assert (Hd : (2 ^ S n = 2 ^ n + 2 ^ n)%nat)
    by (rewrite Nat.pow_succ_r'; lia).
  rewrite Hd in *. set (h := (2 ^ n)%nat) in *.
  assert (Hz : List.length (repeat 0 h) = h) by apply repeat_length.
  assert (Hsub : sub (neg (unit_at h 0)) (repeat 0 h) = neg (unit_at h 0)).
  { rewrite <- (length_unit_at h 0 Hpos) at 2.
    rewrite <- (length_map Z.opp (unit_at h 0)). apply sub_zeros_r. }
  assert (Hadd : add (repeat 0 h) (repeat 0 h) = repeat 0 h).
  { rewrite <- Hz at 2. apply add_zeros_r. }
  rewrite (unit_at_low h 0 Hpos), neg_app, neg_zeros.
  destruct (le_lt_dec h i) as [Hhi | Hlo].
  - rewrite (unit_at_high h i Hhi H2). cbn [mul_level]. fold h.
    destruct (split_halves (repeat 0 h) (unit_at h (i - h)) h Hz) as [-> ->].
    rewrite conj_zeros.
    repeat first [ rewrite (proj1 (mul_level_zeros n _))
                 | rewrite (proj2 (mul_level_zeros n _)) ].
    fold h. rewrite Hadd. f_equal.
    assert (Hnorm : mul_level n (conj (unit_at h (i - h)))
                      (unit_at h (i - h)) = unit_at h 0).
    { destruct (Nat.eq_dec (i - h) 0) as [-> | Hj].
      - rewrite conj_unit_at_zero. apply mul_level_one.
      - rewrite conj_unit_at by lia.
        rewrite (proj1 (mul_level_neg n _ _)), IH by lia.
        apply neg_neg. }
    rewrite Hnorm. rewrite <- (length_unit_at h 0 Hpos) at 1.
    apply sub_zeros_l.
  - rewrite (unit_at_low h i Hlo). cbn [mul_level]. fold h.
    destruct (split_halves (unit_at h i) (repeat 0 h) h
                (length_unit_at _ _ Hlo)) as [-> ->].
    rewrite conj_zeros, IH by lia.
    repeat first [ rewrite (proj1 (mul_level_zeros n _))
                 | rewrite (proj2 (mul_level_zeros n _)) ].
    fold h. rewrite Hsub, Hadd. reflexivity.
Qed.

End CayleyDickson.

(** C9. In every dimension [2^n], the number with 1 in an imaginary slot
    [i] and 0 elsewhere, multiplied by itself, is -1 in the real slot and
    0 elsewhere, which is the real number -1. *)
Theorem basis_element_squares_to_minus_one n i :
  (1 <= i)%nat -> (i < 2 ^ n)%nat ->
  let e := Hyper.unit_at (2 ^ n) i in
  Hyper.mul e e = -1 :: repeat 0 (2 ^ n - 1)
  /\ Hyper.equal (Hyper.mul e e) (Hyper.real (-1)).
Proof.
  intros H1 H2 e.
  assert (Hmul : Hyper.mul e e = -1 :: repeat 0 (2 ^ n - 1)).
  { unfold Hyper.mul, Hyper.dim. subst e.
    rewrite (length_unit_at _ _ H2), Nat.max_id, Nat.log2_up_pow2 by lia.
    unfold Hyper.zero_extend.
    rewrite (length_unit_at _ _ H2), Nat.sub_diag. cbn [repeat].
    rewrite app_nil_r, (mul_level_unit_square n i H1 H2).
    unfold Hyper.unit_at. cbn [repeat app Hyper.neg map].
    f_equal. rewrite Nat.sub_1_r, <- Nat.sub_1_r. apply neg_zeros. }
  split; [exact Hmul|].
  unfold Hyper.equal, Hyper.dim, Hyper.real, Hyper.zero_extend.
  rewrite Hmul. cbn [List.length]. rewrite repeat_length.
  assert (Hpos : (0 < 2 ^ n)%nat)
    by (apply Nat.neq_0_lt_0, Nat.pow_nonzero; lia).
  replace (Nat.max (S (2 ^ n - 1)) 1) with (S (2 ^ n - 1)) by lia.
  rewrite Nat.sub_diag. cbn [repeat app]. rewrite app_nil_r.
  do 2 f_equal. lia.
Qed.

(** The slot 5 of an octonion-like number. *)
Lemma basis_element_squares_to_minus_one_witness :
  (1 <= 5)%nat /\ (5 < 2 ^ 3)%nat
  /\ Hyper.mul (Hyper.unit_at 8 5) (Hyper.unit_at 8 5)
     = [-1; 0; 0; 0; 0; 0; 0; 0]
  /\ Hyper.equal (Hyper.mul (Hyper.unit_at 8 5) (Hyper.unit_at 8 5))
                 (Hyper.real (-1)).
Proof.
  split; [lia|]. split; [cbn; lia|].
  apply (basis_element_squares_to_minus_one 3 5); cbn; lia.
Defined.

(* ================================================================== *)
(** * Further properties of the decimal class and of the parser *)

(** ** The constructor *)

Lemma split_on_parts s :
  List.length (snd (split_on "." s)) = Spec.count "." s
  /\ no_point (fst (split_on "." s)) = true
  /\ Forall (fun p => no_point p = true) (snd (split_on "." s)).
Proof.
  induction s as [|c s (IH1 & IH2 & IH3)]; [repeat split; constructor|].
  cbn [split_on]. destruct (split_on "." s) as [p ps]. cbn [fst snd] in *.
  unfold Spec.count in *. destruct (Ascii.eqb c ".") eqn:E.
  - apply Ascii.eqb_eq in E; subst c.
    rewrite count_occ_cons_eq by reflexivity. cbn [fst snd List.length].
    repeat split; [congruence | constructor; assumption].
  - pose proof E as E'. apply Ascii.eqb_neq in E'.
    rewrite count_occ_cons_neq by exact E'. cbn [fst snd no_point forallb].
    rewrite E. repeat split; assumption.
Qed.

(** What the constructor returns, whatever the string. *)
Lemma new_shape s x :
  BigNum.new s = Ok x ->
  no_point (BigNum.integer x) = true
  /\ no_point (BigNum.decimal x) = true
  /\ (BigNum.integer x = js "0"
      \/ (BigNum.integer x <> []
          /\ BigNum.first_nonzero (BigNum.integer x) = O))
  /\ (BigNum.decimal x = js "0"
      \/ (BigNum.decimal x <> []
          /\ BigNum.first_nonzero (rev (BigNum.decimal x)) = O)).
Proof.
  assert (Hint : forall i, no_point i = true ->
    let I := BigNum.or_zero (skipn (BigNum.first_nonzero i) i) in
    no_point I = true
    /\ (I = js "0" \/ (I <> [] /\ BigNum.first_nonzero I = O))).
  { intros i Hi I. subst I.
    pose proof (first_nonzero_skip i) as Hz.
    assert (Hn : no_point (skipn (BigNum.first_nonzero i) i) = true).
    { rewrite <- (firstn_skipn (BigNum.first_nonzero i) i) in Hi.
      unfold no_point in *. rewrite forallb_app in Hi.
      apply andb_true_iff in Hi; tauto. }
    destruct (skipn (BigNum.first_nonzero i) i) as [|c l].
    - split; [reflexivity | left; reflexivity].
    - split; [exact Hn | right; split; [discriminate | exact Hz]]. }
  assert (Hdec : forall d, no_point d = true ->
    let D := BigNum.or_zero (firstn (BigNum.after_last_nonzero d) d) in
    no_point D = true
    /\ (D = js "0" \/ (D <> [] /\ BigNum.first_nonzero (rev D) = O))).
  { intros d Hd D. subst D.
    assert (Hn : no_point (firstn (BigNum.after_last_nonzero d) d) = true).
    { rewrite <- (firstn_skipn (BigNum.after_last_nonzero d) d) in Hd.
      unfold no_point in *. rewrite forallb_app in Hd.
      apply andb_true_iff in Hd; tauto. }
    pose proof (kept_no_trailing_zero d) as Hk. cbv zeta in Hk.
    destruct (firstn (BigNum.after_last_nonzero d) d) as [|c l].
    - split; [reflexivity | left; reflexivity].
    - split; [exact Hn|]. destruct Hk as [Hk | Hk]; [left; exact Hk|].
      right. split; [discriminate | exact Hk]. }
  unfold BigNum.new, split.
  destruct (split_on_parts s) as (_ & Hp & Hps).
  destruct (split_on "." s) as [i ps]. cbn [fst snd] in *.
  destruct ps as [|d [|y l]]; intros H; try discriminate H;
    injection H as <-; cbn [BigNum.integer BigNum.decimal].
  - destruct (Hint i Hp) as [H1 H2].
    split; [exact H1|]. split; [reflexivity|]. split; [exact H2|].
    left; reflexivity.
  - destruct (Hint i Hp) as [H1 H2]. inversion Hps as [|? ? Hd _]; subst.
    destruct (Hdec d Hd) as [H3 H4]. auto.
Qed.

(** X1. The constructor fails, with the number format exception, exactly
    on the strings that hold more than one decimal point. *)
Theorem new_fails_on_two_points s :
  (BigNum.new s = Throw NumberFormat <-> (1 < Spec.count "." s)%nat)
  /\ ((Spec.count "." s <= 1)%nat -> exists x, BigNum.new s = Ok x).
Proof.
  unfold BigNum.new, split.
  destruct (split_on_parts s) as (Hlen & _ & _).
  destruct (split_on "." s) as [i ps]. cbn [snd] in Hlen. rewrite <- Hlen.
  destruct ps as [|d [|y l]]; cbn [List.length].
  - split; [split; [discriminate | lia] | eauto].
  - split; [split; [discriminate | lia] | eauto].
  - split; [split; [intros _; lia | reflexivity] | lia].
Qed.

Lemma new_fails_on_two_points_witness :
  (Spec.count "." (js "12.50") <= 1)%nat
  /\ exists x, BigNum.new (js "12.50") = Ok x.
Proof.
  split; [cbn; lia|].
  apply (proj2 (new_fails_on_two_points (js "12.50"))). cbn; lia.
Defined.

(** X2. Every number the constructor builds has a non-empty integer and
    fractional part without decimal point; the integer part is "0" or does
    not start with '0', and the fractional part is "0" or does not end in
    '0'. *)
Theorem new_normal_form s x :
  BigNum.new s = Ok x ->
  BigNum.integer x <> [] /\ BigNum.decimal x <> []
  /\ no_point (BigNum.integer x) = true
  /\ no_point (BigNum.decimal x) = true
  /\ (Spec.lone_zero (BigNum.integer x)
      || negb (Spec.starts_with_zero (BigNum.integer x))) = true
  /\ (Spec.lone_zero (BigNum.decimal x)
      || negb (Spec.starts_with_zero (rev (BigNum.decimal x)))) = true.
Proof.
  intros H. destruct (new_shape s x H) as (H1 & H2 & H3 & H4).
  assert (Hrev : forall l : jsstring, l <> [] -> rev l <> []).
  { intros l Hl C. apply (f_equal (@rev ascii)) in C.
    rewrite rev_involutive in C. exact (Hl C). }
  repeat split; try assumption.
  - destruct H3 as [-> | [H3 _]]; [discriminate | exact H3].
  - destruct H4 as [-> | [H4 _]]; [discriminate | exact H4].
  - destruct H3 as [-> | [H3 H3']]; [reflexivity|].
    rewrite (starts_with_zero_spec _ H3 H3'). apply orb_true_r.
  - destruct H4 as [-> | [H4 H4']]; [reflexivity|].
    rewrite (starts_with_zero_spec _ (Hrev _ H4) H4'). apply orb_true_r.
Qed.

Lemma new_normal_form_witness :
  BigNum.new (js "007.500")
  = Ok {| BigNum.integer := js "7"; BigNum.decimal := js "5" |}
  /\ js "7" <> [] /\ js "5" <> []
  /\ no_point (js "7") = true /\ no_point (js "5") = true
  /\ (Spec.lone_zero (js "7") || negb (Spec.starts_with_zero (js "7")))
     = true
  /\ (Spec.lone_zero (js "5")
      || negb (Spec.starts_with_zero (rev (js "5")))) = true.
Proof.
  split; [reflexivity|].
  apply (new_normal_form (js "007.500")
           {| BigNum.integer := js "7"; BigNum.decimal := js "5" |}).
  reflexivity.
Defined.

Lemma kept_all d :
  BigNum.first_nonzero (rev d) = O ->
  firstn (BigNum.after_last_nonzero d) d = d.
Proof.
  intros H. unfold BigNum.after_last_nonzero.
  rewrite H, Nat.sub_0_r. apply firstn_all.
Qed.

Lemma new_of_parts i d :
  no_point i = true -> no_point d = true ->
  (i = js "0" \/ (i <> [] /\ BigNum.first_nonzero i = O)) ->
  (d = js "0" \/ (d <> [] /\ BigNum.first_nonzero (rev d) = O)) ->
  BigNum.new (i ++ js "." ++ d)
  = Ok {| BigNum.integer := i; BigNum.decimal := d |}.
Proof.
  intros Hi Hd Hiz Hdz. unfold BigNum.new.
  rewrite (split_point i d Hi Hd). do 2 f_equal.
  - destruct Hiz as [-> | [Hne Hz]]; [reflexivity|].
    rewrite Hz. cbn [skipn]. destruct i; [congruence | reflexivity].
  - destruct Hdz as [-> | [Hne Hz]]; [reflexivity|].
    rewrite (kept_all d Hz). destruct d; [congruence | reflexivity].
Qed.

(** X3. Printing a number and constructing it again gives the same
    number. *)
Theorem new_toString s x :
  BigNum.new s = Ok x -> BigNum.new (BigNum.toString x) = Ok x.
Proof.
  intros H. destruct (new_shape s x H) as (H1 & H2 & H3 & H4).
  unfold BigNum.toString. rewrite (new_of_parts _ _ H1 H2 H3 H4).
  destruct x; reflexivity.
Qed.

Lemma new_toString_witness :
  BigNum.new (js "-12.340")
  = Ok {| BigNum.integer := js "-12"; BigNum.decimal := js "34" |}
  /\ BigNum.new (BigNum.toString
                   {| BigNum.integer := js "-12";
                      BigNum.decimal := js "34" |})
     = Ok {| BigNum.integer := js "-12"; BigNum.decimal := js "34" |}.
Proof.
  split; [reflexivity|].
  apply (new_toString (js "-12.340")). reflexivity.
Defined.

(** X4. The constructor keeps the value of a literal: from a sign, the
    digits [ip], a decimal point and the digits [fp], it builds the number
    [+-(ip fp) / 10^|fp|]. *)
Theorem new_keeps_value (minus : bool) ip fp :
  numeral ip = true -> numeral fp = true ->
  let sg := if minus then js "-" else [] in
  let v := (if minus then -1 else 1) * value (ip ++ fp) in
  exists x, BigNum.new (sg ++ ip ++ js "." ++ fp) = Ok x
            /\ Spec.denotes x v (List.length fp).
Proof.
  intros Hip Hfp sg v.
  set (D := BigNum.or_zero (firstn (BigNum.after_last_nonzero fp) fp)).
  assert (HD : numeral D = true) by apply numeral_kept, Hfp.
  assert (HDne : D <> []) by apply or_zero_nonempty.
  pose proof (kept_fraction fp) as Hk. cbv zeta in Hk. fold D in Hk.
  assert (Hsplit : split "." (sg ++ ip ++ js "." ++ fp) = [sg ++ ip; fp]).
  { rewrite app_assoc. apply split_point.
    - subst sg. destruct minus; cbn [app js list_ascii_of_string no_point
                                     forallb Ascii.eqb Bool.eqb negb andb];
        apply numeral_no_point, Hip.
    - apply numeral_no_point, Hfp. }
  unfold BigNum.new. rewrite Hsplit. eexists. split; [reflexivity|].
  unfold Spec.denotes, BigNum.asBigInt, BigNum.precision, BigInt_of_string.
  cbn [BigNum.integer BigNum.decimal]. fold D. fold (len D).
  assert (Hval : forall I, value I = value ip ->
            (value I * 10 ^ len D + value D) * 10 ^ Z.of_nat (List.length fp)
            = value (ip ++ fp) * 10 ^ len D).
  { intros I HI. rewrite value_app, HI. fold (len fp).
    rewrite !Z.mul_add_distr_r, Hk. ring. }
  subst sg v. destruct minus.
  - cbn [app js list_ascii_of_string BigNum.first_nonzero skipn
         BigNum.or_zero].
    rewrite StringToBigInt_minus.
    + eexists. split; [reflexivity|].
      rewrite value_app, Z.mul_opp_l, (Hval ip eq_refl). ring.
    + rewrite numeral_app, Hip, HD. reflexivity.
    + intros C. apply app_eq_nil in C as [_ C]. exact (HDne C).
  - cbn [app].
    set (I := BigNum.or_zero (skipn (BigNum.first_nonzero ip) ip)).
    assert (HI : numeral I = true)
      by apply numeral_or_zero, numeral_skipn, Hip.
    assert (HIv : value I = value ip)
      by (unfold I; rewrite value_or_zero; apply value_skip_zeros).
    rewrite StringToBigInt_numeral.
    + eexists. split; [reflexivity|].
      rewrite value_app, (Hval I HIv). ring.
    + rewrite numeral_app, HI, HD. reflexivity.
    + intros C. apply app_eq_nil in C as [_ C]. exact (HDne C).
Qed.

Lemma new_keeps_value_witness :
  numeral (js "012") = true /\ numeral (js "340") = true
  /\ exists x, BigNum.new (js "-012.340") = Ok x
               /\ Spec.denotes x (- 12340) 3.
Proof.
  split; [reflexivity|]. split; [reflexivity|].
  apply (new_keeps_value true (js "012") (js "340")); reflexivity.
Defined.

(** ** [sign] and [abs] *)

Lemma value_leading c l :
  numeral (c :: l) = true -> c <> "0"%char -> 0 < value (c :: l).
Proof.
  intros H Hc. cbn [numeral forallb] in H.
  apply andb_true_iff in H as [Hd Hl].
  destruct (digit_value_digit c Hd) as [_ Hr].
  assert (Z.of_N (N_of_ascii c) - 48 <> 0)
    by (intros E; apply Hc, (digit_zero c Hd E)).
  pose proof (value_bounds l Hl) as Hb.
  unfold value at 1. cbn [value_from]. rewrite value_from_shift.
  assert (0 < 10 ^ len l) by (apply Z.pow_pos_nonneg; unfold len; lia).
  nia.
Qed.

Lemma first_nonzero_zero_head c l :
  BigNum.first_nonzero (c :: l) = O -> c <> "0"%char.
Proof. intros H ->. discriminate H. Qed.

Lemma value_stripped l :
  numeral l = true -> l <> [] -> BigNum.first_nonzero l = O ->
  0 < value l.
Proof.
  intros H Hne Hz. destruct l as [|c l]; [congruence|].
  apply value_leading; [exact H | exact (first_nonzero_zero_head c l Hz)].
Qed.

Lemma value_kept_positive d :
  numeral d = true -> d <> [] -> BigNum.first_nonzero (rev d) = O ->
  0 < value d.
Proof.
  intros H Hne Hz. destruct (exists_last Hne) as (d0 & c & ->).
  rewrite rev_app_distr in Hz. cbn [rev app] in Hz.
  apply first_nonzero_zero_head in Hz.
  rewrite numeral_app in H. apply andb_true_iff in H as [H0 Hc].
  pose proof (value_leading c [] Hc Hz) as Hpos.
  pose proof (value_bounds d0 H0) as Hb.
  rewrite value_app. replace (len [c]) with 1 by reflexivity. lia.
Qed.

Lemma jsstring_eqb_neq a b : a <> b -> BigNum.jsstring_eqb a b = false.
Proof.
  unfold BigNum.jsstring_eqb. destruct (list_eq_dec _ a b); congruence.
Qed.

Lemma numeral_head_not_minus c l :
  numeral (c :: l) = true ->
  match c :: l with
  | "-"%char :: _ => -1
  | _ => 1
  end = 1.
Proof.
  intros H. cbn [numeral forallb] in H. apply andb_true_iff in H as [H _].
  apply digit_inv in H; simpl in H.
  repeat (destruct H as [<- | H]; [reflexivity|]). contradiction.
Qed.

Lemma new_keeps_value_parts (minus : bool) ip fp x u :
  numeral ip = true -> numeral fp = true ->
  BigNum.new ((if minus then js "-" else []) ++ ip ++ js "." ++ fp) = Ok x ->
  BigNum.asBigInt x = Ok u ->
  exists i,
    BigNum.integer x = (if minus then js "-" else []) ++ i
    /\ numeral i = true /\ numeral (BigNum.decimal x) = true
    /\ u = (if minus then -1 else 1) * value (i ++ BigNum.decimal x).
Proof.
  intros Hip Hfp Hnew Hu.
  assert (Hsplit : split "." ((if minus then js "-" else [])
                              ++ ip ++ js "." ++ fp)
                   = [(if minus then js "-" else []) ++ ip; fp]).
  { rewrite app_assoc. apply split_point.
    - destruct minus; cbn [app js list_ascii_of_string no_point
                           forallb Ascii.eqb Bool.eqb negb andb];
        apply numeral_no_point, Hip.
    - apply numeral_no_point, Hfp. }
  unfold BigNum.new in Hnew. rewrite Hsplit in Hnew. injection Hnew as <-.
  unfold BigNum.asBigInt, BigInt_of_string in Hu.
  cbn [BigNum.integer BigNum.decimal] in *.
  set (D := BigNum.or_zero (firstn (BigNum.after_last_nonzero fp) fp)) in *.
  assert (HD : numeral D = true) by apply numeral_kept, Hfp.
  assert (HDne : D <> []) by apply or_zero_nonempty.
  destruct minus.
  - cbn [app js list_ascii_of_string BigNum.first_nonzero skipn
         BigNum.or_zero] in *.
    exists ip. split; [reflexivity|]. split; [exact Hip|].
    split; [exact HD|].
    rewrite StringToBigInt_minus in Hu.
    + injection Hu as <-. ring.
    + rewrite numeral_app, Hip, HD. reflexivity.
    + intros C. apply app_eq_nil in C as [_ C]. exact (HDne C).
  - cbn [app] in *.
    set (I := BigNum.or_zero (skipn (BigNum.first_nonzero ip) ip)) in *.
    assert (HI : numeral I = true)
      by apply numeral_or_zero, numeral_skipn, Hip.
    exists I. split; [reflexivity|]. split; [exact HI|].
    split; [exact HD|].
    rewrite StringToBigInt_numeral in Hu.
    + injection Hu as <-. ring.
    + rewrite numeral_app, HI, HD. reflexivity.
    + intros C. apply app_eq_nil in C as [_ C]. exact (HDne C).
Qed.

(** X5. For a literal of digits with a decimal point, [sign] is the sign
    of the value; behind a minus sign it is [-1] whatever the digits, the
    sign of the value unless that is zero. *)
Theorem sign_of_literal (minus : bool) ip fp x u :
  numeral ip = true -> numeral fp = true ->
  BigNum.new ((if minus then js "-" else []) ++ ip ++ js "." ++ fp) = Ok x ->
  BigNum.asBigInt x = Ok u ->
  BigNum.sign x = (if minus then -1 else Z.sgn u)
  /\ (u <> 0 -> BigNum.sign x = Z.sgn u).
Proof.
  intros Hip Hfp Hnew Hu.
  destruct (new_shape _ _ Hnew) as (_ & _ & HI & HD).
  destruct (new_keeps_value_parts minus ip fp x u Hip Hfp Hnew Hu)
    as (i & Hint & Hni & Hnd & Hval).
  unfold BigNum.sign. destruct minus.
  - rewrite Hint in *. cbn [app js list_ascii_of_string] in *.
    rewrite jsstring_eqb_neq by discriminate. cbn [andb].
    split; [reflexivity|]. intros Hnz.
    pose proof (value_bounds _ Hnd). pose proof (value_bounds _ Hni).
    assert (0 <= value (i ++ BigNum.decimal x)).
    { rewrite value_app.
      assert (0 < 10 ^ len (BigNum.decimal x))
        by (apply Z.pow_pos_nonneg; unfold len; lia). nia. }
    rewrite Z.sgn_neg; [reflexivity | lia].
  - cbn [app] in *. rewrite Hint in *.
    assert (Hu' : u = value i * 10 ^ len (BigNum.decimal x)
                      + value (BigNum.decimal x))
      by (rewrite Hval, value_app; ring).
    pose proof (value_bounds _ Hnd) as Hb1.
    pose proof (value_bounds _ Hni) as Hb2.
    assert (Hp : 0 < 10 ^ len (BigNum.decimal x))
      by (apply Z.pow_pos_nonneg; unfold len; lia).
    assert (Hgoal : (if BigNum.jsstring_eqb i (js "0")
                        && BigNum.jsstring_eqb (BigNum.decimal x) (js "0")
                     then 0
                     else match i with
                          | "-"%char :: _ => -1
                          | _ => 1
                          end) = Z.sgn u).
    { destruct (list_eq_dec Ascii.ascii_dec i (js "0")) as [Ei | Ei];
        destruct (list_eq_dec Ascii.ascii_dec (BigNum.decimal x) (js "0"))
          as [Ed | Ed].
      - rewrite Ei, Ed in *. cbn. subst u. reflexivity.
      - rewrite (jsstring_eqb_neq _ _ Ed), andb_false_r.
        destruct HD as [HD | [HD1 HD2]]; [congruence|].
        pose proof (value_kept_positive _ Hnd HD1 HD2).
        destruct i as [|c l]; [rewrite Z.sgn_pos; [reflexivity | nia]|].
        rewrite (numeral_head_not_minus c l Hni).
        rewrite Z.sgn_pos; [reflexivity | nia].
      - rewrite (jsstring_eqb_neq _ _ Ei). cbn [andb].
        destruct HI as [HI | [HI1 HI2]]; [congruence|].
        pose proof (value_stripped _ Hni HI1 HI2).
        destruct i as [|c l]; [congruence|].
        rewrite (numeral_head_not_minus c l Hni).
        rewrite Z.sgn_pos; [reflexivity | nia].
      - rewrite (jsstring_eqb_neq _ _ Ei). cbn [andb].
        destruct HI as [HI | [HI1 HI2]]; [congruence|].
        pose proof (value_stripped _ Hni HI1 HI2).
        destruct i as [|c l]; [congruence|].
        rewrite (numeral_head_not_minus c l Hni).
        rewrite Z.sgn_pos; [reflexivity | nia]. }
    split; [exact Hgoal | intros _; exact Hgoal].
Qed.

Lemma sign_of_literal_witness :
  numeral (js "0") = true /\ numeral (js "50") = true
  /\ BigNum.new (js "-0.50")
     = Ok {| BigNum.integer := js "-0"; BigNum.decimal := js "5" |}
  /\ BigNum.asBigInt {| BigNum.integer := js "-0"; BigNum.decimal := js "5" |}
     = Ok (-5)
  /\ BigNum.sign {| BigNum.integer := js "-0"; BigNum.decimal := js "5" |}
     = -1
  /\ (-5 <> 0 ->
      BigNum.sign {| BigNum.integer := js "-0"; BigNum.decimal := js "5" |}
      = Z.sgn (-5)).
Proof.
  split; [reflexivity|]. split; [reflexivity|].
  split; [reflexivity|]. split; [reflexivity|].
  apply (sign_of_literal true (js "0") (js "50")
           {| BigNum.integer := js "-0"; BigNum.decimal := js "5" |} (-5));
    reflexivity.
Defined.

(** X6. The absolute value of a number built from a plain literal has the
    absolute value of its unscaled integer and the same number of
    fractional digits. *)
Theorem abs_of_literal s x u :
  Spec.plain_literal s = true ->
  BigNum.new s = Ok x ->
  BigNum.asBigInt x = Ok u ->
  exists y, BigNum.abs x = Ok y
            /\ BigNum.asBigInt y = Ok (Z.abs u)
            /\ BigNum.precision y = BigNum.precision x.
Proof.
  intros Hs Hnew Hu.
  destruct (new_well_formed s Hs) as (x' & Hnew' & Hwf).
  rewrite Hnew in Hnew'. injection Hnew' as <-.
  destruct Hwf as (sg & i & Hint & Hsg & Hni & Hne & HnD & HDne & Htr).
  set (D := BigNum.decimal x) in *.
  assert (Hnum : numeral (i ++ D) = true)
    by (rewrite numeral_app, Hni, HnD; reflexivity).
  assert (Hnil : i ++ D <> [])
    by (intros C; apply app_eq_nil in C as [_ C]; congruence).
  pose proof (value_bounds _ Hnum) as Hb.
  unfold BigNum.asBigInt, BigInt_of_string in Hu. fold D in Hu.
  rewrite Hint in Hu. unfold BigNum.abs. rewrite Hint. fold D.
  destruct Hsg as [-> | [-> | ->]]; cbn [app js list_ascii_of_string] in *.
  - rewrite (StringToBigInt_numeral _ Hnum Hnil) in Hu. injection Hu as <-.
    assert (Hi : i <> []) by (apply Hne; reflexivity).
    destruct i as [|c l]; [congruence|].
    exists x. split.
    { pose proof Hni as Hc. cbn [numeral forallb] in Hc.
      apply andb_true_iff in Hc as [Hc _].
      apply digit_inv in Hc; simpl in Hc.
      repeat (destruct Hc as [<- | Hc]; [reflexivity|]). contradiction. }
    split; [|reflexivity].
    unfold BigNum.asBigInt, BigInt_of_string. fold D. rewrite Hint.
    rewrite (StringToBigInt_numeral _ Hnum Hnil).
    rewrite Z.abs_eq by lia. reflexivity.
  - rewrite (StringToBigInt_minus _ Hnum Hnil) in Hu. injection Hu as <-.
    assert (HD' : D = js "0"
                  \/ (D <> [] /\ BigNum.first_nonzero (rev D) = O))
      by (destruct Htr; auto).
    assert (Hi' : let I := BigNum.or_zero
                             (skipn (BigNum.first_nonzero i) i) in
                  BigNum.new (i ++ js "." ++ D)
                  = Ok {| BigNum.integer := I; BigNum.decimal := D |}).
    { cbv zeta. unfold BigNum.new.
      rewrite (split_point i D (numeral_no_point _ Hni)
                 (numeral_no_point _ HnD)).
      do 2 f_equal. destruct HD' as [-> | [H1 H2]]; [reflexivity|].
      rewrite (kept_all D H2). destruct D; [congruence | reflexivity]. }
    cbv zeta in Hi'. eexists. split; [exact Hi'|].
    split; [|reflexivity].
    unfold BigNum.asBigInt, BigInt_of_string.
    cbn [BigNum.integer BigNum.decimal].
    set (I := BigNum.or_zero (skipn (BigNum.first_nonzero i) i)).
    assert (HI : numeral I = true)
      by apply numeral_or_zero, numeral_skipn, Hni.
    assert (HIv : value I = value i)
      by (unfold I; rewrite value_or_zero; apply value_skip_zeros).
    rewrite StringToBigInt_numeral.
    + f_equal. rewrite Z.abs_opp, Z.abs_eq by lia.
      rewrite !value_app, HIv. reflexivity.
    + rewrite numeral_app, HI, HnD. reflexivity.
    + intros C. apply app_eq_nil in C as [_ C]. congruence.
  - rewrite (StringToBigInt_plus _ Hnum Hnil) in Hu. injection Hu as <-.
    exists x. split; [reflexivity|]. split; [|reflexivity].
    unfold BigNum.asBigInt, BigInt_of_string. fold D. rewrite Hint.
    cbn [app js list_ascii_of_string].
    rewrite (StringToBigInt_plus _ Hnum Hnil).
    rewrite Z.abs_eq by lia. reflexivity.
Qed.

Lemma abs_of_literal_witness :
  Spec.plain_literal (js "-012.50") = true
  /\ BigNum.new (js "-012.50")
     = Ok {| BigNum.integer := js "-012"; BigNum.decimal := js "5" |}
  /\ BigNum.asBigInt
       {| BigNum.integer := js "-012"; BigNum.decimal := js "5" |}
     = Ok (-125)
  /\ exists y,
       BigNum.abs {| BigNum.integer := js "-012"; BigNum.decimal := js "5" |}
       = Ok y
       /\ BigNum.asBigInt y = Ok (Z.abs (-125))
       /\ BigNum.precision y = 1%nat.
Proof.
  split; [reflexivity|]. split; [reflexivity|]. split; [reflexivity|].
  apply (abs_of_literal (js "-012.50")
           {| BigNum.integer := js "-012"; BigNum.decimal := js "5" |}
           (-125)); reflexivity.
Defined.

(** ** Where the printed result is shorter than the fraction *)

(** A numeral without a leading zero is at least the power of ten of its
    length less one. *)
Lemma value_leading_bound ds :
  numeral ds = true -> ds <> [] -> BigNum.first_nonzero ds = O ->
  10 ^ len ds <= 10 * value ds.
Proof.
  intros H Hne Hz. destruct ds as [|c l]; [congruence|].
  apply first_nonzero_zero_head in Hz.
  cbn [numeral forallb] in H. apply andb_true_iff in H as [Hd Hl].
  destruct (digit_value_digit c Hd) as [_ Hr].
  assert (Z.of_N (N_of_ascii c) - 48 <> 0)
    by (intros E; apply Hz, (digit_zero c Hd E)).
  pose proof (value_bounds l Hl) as Hb.
  unfold value at 1. cbn [value_from]. rewrite value_from_shift.
  replace (len (c :: l)) with (Z.succ (len l))
    by (unfold len; cbn [List.length]; lia).
  rewrite Z.pow_succ_r by (unfold len; lia).
  assert (0 < 10 ^ len l) by (apply Z.pow_pos_nonneg; unfold len; lia).
  nia.
Qed.

(** The decimal point cannot land in front of the string: asking for more
    digits than there are gives what asking for all of them gives. *)
Lemma place_point_clamp r p :
  no_point r = true -> (List.length r <= p)%nat ->
  BigNum.place_point r p = BigNum.place_point r (List.length r).
Proof.
  intros Hr Hp. rewrite !(place_point_eq r _ Hr). cbv zeta.
  replace (List.length r - p)%nat with O by lia.
  rewrite Nat.sub_diag. reflexivity.
Qed.

Lemma denotes_two_scales y v p q :
  Spec.denotes y v p -> Spec.denotes y v q -> (p < q)%nat -> v = 0.
Proof.
  intros (u & Hu & Hp) (u' & Hu' & Hq) Hlt.
  rewrite Hu in Hu'. injection Hu' as <-.
  assert (Hpow : 10 ^ Z.of_nat p < 10 ^ Z.of_nat q)
    by (apply Z.pow_lt_mono_r; lia).
  assert (Hpos : 0 < 10 ^ Z.of_nat p) by (apply Z.pow_pos_nonneg; lia).
  assert (HP : 0 < 10 ^ Z.of_nat (BigNum.precision y))
    by (apply Z.pow_pos_nonneg; lia).
  assert (E : u * (10 ^ Z.of_nat q - 10 ^ Z.of_nat p) = 0) by lia.
  apply Z.mul_eq_0 in E as [E | E]; [|lia].
  subst u. rewrite Z.mul_0_l in Hp. symmetry in Hp.
  apply Z.mul_eq_0 in Hp as [Hp | Hp]; lia.
Qed.

Lemma denotes_zero y p q : Spec.denotes y 0 p -> Spec.denotes y 0 q.
Proof.
  intros (u & Hu & Hp). exists u. split; [exact Hu|].
  assert (Hpos : 0 < 10 ^ Z.of_nat p) by (apply Z.pow_pos_nonneg; lia).
  rewrite Z.mul_0_l in *. apply Z.mul_eq_0 in Hp as [-> | Hp]; lia.
Qed.

Lemma first_nonzero_before c s t :
  c <> "0"%char ->
  (BigNum.first_nonzero (s ++ c :: t) <= List.length s)%nat.
Proof.
  intros Hc. induction s as [|x s IH].
  - cbn [app]. rewrite first_nonzero_head by exact Hc. lia.
  - cbn [app List.length].
    destruct x as [[] [] [] [] [] [] [] []];
      cbn [BigNum.first_nonzero]; lia.
Qed.

(** A printed negative integer shorter than the fraction asked for: the
    minus sign lands behind the decimal point, and the result has no
    unscaled integer. *)
Lemma place_point_negative_narrow ds p :
  numeral ds = true -> ds <> [] -> (List.length ds < p)%nat ->
  exists w,
    numeral w = true
    /\ BigNum.place_point ("-"%char :: ds) p
       = Ok {| BigNum.integer := js "0";
               BigNum.decimal := "-"%char :: w |}
    /\ BigNum.asBigInt {| BigNum.integer := js "0";
                          BigNum.decimal := "-"%char :: w |}
       = Throw SyntaxError.
Proof.
  intros Hn Hne Hp.
  assert (Hnp : no_point ("-"%char :: ds) = true)
    by (cbn [no_point forallb]; apply (numeral_no_point ds Hn)).
  rewrite (place_point_clamp _ p Hnp) by (cbn [List.length]; lia).
  rewrite (place_point_eq _ _ Hnp). cbv zeta.
  rewrite Nat.sub_diag. cbn [firstn skipn BigNum.first_nonzero BigNum.or_zero].
  unfold BigNum.after_last_nonzero.
  pose proof (first_nonzero_before "-" (rev ds) [] ltac:(discriminate))
    as Hk.
  rewrite length_rev in Hk.
  change (rev ds ++ ["-"%char]) with (rev ("-"%char :: ds)) in Hk.
  cbn [List.length].
  set (z := BigNum.first_nonzero (rev ("-"%char :: ds))) in *.
  replace (S (List.length ds) - z)%nat with (S (List.length ds - z))
    by lia.
  cbn [firstn BigNum.or_zero].
  set (w := firstn (List.length ds - z) ds).
  assert (Hw : numeral w = true) by apply numeral_firstn, Hn.
  exists w. split; [exact Hw|]. split; [reflexivity|].
  unfold BigNum.asBigInt, BigInt_of_string.
  cbn [BigNum.integer BigNum.decimal app js list_ascii_of_string].
  assert (Htrim : trim ("0"%char :: "-"%char :: w)
                  = "0"%char :: "-"%char :: w).
  { destruct (rev ("0"%char :: "-"%char :: w)) as [|l r'] eqn:E.
    - apply (f_equal (@List.length ascii)) in E.
      rewrite length_rev in E. discriminate E.
    - apply (trim_fixed _ _ l r' E); [reflexivity|].
      destruct w as [|c w'] using rev_ind.
      + injection E as <- _. reflexivity.
      + change ("0"%char :: "-"%char :: w' ++ [c])
          with (("0"%char :: "-"%char :: w') ++ [c]) in E.
        rewrite rev_app_distr in E. injection E as <- _.
        rewrite numeral_app in Hw. apply andb_true_iff in Hw as [_ Hc].
        cbn [numeral forallb] in Hc. apply andb_true_iff in Hc as [Hc _].
        apply digit_not_white, Hc. }
  unfold StringToBigInt. rewrite Htrim. reflexivity.
Qed.

(** The idiom on a printed integer [S]: the result stands for [S] over
    [10^p] exactly when [S] is zero or prints with at least [p] digits. *)
Lemma place_point_toString S p :
  exists y, BigNum.place_point (BigInt_toString S) p = Ok y
            /\ (Spec.denotes y S p <-> (S = 0 \/ 10 ^ Z.of_nat p <= 10 * Z.abs S)).
Proof.
  assert (Hpp : 0 < 10 ^ Z.of_nat p) by (apply Z.pow_pos_nonneg; lia).
  assert (Hshort : forall ds, numeral ds = true -> 0 < value ds ->
            (List.length ds < p)%nat ->
            ~ 10 ^ Z.of_nat p <= 10 * value ds).
  { intros ds Hn Hv Hl. pose proof (value_bounds ds Hn) as Hb.
    assert (10 ^ Z.succ (len ds) <= 10 ^ Z.of_nat p)
      by (apply Z.pow_le_mono_r; unfold len; lia).
    rewrite Z.pow_succ_r in * by (unfold len; lia). lia. }
  assert (Hlong : forall ds, numeral ds = true -> ds <> [] ->
            BigNum.first_nonzero ds = O -> (p <= List.length ds)%nat ->
            10 ^ Z.of_nat p <= 10 * value ds).
  { intros ds Hn Hne Hz Hl.
    pose proof (value_leading_bound ds Hn Hne Hz).
    assert (10 ^ Z.of_nat p <= 10 ^ len ds)
      by (apply Z.pow_le_mono_r; unfold len; lia).
    lia. }
  unfold BigInt_toString. destruct (S <? 0) eqn:E.
  - apply Z.ltb_lt in E.
    destruct (digits_of_spec (- S)) as (Hn & Hne & Hv & Hz); [lia|].
    specialize (Hz ltac:(lia)).
    destruct (le_lt_dec p (List.length (digits_of (- S)))) as [Hl | Hl].
    + destruct (place_point_negative _ p Hn Hl Hne) as (y & Hy & Hden).
      exists y. split; [exact Hy|].
      rewrite Hv, Z.opp_involutive in Hden.
      split; [intros _; right | intros _; exact Hden].
      pose proof (Hlong _ Hn Hne Hz Hl). lia.
    + destruct (place_point_negative_narrow _ p Hn Hne Hl)
        as (w & Hw & Hy & Hbad).
      eexists. split; [exact Hy|]. split.
      * intros (u & Hu & _). rewrite Hbad in Hu. discriminate Hu.
      * intros [-> | Hwide]; [lia|]. exfalso.
        apply (Hshort _ Hn ltac:(lia) Hl). lia.
  - apply Z.ltb_ge in E.
    destruct (digits_of_spec S) as (Hn & Hne & Hv & Hz); [lia|].
    destruct (le_lt_dec p (List.length (digits_of S))) as [Hl | Hl].
    + destruct (place_point_numeral _ p Hn Hl) as (y & Hy & Hden).
      exists y. split; [exact Hy|]. rewrite Hv in Hden.
      split; [intros _ | intros _; exact Hden].
      destruct (Z.eq_dec S 0) as [-> | Hnz]; [left; reflexivity | right].
      pose proof (Hlong _ Hn Hne (Hz ltac:(lia)) Hl). lia.
    + rewrite (place_point_clamp _ p (numeral_no_point _ Hn))
        by lia.
      destruct (place_point_numeral _ _ Hn (Nat.le_refl _))
        as (y & Hy & Hden).
      exists y. split; [exact Hy|]. rewrite Hv in Hden. split.
      * intros Hd. left.
        exact (denotes_two_scales y S _ _ Hden Hd Hl).
      * intros [-> | Hwide]; [exact (denotes_zero y _ _ Hden)|].
        exfalso. apply (Hshort _ Hn ltac:(lia) Hl). lia.
Qed.

Lemma digits_short S p :
  0 < S -> 10 * S < 10 ^ Z.of_nat p -> (List.length (digits_of S) < p)%nat.
Proof.
  intros HS Hs.
  destruct (digits_of_spec S) as (Hn & Hne & Hv & Hz); [lia|].
  pose proof (value_leading_bound _ Hn Hne (Hz HS)) as Hb.
  rewrite Hv in Hb.
  destruct (le_lt_dec p (List.length (digits_of S))) as [Hl | Hl];
    [|exact Hl].
  assert (10 ^ Z.of_nat p <= 10 ^ len (digits_of S))
    by (apply Z.pow_le_mono_r; unfold len; lia).
  lia.
Qed.

Lemma place_point_toString_short S p :
  0 < S -> 10 * S < 10 ^ Z.of_nat p ->
  exists y, BigNum.place_point (BigInt_toString S) p = Ok y
            /\ BigNum.integer y = js "0"
            /\ Spec.denotes y S (List.length (digits_of S)).
Proof.
  intros HS Hs. pose proof (digits_short S p HS Hs) as Hl.
  destruct (digits_of_spec S) as (Hn & Hne & Hv & Hz); [lia|].
  unfold BigInt_toString.
  replace (S <? 0) with false by (symmetry; apply Z.ltb_ge; lia).
  rewrite (place_point_clamp _ p (numeral_no_point _ Hn)) by lia.
  destruct (place_point_numeral _ _ Hn (Nat.le_refl _)) as (y & Hy & Hden).
  exists y. split; [exact Hy|]. rewrite Hv in Hden.
  split; [|exact Hden].
  rewrite (place_point_eq _ _ (numeral_no_point _ Hn)) in Hy.
  cbv zeta in Hy. rewrite Nat.sub_diag in Hy. injection Hy as <-.
  reflexivity.
Qed.

Lemma place_point_toString_negative_short S p :
  S < 0 -> 10 * Z.abs S < 10 ^ Z.of_nat p ->
  exists w,
    numeral w = true
    /\ BigNum.place_point (BigInt_toString S) p
       = Ok {| BigNum.integer := js "0";
               BigNum.decimal := "-"%char :: w |}
    /\ BigNum.asBigInt {| BigNum.integer := js "0";
                          BigNum.decimal := "-"%char :: w |}
       = Throw SyntaxError.
Proof.
  intros HS Hs.
  assert (Hl : (List.length (digits_of (- S)) < p)%nat)
    by (apply digits_short; lia).
  destruct (digits_of_spec (- S)) as (Hn & Hne & _); [lia|].
  unfold BigInt_toString.
  replace (S <? 0) with true by (symmetry; apply Z.ltb_lt; lia).
  apply place_point_negative_narrow; assumption.
Qed.

(** The two operands brought to the longer fraction, as [add] and [sub]
    do with the padding. *)
Lemma aligned_operands (op : Z -> Z -> Z) A B pa pb :
  (forall x y k, op (x * 1) (y * k) = op x (y * k)) ->
  (forall x y k, op (x * k) (y * 1) = op (x * k) y) ->
  let d := Z.of_nat pa - Z.of_nat pb in
  let p := Nat.max pa pb in
  (if 0 <? d then op A (B * 10 ^ Z.abs d) else op (A * 10 ^ Z.abs d) B)
  = op (A * 10 ^ Z.of_nat (p - pa)) (B * 10 ^ Z.of_nat (p - pb)).
Proof.
  intros H1 H2 d p. unfold p, d. destruct (0 <? _) eqn:E.
  - apply Z.ltb_lt in E.
    replace (Nat.max pa pb - pa)%nat with O by lia.
    replace (Z.of_nat (Nat.max pa pb - pb))
      with (Z.abs (Z.of_nat pa - Z.of_nat pb)) by lia.
    change (10 ^ Z.of_nat 0) with 1. symmetry. apply H1.
  - apply Z.ltb_ge in E.
    replace (Nat.max pa pb - pb)%nat with O by lia.
    replace (Z.of_nat (Nat.max pa pb - pa))
      with (Z.abs (Z.of_nat pa - Z.of_nat pb)) by lia.
    change (10 ^ Z.of_nat 0) with 1. symmetry. apply H2.
Qed.

Lemma add_unfolded a b A B :
  BigNum.asBigInt a = Ok A ->
  BigNum.asBigInt b = Ok B ->
  let pa := BigNum.precision a in
  let pb := BigNum.precision b in
  let p := Nat.max pa pb in
  Z.abs (Z.of_nat pa - Z.of_nat pb) <= 22 ->
  BigNum.add a b
  = BigNum.place_point
      (BigInt_toString (A * 10 ^ Z.of_nat (p - pa)
                        + B * 10 ^ Z.of_nat (p - pb))) p.
Proof.
  intros Ha Hb pa pb p Hd. unfold BigNum.add. fold pa pb p.
  rewrite BigInt_pow10_small, Ha, Hb by lia. cbn [bind].
  rewrite (aligned_operands Z.add A B pa pb); [reflexivity | |];
    intros; rewrite Z.mul_1_r; reflexivity.
Qed.

Lemma sub_unfolded a b A B :
  BigNum.asBigInt a = Ok A ->
  BigNum.asBigInt b = Ok B ->
  let pa := BigNum.precision a in
  let pb := BigNum.precision b in
  let p := Nat.max pa pb in
  Z.abs (Z.of_nat pa - Z.of_nat pb) <= 22 ->
  BigNum.sub a b
  = BigNum.place_point
      (BigInt_toString (A * 10 ^ Z.of_nat (p - pa)
                        - B * 10 ^ Z.of_nat (p - pb))) p.
Proof.
  intros Ha Hb pa pb p Hd. unfold BigNum.sub. fold pa pb p.
  rewrite BigInt_pow10_small, Ha, Hb by lia. cbn [bind].
  rewrite (aligned_operands Z.sub A B pa pb); [reflexivity | |];
    intros; rewrite Z.mul_1_r; reflexivity.
Qed.

(** X7. For operands that have an unscaled integer and whose numbers of
    fractional digits differ by at most twenty-two, so that the padding
    is an exact power of ten, [add] returns a number, and that number is
    the sum exactly when the sum is zero or prints with at least as many
    digits as the longer fraction. *)
Theorem add_exact_iff a b A B :
  BigNum.asBigInt a = Ok A ->
  BigNum.asBigInt b = Ok B ->
  let pa := BigNum.precision a in
  let pb := BigNum.precision b in
  let p := Nat.max pa pb in
  let S := A * 10 ^ Z.of_nat (p - pa) + B * 10 ^ Z.of_nat (p - pb) in
  Z.abs (Z.of_nat pa - Z.of_nat pb) <= 22 ->
  exists y, BigNum.add a b = Ok y
            /\ (Spec.denotes y S p
                <-> (S = 0 \/ 10 ^ Z.of_nat p <= 10 * Z.abs S)).
Proof.
  intros Ha Hb pa pb p S Hd.
  rewrite (add_unfolded a b A B Ha Hb Hd). apply place_point_toString.
Qed.

Lemma add_exact_iff_witness :
  let a := {| BigNum.integer := js "0"; BigNum.decimal := js "05" |} in
  let b := {| BigNum.integer := js "1"; BigNum.decimal := js "5" |} in
  BigNum.asBigInt a = Ok 5 /\ BigNum.asBigInt b = Ok 15
  /\ Z.abs (Z.of_nat 2 - Z.of_nat 1) <= 22
  /\ exists y, BigNum.add a b = Ok y
               /\ (Spec.denotes y (5 * 10 ^ Z.of_nat 0 + 15 * 10 ^ Z.of_nat 1) 2
                   <-> (5 * 10 ^ Z.of_nat 0 + 15 * 10 ^ Z.of_nat 1 = 0
                        \/ 10 ^ Z.of_nat 2
                           <= 10 * Z.abs (5 * 10 ^ Z.of_nat 0
                                          + 15 * 10 ^ Z.of_nat 1))).
Proof.
  cbv zeta. split; [reflexivity|]. split; [reflexivity|].
  split; [vm_compute; discriminate|].
  apply (add_exact_iff
           {| BigNum.integer := js "0"; BigNum.decimal := js "05" |}
           {| BigNum.integer := js "1"; BigNum.decimal := js "5" |} 5 15);
    [reflexivity | reflexivity | vm_compute; discriminate].
Defined.

(** X8. For operands that have an unscaled integer and whose numbers of
    fractional digits differ by at most twenty-two, so that the padding
    is an exact power of ten, [sub] returns a number, and that number is
    the difference exactly when the difference is zero or prints with at
    least as many digits as the longer fraction. *)
Theorem sub_exact_iff a b A B :
  BigNum.asBigInt a = Ok A ->
  BigNum.asBigInt b = Ok B ->
  let pa := BigNum.precision a in
  let pb := BigNum.precision b in
  let p := Nat.max pa pb in
  let D := A * 10 ^ Z.of_nat (p - pa) - B * 10 ^ Z.of_nat (p - pb) in
  Z.abs (Z.of_nat pa - Z.of_nat pb) <= 22 ->
  exists y, BigNum.sub a b = Ok y
            /\ (Spec.denotes y D p
                <-> (D = 0 \/ 10 ^ Z.of_nat p <= 10 * Z.abs D)).
Proof.
  intros Ha Hb pa pb p D Hd.
  rewrite (sub_unfolded a b A B Ha Hb Hd). apply place_point_toString.
Qed.

Lemma sub_exact_iff_witness :
  let a := {| BigNum.integer := js "1"; BigNum.decimal := js "5" |} in
  let b := {| BigNum.integer := js "0"; BigNum.decimal := js "25" |} in
  BigNum.asBigInt a = Ok 15 /\ BigNum.asBigInt b = Ok 25
  /\ Z.abs (Z.of_nat 1 - Z.of_nat 2) <= 22
  /\ exists y, BigNum.sub a b = Ok y
               /\ (Spec.denotes y (15 * 10 ^ Z.of_nat 1 - 25 * 10 ^ Z.of_nat 0) 2
                   <-> (15 * 10 ^ Z.of_nat 1 - 25 * 10 ^ Z.of_nat 0 = 0
                        \/ 10 ^ Z.of_nat 2
                           <= 10 * Z.abs (15 * 10 ^ Z.of_nat 1
                                          - 25 * 10 ^ Z.of_nat 0))).
Proof.
  cbv zeta. split; [reflexivity|]. split; [reflexivity|].
  split; [vm_compute; discriminate|].
  apply (sub_exact_iff
           {| BigNum.integer := js "1"; BigNum.decimal := js "5" |}
           {| BigNum.integer := js "0"; BigNum.decimal := js "25" |} 15 25);
    [reflexivity | reflexivity | vm_compute; discriminate].
Defined.

(** X9. For operands that have an unscaled integer and whose numbers of
    fractional digits differ by at most twenty-two, and a negative
    difference that prints with fewer digits than the longer fraction:
    [sub] returns a number whose integer part is "0" and whose fractional
    part starts with the minus sign, and reading its unscaled integer
    throws a SyntaxError. *)
Theorem sub_negative_short a b A B :
  BigNum.asBigInt a = Ok A ->
  BigNum.asBigInt b = Ok B ->
  let pa := BigNum.precision a in
  let pb := BigNum.precision b in
  let p := Nat.max pa pb in
  let D := A * 10 ^ Z.of_nat (p - pa) - B * 10 ^ Z.of_nat (p - pb) in
  Z.abs (Z.of_nat pa - Z.of_nat pb) <= 22 ->
  D < 0 -> 10 * Z.abs D < 10 ^ Z.of_nat p ->
  exists w,
    numeral w = true
    /\ BigNum.sub a b = Ok {| BigNum.integer := js "0";
                              BigNum.decimal := "-"%char :: w |}
    /\ BigNum.asBigInt {| BigNum.integer := js "0";
                          BigNum.decimal := "-"%char :: w |}
       = Throw SyntaxError.
Proof.
  intros Ha Hb pa pb p D Hd Hneg Hshort.
  rewrite (sub_unfolded a b A B Ha Hb Hd).
  apply place_point_toString_negative_short; assumption.
Qed.

Lemma sub_negative_short_witness :
  let a := {| BigNum.integer := js "0"; BigNum.decimal := js "05" |} in
  let b := {| BigNum.integer := js "0"; BigNum.decimal := js "09" |} in
  BigNum.asBigInt a = Ok 5 /\ BigNum.asBigInt b = Ok 9
  /\ Z.abs (Z.of_nat 2 - Z.of_nat 2) <= 22
  /\ 5 * 10 ^ Z.of_nat 0 - 9 * 10 ^ Z.of_nat 0 < 0
  /\ 10 * Z.abs (5 * 10 ^ Z.of_nat 0 - 9 * 10 ^ Z.of_nat 0)
     < 10 ^ Z.of_nat 2
  /\ exists w,
       numeral w = true
       /\ BigNum.sub a b = Ok {| BigNum.integer := js "0";
                                 BigNum.decimal := "-"%char :: w |}
       /\ BigNum.asBigInt {| BigNum.integer := js "0";
                             BigNum.decimal := "-"%char :: w |}
          = Throw SyntaxError.
Proof.
  cbv zeta. split; [reflexivity|]. split; [reflexivity|].
  split; [vm_compute; discriminate|].
  split; [reflexivity|]. split; [reflexivity|].
  apply (sub_negative_short
           {| BigNum.integer := js "0"; BigNum.decimal := js "05" |}
           {| BigNum.integer := js "0"; BigNum.decimal := js "09" |} 5 9);
    [reflexivity | reflexivity | vm_compute; discriminate
     | reflexivity | reflexivity].
Defined.

(** X10. [mul] returns a number for any two operands that have an
    unscaled integer, and that number is the product exactly when the
    product is zero or prints with at least as many digits as the two
    fractions together. *)
Theorem mul_exact_iff a b A B :
  BigNum.asBigInt a = Ok A ->
  BigNum.asBigInt b = Ok B ->
  let p := (BigNum.precision a + BigNum.precision b)%nat in
  exists y, BigNum.mul a b = Ok y
            /\ (Spec.denotes y (A * B) p
                <-> (A * B = 0 \/ 10 ^ Z.of_nat p <= 10 * Z.abs (A * B))).
Proof.
  intros Ha Hb p. unfold BigNum.mul. rewrite Ha, Hb. cbn [bind].
  apply place_point_toString.
Qed.

Lemma mul_exact_iff_witness :
  let a := {| BigNum.integer := js "1"; BigNum.decimal := js "5" |} in
  let b := {| BigNum.integer := js "-2"; BigNum.decimal := js "25" |} in
  BigNum.asBigInt a = Ok 15 /\ BigNum.asBigInt b = Ok (-225)
  /\ exists y, BigNum.mul a b = Ok y
               /\ (Spec.denotes y (15 * -225) 3
                   <-> (15 * -225 = 0
                        \/ 10 ^ Z.of_nat 3 <= 10 * Z.abs (15 * -225))).
Proof.
  cbv zeta. split; [reflexivity|]. split; [reflexivity|].
  apply (mul_exact_iff
           {| BigNum.integer := js "1"; BigNum.decimal := js "5" |}
           {| BigNum.integer := js "-2"; BigNum.decimal := js "25" |}
           15 (-225)); reflexivity.
Defined.

(** X11. A positive product that prints with fewer digits than the two
    fractions together: the decimal point lands right in front of its
    digits, so the result has the integer part "0" and stands for the
    product over the power of ten of its own number of digits (0.1 times
    0.1 gives 0.1). *)
Theorem mul_small_product a b A B :
  BigNum.asBigInt a = Ok A ->
  BigNum.asBigInt b = Ok B ->
  let p := (BigNum.precision a + BigNum.precision b)%nat in
  0 < A * B -> 10 * (A * B) < 10 ^ Z.of_nat p ->
  exists y, BigNum.mul a b = Ok y
            /\ BigNum.integer y = js "0"
            /\ Spec.denotes y (A * B) (List.length (digits_of (A * B)))
            /\ ~ Spec.denotes y (A * B) p.
Proof.
  intros Ha Hb p Hpos Hsmall. unfold BigNum.mul. rewrite Ha, Hb.
  cbn [bind].
  destruct (place_point_toString_short (A * B) p Hpos Hsmall)
    as (y & Hy & Hi & Hden).
  exists y. split; [exact Hy|]. split; [exact Hi|]. split; [exact Hden|].
  intros Hp. pose proof (digits_short (A * B) p Hpos Hsmall) as Hl.
  pose proof (denotes_two_scales y (A * B) _ _ Hden Hp Hl). lia.
Qed.

Lemma mul_small_product_witness :
  let a := {| BigNum.integer := js "0"; BigNum.decimal := js "1" |} in
  BigNum.asBigInt a = Ok 1
  /\ 0 < 1 * 1 /\ 10 * (1 * 1) < 10 ^ Z.of_nat 2
  /\ exists y, BigNum.mul a a = Ok y
               /\ BigNum.integer y = js "0"
               /\ Spec.denotes y (1 * 1) (List.length (digits_of (1 * 1)))
               /\ ~ Spec.denotes y (1 * 1) 2.
Proof.
  cbv zeta. split; [reflexivity|]. split; [reflexivity|].
  split; [reflexivity|].
  apply (mul_small_product
           {| BigNum.integer := js "0"; BigNum.decimal := js "1" |}
           {| BigNum.integer := js "0"; BigNum.decimal := js "1" |} 1 1);
    reflexivity.
Defined.

(** ** [div]: the guard *)

(** X12. [div] throws IndeterminateForm exactly when both operands have
    sign zero, and DivisionByZero exactly when only the divisor has; an
    operand has sign zero exactly when its two parts are the strings "0"
    and "0". *)
Theorem div_zero_errors this that :
  (BigNum.div this that = Throw IndeterminateForm
   <-> BigNum.sign that = 0 /\ BigNum.sign this = 0)
  /\ (BigNum.div this that = Throw DivisionByZero
      <-> BigNum.sign that = 0 /\ BigNum.sign this <> 0)
  /\ (BigNum.sign that = 0
      <-> BigNum.integer that = js "0" /\ BigNum.decimal that = js "0").
Proof.
  assert (Hsign : forall x, BigNum.sign x = 0
            <-> BigNum.integer x = js "0" /\ BigNum.decimal x = js "0").
  { intros x. unfold BigNum.sign. split.
    - destruct (BigNum.jsstring_eqb (BigNum.integer x) (js "0")) eqn:E1;
        destruct (BigNum.jsstring_eqb (BigNum.decimal x) (js "0")) eqn:E2;
        cbn [andb];
        try (destruct (BigNum.integer x) as [|c l];
             [discriminate|];
             destruct c as [[] [] [] [] [] [] [] []]; discriminate).
      intros _. split; apply jsstring_eqb_eq; assumption.
    - intros [-> ->]. reflexivity. }
  assert (Hpast : BigNum.sign that <> 0 ->
                  BigNum.div this that <> Throw IndeterminateForm
                  /\ BigNum.div this that <> Throw DivisionByZero).
  { intros Hs. unfold BigNum.div.
    replace (BigNum.sign that =? 0) with false
      by (symmetry; apply Z.eqb_neq; exact Hs).
    cbv zeta.
    destruct (BigNum.asBigInt this) as [n|e1] eqn:E1; cbn [bind].
    2:{ unfold BigNum.asBigInt, BigInt_of_string in E1.
        destruct (StringToBigInt _); [discriminate E1|].
        injection E1 as <-. split; discriminate. }
    destruct (BigInt_pow10 _) as [sc|e2] eqn:E2; cbn [bind].
    2:{ unfold BigInt_pow10 in E2.
        repeat match type of E2 with
               | (if ?c then _ else _) = _ => destruct c
               | match ?c with _ => _ end = _ => destruct c
               end; try discriminate E2;
          injection E2 as <-; split; discriminate. }
    destruct (BigNum.asBigInt that) as [m|e3] eqn:E3; cbn [bind].
    2:{ unfold BigNum.asBigInt, BigInt_of_string in E3.
        destruct (StringToBigInt _); [discriminate E3|].
        injection E3 as <-. split; discriminate. }
    destruct (m =? 0); [split; discriminate|].
    match goal with
    | |- BigNum.place_point ?r ?p <> _ /\ _ =>
        destruct (BigNum.place_point r p) as [y|e] eqn:E
    end; [split; discriminate|].
    unfold BigNum.place_point in E. apply new_throws in E. subst e.
    split; discriminate. }
  split; [|split; [|apply Hsign]].
  - split.
    + intros H. destruct (Z.eq_dec (BigNum.sign that) 0) as [Ht | Ht].
      * split; [exact Ht|]. unfold BigNum.div in H.
        rewrite Ht in H. cbn [Z.eqb] in H.
        destruct (BigNum.sign this =? 0) eqn:E; [|discriminate H].
        apply Z.eqb_eq, E.
      * exfalso. exact (proj1 (Hpast Ht) H).
    + intros [Ht Hs]. unfold BigNum.div. rewrite Ht, Hs. reflexivity.
  - split.
    + intros H. destruct (Z.eq_dec (BigNum.sign that) 0) as [Ht | Ht].
      * split; [exact Ht|]. unfold BigNum.div in H.
        rewrite Ht in H. cbn [Z.eqb] in H.
        destruct (BigNum.sign this =? 0) eqn:E; [discriminate H|].
        apply Z.eqb_neq, E.
      * exfalso. exact (proj2 (Hpast Ht) H).
    + intros [Ht Hs]. unfold BigNum.div. rewrite Ht. cbn [Z.eqb].
      replace (BigNum.sign this =? 0) with false
        by (symmetry; apply Z.eqb_neq; exact Hs).
      reflexivity.
Qed.

(** ** [round]: every mode, and the digits that remain *)

Lemma round_unfolded x c u :
  BigNum.asBigInt x = Ok u ->
  (MathContext.precision c < BigNum.precision x)%nat ->
  let diff := Z.of_nat (BigNum.precision x)
              - Z.of_nat (MathContext.precision c) in
  diff <= 22 ->
  BigNum.round x c
  = (r <- BigNum.round_switch (MathContext.rounding c)
            (Z.quot u (10 ^ diff)) (Z.rem u (10 ^ diff))
            (5 * 10 ^ (diff - 1)) ;;
     BigNum.place_point (BigInt_toString r) (MathContext.precision c)).
Proof.
  intros Hu Hgt diff Hd. unfold BigNum.round.
  replace (MathContext.precision c <? BigNum.precision x)%nat with true
    by (symmetry; apply Nat.ltb_lt; exact Hgt).
  fold diff. rewrite Hu, BigInt_pow10_small, BigInt_5pow10_small by lia.
  reflexivity.
Qed.

Lemma round_modes_in_range x c u :
  BigNum.asBigInt x = Ok u ->
  (MathContext.precision c < BigNum.precision x)%nat ->
  MathContext.rounding c <> UNNECESSARY ->
  let p := MathContext.precision c in
  let diff := Z.of_nat (BigNum.precision x) - Z.of_nat p in
  diff <= 22 ->
  exists r y,
    BigNum.round x c = Ok y
    /\ Spec.rounds_as (MathContext.rounding c) u (10 ^ diff) r
    /\ (Spec.denotes y r p
        <-> (r = 0 \/ 10 ^ Z.of_nat p <= 10 * Z.abs r)).
Proof.
  intros Hu Hgt Hmode p diff Hd.
  rewrite (round_unfolded x c u Hu Hgt Hd). fold p diff.
  assert (Hten : 10 ^ diff = 2 * (5 * 10 ^ (diff - 1))).
  { replace diff with (Z.succ (diff - 1)) at 1 by lia.
    rewrite Z.pow_succ_r by (unfold diff, p; lia). ring. }
  assert (H5 : 0 < 5 * 10 ^ (diff - 1)).
  { assert (0 < 10 ^ (diff - 1))
      by (apply Z.pow_pos_nonneg; unfold diff, p; lia).
    lia. }
  destruct (round_switch_total (MathContext.rounding c)
              (Z.quot u (10 ^ diff)) (Z.rem u (10 ^ diff))
              (5 * 10 ^ (diff - 1)) Hmode) as (r & Hr).
  rewrite Hr. cbn [bind].
  destruct (place_point_toString r p) as (y & Hy & Hiff).
  exists r, y. split; [exact Hy|]. split; [|exact Hiff].
  rewrite Hten in Hr |- *.
  exact (round_switch_modes _ u _ r H5 Hr).
Qed.

(** X13. For a number that has an unscaled integer, where between one
    and twenty-two digits are dropped, so that the divider is an exact
    power of ten, [round] in any mode but UNNECESSARY returns a number:
    the unscaled integer is rounded as the mode says, and the result
    stands for the rounded integer over [10^precision] exactly when that
    integer is zero or prints with at least [precision] digits. *)
Theorem round_in_range x c u :
  BigNum.asBigInt x = Ok u ->
  (MathContext.precision c < BigNum.precision x)%nat ->
  MathContext.rounding c <> UNNECESSARY ->
  let p := MathContext.precision c in
  let diff := Z.of_nat (BigNum.precision x) - Z.of_nat p in
  diff <= 22 ->
  exists r y,
    BigNum.round x c = Ok y
    /\ Spec.rounds_as (MathContext.rounding c) u (10 ^ diff) r
    /\ (Spec.denotes y r p
        <-> (r = 0 \/ 10 ^ Z.of_nat p <= 10 * Z.abs r)).
Proof. exact (round_modes_in_range x c u). Qed.

Lemma round_in_range_witness :
  let x := {| BigNum.integer := js "-12"; BigNum.decimal := js "345" |} in
  let c := {| MathContext.precision := 1;
              MathContext.rounding := HALF_UP |} in
  BigNum.asBigInt x = Ok (-12345)
  /\ (MathContext.precision c < BigNum.precision x)%nat
  /\ MathContext.rounding c <> UNNECESSARY
  /\ Z.of_nat (BigNum.precision x) - Z.of_nat (MathContext.precision c)
     <= 22
  /\ exists r y,
       BigNum.round x c = Ok y
       /\ Spec.rounds_as HALF_UP (-12345)
            (10 ^ (Z.of_nat (BigNum.precision x)
                   - Z.of_nat (MathContext.precision c))) r
       /\ (Spec.denotes y r 1
           <-> (r = 0 \/ 10 ^ Z.of_nat 1 <= 10 * Z.abs r)).
Proof.
  cbv zeta. split; [reflexivity|]. split; [cbn; lia|].
  split; [discriminate|]. split; [vm_compute; discriminate|].
  apply (round_in_range
           {| BigNum.integer := js "-12"; BigNum.decimal := js "345" |}
           {| MathContext.precision := 1;
              MathContext.rounding := HALF_UP |} (-12345));
    [reflexivity | cbn; lia | discriminate | vm_compute; discriminate].
Defined.

(** C3. The number 2.5 rounded to no fractional digit: UP, CEIL and
    HALF_UP give the number 3 (integer part "3", fractional part "0"),
    DOWN, FLOOR, HALF_DOWN and HALF_EVEN give the number 2.  In every
    mode but UNNECESSARY, [round] on a number that has an unscaled
    integer, dropping between one and twenty-two digits, rounds that
    integer as the mode is defined: away from zero, toward zero, toward
    plus or minus infinity, to the nearest neighbour with a tie going
    away from zero, toward zero or to the even neighbour; so does the
    switch of [round] for every even divider. *)
Theorem round_two_and_a_half :
  (let x := {| BigNum.integer := js "2"; BigNum.decimal := js "5" |} in
   let two := {| BigNum.integer := js "2"; BigNum.decimal := js "0" |} in
   let three := {| BigNum.integer := js "3"; BigNum.decimal := js "0" |} in
   let round_with mode :=
     BigNum.round x {| MathContext.precision := 0;
                       MathContext.rounding := mode |} in
   BigNum.new (js "2.5") = Ok x /\ Spec.denotes x 25 1
   /\ BigNum.new (js "2") = Ok two
   /\ BigNum.toString two = js "2.0" /\ Spec.denotes two 2 0
   /\ BigNum.new (js "3") = Ok three
   /\ BigNum.toString three = js "3.0" /\ Spec.denotes three 3 0
   /\ round_with UP = Ok three
   /\ round_with DOWN = Ok two
   /\ round_with CEIL = Ok three
   /\ round_with FLOOR = Ok two
   /\ round_with HALF_UP = Ok three
   /\ round_with HALF_DOWN = Ok two
   /\ round_with HALF_EVEN = Ok two)
  /\ (forall mode x u p,
        BigNum.asBigInt x = Ok u ->
        (p < BigNum.precision x)%nat ->
        mode <> UNNECESSARY ->
        let diff := Z.of_nat (BigNum.precision x) - Z.of_nat p in
        diff <= 22 ->
        exists r y,
          BigNum.round x {| MathContext.precision := p;
                            MathContext.rounding := mode |} = Ok y
          /\ Spec.rounds_as mode u (10 ^ diff) r
          /\ (Spec.denotes y r p
              <-> (r = 0 \/ 10 ^ Z.of_nat p <= 10 * Z.abs r)))
  /\ (forall mode num five r,
        0 < five ->
        BigNum.round_switch mode (Z.quot num (2 * five))
          (Z.rem num (2 * five)) five = Ok r ->
        Spec.rounds_as mode num (2 * five) r)
  /\ (forall mode rounded last five,
        mode <> UNNECESSARY ->
        exists r, BigNum.round_switch mode rounded last five = Ok r).
Proof.
  split; [|split; [|split]].
  - cbv zeta.
    assert (Hd : forall i d u v p,
              BigNum.asBigInt {| BigNum.integer := i; BigNum.decimal := d |}
              = Ok u ->
              u * 10 ^ Z.of_nat p = v * 10 ^ Z.of_nat (List.length d) ->
              Spec.denotes {| BigNum.integer := i; BigNum.decimal := d |}
                v p)
      by (intros i d u v p Hu He; exists u; split; assumption).
    repeat split;
      try (vm_compute; reflexivity);
      (eapply Hd; [vm_compute; reflexivity | vm_compute; reflexivity]).
  - intros mode x u p Hu Hp Hmode diff Hdiff.
    exact (round_modes_in_range x
             {| MathContext.precision := p; MathContext.rounding := mode |}
             u Hu Hp Hmode Hdiff).
  - exact round_switch_modes.
  - exact round_switch_total.
Qed.

(** The number 2.5 itself, HALF_EVEN, no fractional digit. *)
Lemma round_two_and_a_half_witness :
  let x := {| BigNum.integer := js "2"; BigNum.decimal := js "5" |} in
  BigNum.asBigInt x = Ok 25
  /\ (0 < BigNum.precision x)%nat
  /\ HALF_EVEN <> UNNECESSARY
  /\ Z.of_nat (BigNum.precision x) - Z.of_nat 0 <= 22
  /\ exists r y,
       BigNum.round x {| MathContext.precision := 0;
                         MathContext.rounding := HALF_EVEN |} = Ok y
       /\ Spec.rounds_as HALF_EVEN 25
            (10 ^ (Z.of_nat (BigNum.precision x) - Z.of_nat 0)) r
       /\ (Spec.denotes y r 0
           <-> (r = 0 \/ 10 ^ Z.of_nat 0 <= 10 * Z.abs r)).
Proof.
  cbv zeta. split; [reflexivity|]. split; [cbn; lia|].
  split; [discriminate|]. split; [vm_compute; discriminate|].
  apply (proj1 (proj2 round_two_and_a_half) HALF_EVEN
           {| BigNum.integer := js "2"; BigNum.decimal := js "5" |} 25 O);
    [reflexivity | cbn; lia | discriminate | vm_compute; discriminate].
Defined.

Lemma place_point_precision r p y :
  no_point r = true -> BigNum.place_point r p = Ok y ->
  (BigNum.precision y <= Nat.max p 1)%nat.
Proof.
  intros Hr H. rewrite (place_point_eq r p Hr) in H. cbv zeta in H.
  injection H as <-. unfold BigNum.precision. cbn [BigNum.decimal].
  set (v := skipn (List.length r - p) r).
  assert (Hv : (List.length v <= p)%nat)
    by (unfold v; rewrite length_skipn; lia).
  assert (Hf : (List.length (firstn (BigNum.after_last_nonzero v) v)
                <= List.length v)%nat) by (rewrite length_firstn; lia).
  destruct (firstn (BigNum.after_last_nonzero v) v);
    cbn [BigNum.or_zero js list_ascii_of_string List.length] in *; lia.
Qed.

(** X14. Whatever [round] returns stores at most [precision] fractional
    digits; for [precision] zero it stores one, the "0" the constructor
    puts in. *)
Theorem round_precision x c y :
  BigNum.round x c = Ok y ->
  (BigNum.precision y <= Nat.max (MathContext.precision c) 1)%nat.
Proof.
  intros E.
  destruct (le_lt_dec (BigNum.precision x) (MathContext.precision c))
    as [H | H].
  - rewrite (round_short x c H) in E. injection E as <-. lia.
  - unfold BigNum.round in E.
    replace (MathContext.precision c <? BigNum.precision x)%nat
      with true in E by (symmetry; apply Nat.ltb_lt; exact H).
    destruct (BigNum.asBigInt x) as [num|]; [|discriminate E].
    cbn [bind] in E.
    destruct (BigInt_pow10 _) as [divider|]; [|discriminate E].
    cbn [bind] in E.
    destruct (BigInt_5pow10 _) as [five|]; [|discriminate E].
    cbn [bind] in E.
    destruct (BigNum.round_switch _ _ _ _) as [z|]; [|discriminate E].
    cbn [bind] in E.
    exact (place_point_precision _ _ _ (toString_no_point z) E).
Qed.

Lemma round_precision_witness :
  let x := {| BigNum.integer := js "2"; BigNum.decimal := js "71828" |} in
  let c := {| MathContext.precision := 2;
              MathContext.rounding := HALF_EVEN |} in
  BigNum.round x c
  = Ok {| BigNum.integer := js "2"; BigNum.decimal := js "72" |}
  /\ (BigNum.precision
        {| BigNum.integer := js "2"; BigNum.decimal := js "72" |}
      <= Nat.max (MathContext.precision c) 1)%nat.
Proof.
  cbv zeta. split; [reflexivity|].
  apply (round_precision
           {| BigNum.integer := js "2"; BigNum.decimal := js "71828" |}
           {| MathContext.precision := 2;
              MathContext.rounding := HALF_EVEN |}).
  reflexivity.
Defined.

(** ** The parser: [trimZeroes] *)

Lemma trimStart_spec s zero :
  exists k, s = repeat zero k ++ Parser.trimStart s zero
            /\ hd_error (Parser.trimStart s zero) <> Some zero.
Proof.
  induction s as [|c s (k & Hk & Hh)].
  - exists O. split; [reflexivity | discriminate].
  - cbn [Parser.trimStart]. destruct (Ascii.eqb c zero) eqn:E.
    + apply Ascii.eqb_eq in E. subst c. exists (S k).
      split; [cbn [repeat app]; f_equal; exact Hk | exact Hh].
    + exists O. split; [reflexivity|]. cbn [hd_error].
      intros C. injection C as ->. rewrite Ascii.eqb_refl in E.
      discriminate E.
Qed.

Lemma trimStart_fixed s zero :
  hd_error s <> Some zero -> Parser.trimStart s zero = s.
Proof.
  destruct s as [|c s]; [reflexivity|]. cbn [hd_error Parser.trimStart].
  intros H. destruct (Ascii.eqb c zero) eqn:E; [|reflexivity].
  apply Ascii.eqb_eq in E. congruence.
Qed.

Lemma trimStart_zeros s zero k :
  Parser.trimStart (repeat zero k ++ s) zero = Parser.trimStart s zero.
Proof.
  induction k as [|k IH]; [reflexivity|].
  cbn [repeat app Parser.trimStart]. rewrite Ascii.eqb_refl. exact IH.
Qed.

Lemma trimZeroes_end_split s :
  exists k, s = Parser.trimEnd s "0" ++ repeat "0"%char k.
Proof.
  unfold Parser.trimEnd.
  destruct (trimStart_spec (rev s) "0") as (k & Hk & _).
  exists k. apply (f_equal (@rev ascii)) in Hk.
  rewrite rev_involutive, rev_app_distr, rev_repeat in Hk. exact Hk.
Qed.

(** X15. [trimZeroes] removes a run of the zero character from the end
    asked for, and no more: what it returns neither starts (for "start")
    nor ends (for "end") with that character, and trimming again changes
    nothing. *)
Theorem trimZeroes_spec s zero :
  (exists k, s = repeat zero k ++ Parser.trimZeroes s Parser.pos_start zero
             /\ hd_error (Parser.trimZeroes s Parser.pos_start zero)
                <> Some zero)
  /\ (exists k, s = Parser.trimZeroes s Parser.pos_end zero ++ repeat zero k
                /\ hd_error (rev (Parser.trimZeroes s Parser.pos_end zero))
                   <> Some zero)
  /\ (forall pos, Parser.trimZeroes (Parser.trimZeroes s pos zero) pos zero
                  = Parser.trimZeroes s pos zero).
Proof.
  split; [|split].
  - apply trimStart_spec.
  - cbn [Parser.trimZeroes]. unfold Parser.trimEnd.
    destruct (trimStart_spec (rev s) zero) as (k & Hk & Hh).
    exists k. rewrite rev_involutive. split; [|exact Hh].
    apply (f_equal (@rev ascii)) in Hk.
    rewrite rev_involutive, rev_app_distr, rev_repeat in Hk. exact Hk.
  - intros [|]; cbn [Parser.trimZeroes].
    + apply trimStart_fixed.
      destruct (trimStart_spec s zero) as (k & _ & Hh). exact Hh.
    + unfold Parser.trimEnd. rewrite rev_involutive. f_equal.
      apply trimStart_fixed.
      destruct (trimStart_spec (rev s) zero) as (k & _ & Hh). exact Hh.
Qed.

(** The two loops of the constructor are the two trimmings of the
    parser. *)
Lemma trimStart_first_nonzero s :
  Parser.trimStart s "0" = skipn (BigNum.first_nonzero s) s.
Proof.
  induction s as [|c s IH]; [reflexivity|].
  cbn [Parser.trimStart].
  destruct c as [[] [] [] [] [] [] [] []]; try reflexivity.
  cbn [Ascii.eqb Bool.eqb BigNum.first_nonzero skipn]. exact IH.
Qed.

Lemma trimEnd_after_last_nonzero s :
  Parser.trimEnd s "0" = firstn (BigNum.after_last_nonzero s) s.
Proof.
  unfold Parser.trimEnd, BigNum.after_last_nonzero.
  rewrite trimStart_first_nonzero, skipn_rev, rev_involutive.
  reflexivity.
Qed.

(** ** The parser and the constructor *)

(** X16. On a literal without exponent marker the parser and the
    constructor agree: the constructor stores the two parts [parseNum]
    returns, with "0" in place of an empty part. *)
Theorem parseNum_constructor s i d :
  indexOf "e" s = None ->
  Parser.parseNum s = Ok (i, d) ->
  BigNum.new s = Ok {| BigNum.integer := BigNum.or_zero i;
                       BigNum.decimal := BigNum.or_zero d |}.
Proof.
  intros He H. unfold Parser.parseNum in H.
  destruct (Parser.isValid s) eqn:Ev; [|discriminate H].
  cbn [negb] in H. unfold Parser.isValid in Ev. rewrite He in *.
  cbn [bind] in H. unfold Parser.isDecimal in Ev. unfold BigNum.new.
  destruct (split_nonempty s) as (x & l & Hs). rewrite Hs in *.
  destruct l as [|y [|z l]]; [| |discriminate Ev];
    injection H as <- <-; cbn [Parser.trimZeroes];
    rewrite ?trimStart_first_nonzero, ?trimEnd_after_last_nonzero;
    reflexivity.
Qed.

Lemma parseNum_constructor_witness :
  indexOf "e" (js "-007.50") = None
  /\ Parser.parseNum (js "-007.50") = Ok (js "-007", js "5")
  /\ BigNum.new (js "-007.50")
     = Ok {| BigNum.integer := BigNum.or_zero (js "-007");
             BigNum.decimal := BigNum.or_zero (js "5") |}.
Proof.
  split; [reflexivity|]. split; [reflexivity|].
  apply (parseNum_constructor (js "-007.50") (js "-007") (js "5"));
    reflexivity.
Defined.

(** ** The parser: [decimate] *)

(** The nearest binary64 number is not below a bound the integer
    reaches. *)
Lemma Number_of_Z_at_least b v :
  0 <= b <= 2 ^ 53 -> b <= v ->
  (exists w, Number_of_Z v = Finite w /\ b <= w)
  \/ Number_of_Z v = Infinity false.
Proof.
  intros Hb Hv. destruct (Z_lt_le_dec v (2 ^ 53)) as [Hs | Hl].
  - left. exists v. split; [|exact Hv]. apply Number_of_Z_exact. lia.
  - destruct (Number_of_Z_large v Hl) as [(w & Hw & Hge) | Hinf];
      [left; exists w; split; [exact Hw | lia] | right; exact Hinf].
Qed.

Lemma Number_of_Z_beyond v :
  max_string_length < v ->
  number_ltb (Finite max_string_length) (Number_of_Z v) = true.
Proof.
  intros H.
  destruct (Number_of_Z_at_least (max_string_length + 1) v)
    as [(w & -> & Hw) | ->]; [split; vm_compute; discriminate | lia | |].
  - cbn [number_ltb]. apply Z.ltb_lt. lia.
  - reflexivity.
Qed.

(** [decimate] on digits with or without a minus sign in front: the sign
    is taken off and put back. *)
Lemma decimate_unfold (minus : bool) ds index :
  numeral ds = true ->
  let sg := if minus then js "-" else [] in
  Parser.decimate (sg ++ ds) index
  = if number_ltb index (Finite 0) then Throw NegativeIndex
    else
      s' <- (if number_ltb (Finite (len ds)) index
             then padded <- Parser.pad ds
                              (number_sub index (Finite (len ds))) true ;;
                  string_concat (js "0.") padded
             else
               let i := index_of_number ds
                          (number_sub (Finite (len ds)) index) in
               front <- string_concat (substring ds 0 i) (js ".") ;;
               string_concat front (substring_from ds i)) ;;
      string_concat sg s'.
Proof.
  intros H sg. unfold sg, Parser.decimate.
  destruct minus; [reflexivity|]. cbn [app].
  destruct ds as [|c l]; [reflexivity|].
  cbn [numeral forallb] in H. apply andb_true_iff in H as [H _].
  apply digit_inv in H; simpl in H.
  repeat (destruct H as [<- | H]; [reflexivity|]). contradiction.
Qed.

Lemma len_app (a b : jsstring) : len (a ++ b) = len a + len b.
Proof. unfold len. rewrite length_app. lia. Qed.

Lemma decimate_in_range (minus : bool) ds k :
  numeral ds = true -> 0 <= k ->
  Z.max k (len ds) + 3 <= max_string_length ->
  let sg := if minus then js "-" else [] in
  Parser.decimate (sg ++ ds) (Finite k)
  = Ok (sg ++
        (if len ds <? k
         then js "0." ++ repeat "0"%char (Z.to_nat (k - len ds)) ++ ds
         else substring ds 0 (len ds - k) ++ js "."
              ++ substring_from ds (len ds - k))).
Proof.
  intros Hn Hk Hmax sg.
  assert (Hm : max_string_length < 2 ^ 53) by reflexivity.
  assert (Hl : 0 <= len ds) by (unfold len; lia).
  assert (Hsg : len sg <= 1) by (unfold sg; destruct minus; cbn; lia).
  pose proof (decimate_unfold minus ds (Finite k) Hn) as Hu.
  cbv zeta in Hu. fold sg in Hu. rewrite Hu. clear Hu.
  cbn [number_ltb].
  replace (k <? 0) with false by (symmetry; apply Z.ltb_ge; lia).
  cbn [number_sub]. destruct (len ds <? k) eqn:E.
  - apply Z.ltb_lt in E.
    rewrite Number_of_Z_exact by lia.
    rewrite (pad_ok ds (k - len ds) true) by lia. cbn [bind].
    assert (Hp : len (repeat "0"%char (Z.to_nat (k - len ds)) ++ ds) = k)
      by (unfold len in *; rewrite length_app, repeat_length; lia).
    rewrite string_concat_ok
      by (rewrite Hp; change (len (js "0.")) with 2; lia).
    cbn [bind]. apply string_concat_ok.
    rewrite len_app, Hp. change (len (js "0.")) with 2. lia.
  - apply Z.ltb_ge in E.
    rewrite Number_of_Z_exact by lia. cbn [index_of_number].
    rewrite substring_prefix, substring_suffix.
    set (j := Z.to_nat (len ds - k)).
    assert (Hf : len (firstn j ds) + len (skipn j ds) = len ds)
      by (rewrite <- len_app, firstn_skipn; reflexivity).
    assert (H1 : 0 <= len (firstn j ds)) by (unfold len; lia).
    assert (H2 : 0 <= len (skipn j ds)) by (unfold len; lia).
    rewrite string_concat_ok
      by (change (len (js ".")) with 1; lia).
    cbn [bind].
    assert (H3 : len (firstn j ds ++ js ".") = len (firstn j ds) + 1)
      by (rewrite len_app; reflexivity).
    rewrite string_concat_ok by (rewrite H3; lia).
    cbn [bind]. rewrite <- app_assoc.
    apply string_concat_ok.
    rewrite !len_app. change (len (js ".")) with 1. lia.
Qed.

Lemma decimate_numeral (minus : bool) ds k :
  numeral ds = true -> 0 <= k ->
  Z.max k (len ds) + 3 <= max_string_length ->
  let sg := if minus then js "-" else [] in
  exists ip fp,
    Parser.decimate (sg ++ ds) (Finite k)
    = Ok (sg ++ ip ++ js "." ++ fp)
    /\ numeral ip = true /\ numeral fp = true
    /\ len fp = k
    /\ value (ip ++ fp) = value ds
    /\ (len ds < k -> ip = js "0")
    /\ (k <= len ds -> ip ++ fp = ds).
Proof.
  intros Hn Hk Hmax sg.
  pose proof (decimate_in_range minus ds k Hn Hk Hmax) as Hdec.
  cbv zeta in Hdec. fold sg in Hdec. rewrite Hdec.
  destruct (len ds <? k) eqn:E.
  - apply Z.ltb_lt in E.
    exists (js "0"), (repeat "0"%char (Z.to_nat (k - len ds)) ++ ds).
    split; [reflexivity|]. split; [reflexivity|].
    split; [rewrite numeral_app, numeral_zeros, Hn; reflexivity|].
    split; [unfold len in *; rewrite length_app, repeat_length; lia|].
    split; [|split; [reflexivity | lia]].
    change (js "0" ++ repeat "0"%char (Z.to_nat (k - len ds)) ++ ds)
      with (repeat "0"%char (S (Z.to_nat (k - len ds))) ++ ds).
    rewrite value_app, value_zeros. lia.
  - apply Z.ltb_ge in E.
    rewrite substring_prefix, substring_suffix.
    set (j := Z.to_nat (len ds - k)).
    exists (firstn j ds), (skipn j ds).
    split; [reflexivity|].
    split; [apply numeral_firstn, Hn|].
    split; [apply numeral_skipn, Hn|].
    split; [unfold len in *; rewrite length_skipn; subst j; lia|].
    rewrite firstn_skipn. split; [reflexivity|].
    split; [lia | reflexivity].
Qed.

(** An index beyond the digits by more than a string can hold. *)
Lemma decimate_beyond (minus : bool) ds index :
  numeral ds = true ->
  number_ltb index (Finite 0) = false ->
  number_ltb (Finite max_string_length)
    (number_sub index (Finite (len ds))) = true ->
  let sg := if minus then js "-" else [] in
  Parser.decimate (sg ++ ds) index = Throw RangeError.
Proof.
  intros Hn H0 Hb sg.
  pose proof (decimate_unfold minus ds index Hn) as Hu.
  cbv zeta in Hu. fold sg in Hu. rewrite Hu, H0. clear Hu.
  assert (Hgt : number_ltb (Finite (len ds)) index = true).
  { assert (Hl : 0 <= len ds) by (unfold len; lia).
    assert (Hm : 0 < max_string_length) by reflexivity.
    destruct index as [|[|]|v]; try discriminate Hb; [reflexivity|].
    cbn [number_ltb number_sub] in *. apply Z.ltb_lt.
    destruct (Z_lt_le_dec (len ds) v) as [?|Hle]; [assumption|].
    exfalso. unfold Number_of_Z in Hb.
    destruct (binary64_of_Z (Z.abs (v - len ds))) as [w|] eqn:E.
    - destruct (binary64_range _ _ (Z.abs_nonneg _) E) as [[_ ->]|[_ Hw]].
      + cbn [number_ltb] in Hb. apply Z.ltb_lt in Hb.
        assert (Z.sgn (v - len ds) * Z.abs (v - len ds) = v - len ds)
          by (destruct (v - len ds); reflexivity).
        lia.
      + cbn [number_ltb] in Hb. apply Z.ltb_lt in Hb.
        assert (0 < 2 ^ 53) by reflexivity.
        assert (Z.sgn (v - len ds) <= 0) by lia. nia.
    - cbn [number_ltb] in Hb.
      replace (v - len ds <? 0) with true in Hb; [discriminate Hb|].
      symmetry. apply Z.ltb_lt.
      destruct (Z.eq_dec v (len ds)) as [-> | ?]; [|lia].
      rewrite Z.sub_diag in E. discriminate E. }
  rewrite Hgt, (pad_too_long ds _ true Hb). reflexivity.
Qed.

(** X17. [decimate] throws its own error, for a negative index, exactly
    when the index is below zero.  On digits behind an optional minus
    sign, with an index [k >= 0] such that neither [k] nor the number of
    digits comes within three characters of the longest string, it keeps
    the sign, puts the decimal point so that [k] digits follow it,
    filling with zeros behind "0." where the digits are too few, and
    keeps the value of the digits.  Where the index is beyond the digits
    by more than the longest string, it throws a RangeError. *)
Theorem decimate_spec :
  (forall a index,
     Parser.decimate a index = Throw NegativeIndex
     <-> number_ltb index (Finite 0) = true)
  /\ (forall (minus : bool) ds k,
        numeral ds = true -> 0 <= k ->
        Z.max k (len ds) + 3 <= max_string_length ->
        let sg := if minus then js "-" else [] in
        exists ip fp,
          Parser.decimate (sg ++ ds) (Finite k)
          = Ok (sg ++ ip ++ js "." ++ fp)
          /\ numeral ip = true /\ numeral fp = true
          /\ len fp = k
          /\ value (ip ++ fp) = value ds
          /\ (len ds < k -> ip = js "0")
          /\ (k <= len ds -> ip ++ fp = ds))
  /\ (forall (minus : bool) ds k,
        numeral ds = true -> max_string_length + len ds < k ->
        let sg := if minus then js "-" else [] in
        Parser.decimate (sg ++ ds) (Finite k) = Throw RangeError).
Proof.
  split; [|split].
  - intros a index. split.
    + intros H. destruct (decimate_throws _ _ _ H) as [[_ Hn] | [He _]];
        [exact Hn | discriminate He].
    + intros H. unfold Parser.decimate. rewrite H. reflexivity.
  - exact decimate_numeral.
  - intros minus ds k Hn Hk.
    assert (Hl : 0 <= len ds) by (unfold len; lia).
    assert (Hm : 0 < max_string_length) by reflexivity.
    apply (decimate_beyond minus ds (Finite k)); [exact Hn | |].
    + cbn [number_ltb]. apply Z.ltb_ge. lia.
    + cbn [number_sub]. apply Number_of_Z_beyond. lia.
Qed.

Lemma decimate_spec_witness :
  numeral (js "15") = true /\ 0 <= 3
  /\ Z.max 3 (len (js "15")) + 3 <= max_string_length
  /\ exists ip fp,
       Parser.decimate (js "-" ++ js "15") (Finite 3)
       = Ok (js "-" ++ ip ++ js "." ++ fp)
       /\ numeral ip = true /\ numeral fp = true
       /\ len fp = 3
       /\ value (ip ++ fp) = value (js "15")
       /\ (len (js "15") < 3 -> ip = js "0")
       /\ (3 <= len (js "15") -> ip ++ fp = js "15").
Proof.
  split; [reflexivity|]. split; [lia|].
  split; [vm_compute; discriminate|].
  apply (proj1 (proj2 decimate_spec) true (js "15") 3);
    [reflexivity | lia | vm_compute; discriminate].
Defined.

(** ** The parser: scientific notation *)

Lemma in_valids_digit c : Parser.in_valids c = digit c.
Proof. reflexivity. Qed.

Lemma isInteger_numeral s positive :
  numeral s = true -> Parser.isInteger s positive = true.
Proof.
  intros H. destruct s as [|c w]; [reflexivity|].
  pose proof H as Hc. cbn [numeral forallb] in Hc.
  apply andb_true_iff in Hc as [Hc _].
  destruct (in_valids_plain c Hc) as (_ & _ & H1 & H2).
  rewrite (isInteger_unsigned c w positive H1 H2). exact H.
Qed.

Lemma numeral_no_exp s : numeral s = true -> no_exp s = true.
Proof.
  induction s as [|c s IH]; [reflexivity|].
  cbn [numeral no_exp forallb]. intros H.
  apply andb_true_iff in H as [Hc Hs].
  destruct (in_valids_plain c Hc) as (He & _).
  rewrite He. cbn [negb andb]. apply IH, Hs.
Qed.

Lemma indexOf_lacks c s :
  forallb (fun x => negb (Ascii.eqb x c)) s = true -> indexOf c s = None.
Proof.
  induction s as [|x s IH]; [reflexivity|].
  cbn [forallb indexOf]. intros H. apply andb_true_iff in H as [Hx Hs].
  apply negb_true_iff in Hx. rewrite Hx, (IH Hs). reflexivity.
Qed.

Lemma indexOf_first c a b :
  forallb (fun x => negb (Ascii.eqb x c)) a = true ->
  indexOf c (a ++ c :: b) = Some (List.length a).
Proof.
  induction a as [|x a IH]; intros H.
  - cbn [app indexOf]. rewrite Ascii.eqb_refl. reflexivity.
  - cbn [forallb] in H. apply andb_true_iff in H as [Hx Ha].
    apply negb_true_iff in Hx. cbn [app indexOf List.length].
    rewrite Hx, (IH Ha). reflexivity.
Qed.

Lemma trimEnd_zeros s k :
  Parser.trimEnd (s ++ repeat "0"%char k) "0" = Parser.trimEnd s "0".
Proof.
  unfold Parser.trimEnd.
  rewrite rev_app_distr, rev_repeat, trimStart_zeros. reflexivity.
Qed.

Lemma numeral_trimStart s : numeral s = true ->
  numeral (Parser.trimStart s "0") = true
  /\ value (Parser.trimStart s "0") = value s.
Proof.
  intros H. rewrite trimStart_first_nonzero.
  split; [apply numeral_skipn, H | apply value_skip_zeros].
Qed.

Lemma numeral_trimEnd s : numeral s = true ->
  numeral (Parser.trimEnd s "0") = true
  /\ value (Parser.trimEnd s "0") * 10 ^ len s
     = value s * 10 ^ len (Parser.trimEnd s "0").
Proof.
  intros H.
  destruct (trimZeroes_end_split s) as (k & Hk).
  set (d := Parser.trimEnd s "0") in *.
  assert (Hd : numeral d = true).
  { rewrite Hk, numeral_app in H. apply andb_true_iff in H; tauto. }
  split; [exact Hd|].
  rewrite Hk at 1 2. rewrite value_app, value_zeros.
  unfold len. rewrite length_app, repeat_length, Nat2Z.inj_add.
  rewrite Z.pow_add_r by lia. ring.
Qed.

Lemma firstn_length_app (a b : jsstring) :
  firstn (List.length a) (a ++ b) = a.
Proof. induction a as [|x a IH]; [reflexivity|]. cbn. f_equal. exact IH. Qed.

Lemma skipn_length_app (a b : jsstring) :
  skipn (List.length a) (a ++ b) = b.
Proof. induction a as [|x a IH]; [reflexivity|]. exact IH. Qed.

(** [parseNum] past the check, on a mantissa [m] and an exponent [x]
    around the first exponent marker. *)
Lemma parseNum_exponent m x :
  no_exp m = true ->
  Parser.isDecimal m = true -> Parser.isInteger x false = true ->
  Parser.parseNum (m ++ "e"%char :: x)
  = (a <- (let exponent := Parser.Number_of_integer x in
           let precision :=
             match indexOf "." m with
             | None => 0
             | Some index => len (substring_from m (Z.of_nat index + 1))
             end in
           num' <- (if number_ltb (Finite precision) exponent
                    then Parser.pad m
                           (number_sub exponent (Finite precision)) false
                    else Parser.decimate (List.concat (split "." m))
                           (number_sub (Finite precision) exponent)) ;;
           Ok (split "." num')) ;;
     match a with
     | [u] => Ok (Parser.trimZeroes u Parser.pos_start "0", [])
     | u :: v :: _ =>
         Ok (Parser.trimZeroes u Parser.pos_start "0",
             Parser.trimZeroes v Parser.pos_end "0")
     | [] => Ok ([], [])
     end).
Proof.
  intros Hm Hd Hx. unfold Parser.parseNum, Parser.isValid.
  rewrite (indexOf_first "e" m x Hm).
  rewrite substring_prefix, substring_suffix.
  replace (Z.to_nat (Z.of_nat (List.length m))) with (List.length m)
    by lia.
  replace (Z.to_nat (Z.of_nat (List.length m) + 1))
    with (List.length (m ++ ["e"%char]))
    by (rewrite length_app; cbn [List.length]; lia).
  rewrite firstn_length_app.
  replace (m ++ "e"%char :: x) with ((m ++ ["e"%char]) ++ x)
    by (rewrite <- app_assoc; reflexivity).
  rewrite skipn_length_app, Hd, Hx. reflexivity.
Qed.

Lemma pointed_mantissa ip fp :
  numeral ip = true -> numeral fp = true ->
  let m := ip ++ js "." ++ fp in
  no_exp m = true /\ Parser.isDecimal m = true
  /\ split "." m = [ip; fp]
  /\ indexOf "." m = Some (List.length ip)
  /\ substring_from m (Z.of_nat (List.length ip) + 1) = fp.
Proof.
  intros Hip Hfp m.
  assert (Hs : split "." m = [ip; fp])
    by (apply split_point; apply numeral_no_point; assumption).
  split; [|split; [|split; [exact Hs|split]]].
  - unfold m. rewrite !no_exp_app, (numeral_no_exp _ Hip),
      (numeral_no_exp _ Hfp). reflexivity.
  - unfold Parser.isDecimal. rewrite Hs.
    rewrite !isInteger_numeral by assumption. reflexivity.
  - apply (indexOf_first "." ip fp), (numeral_no_point _ Hip).
  - rewrite substring_suffix.
    replace (Z.to_nat (Z.of_nat (List.length ip) + 1))
      with (List.length (ip ++ js ".")).
    + unfold m. rewrite app_assoc. apply skipn_length_app.
    + rewrite length_app. cbn [List.length js list_ascii_of_string]. lia.
Qed.

Lemma Number_of_numeral es :
  numeral es = true -> es <> [] ->
  Parser.Number_of_integer es = Number_of_Z (value es)
  /\ Parser.Number_of_integer ("-"%char :: es) = Number_of_Z (- value es).
Proof.
  intros H Hne. split.
  - unfold Parser.Number_of_integer.
    destruct es as [|c w]; [congruence|].
    rewrite (parse_number_numeral (c :: w) H Hne).
    cbn [numeral forallb] in H. apply andb_true_iff in H as [Hc _].
    apply digit_inv in Hc; simpl in Hc.
    repeat (destruct Hc as [<- | Hc]; [reflexivity|]). contradiction.
  - cbn [Parser.Number_of_integer].
    rewrite (parse_number_numeral es H Hne). reflexivity.
Qed.

(** X18. A mantissa with a decimal point and an unsigned exponent larger
    than the number of its fractional digits, where the padded mantissa
    stays within the longest string: the zeros are appended to the
    mantissa with its point still in it, so they are trimmed again and the
    exponent is ignored. *)
Theorem parseNum_exponent_ignored ip fp es :
  numeral ip = true -> numeral fp = true -> numeral es = true ->
  len fp < value es ->
  len ip + 1 + value es <= max_string_length ->
  Parser.parseNum (ip ++ js "." ++ fp ++ js "e" ++ es)
  = Parser.parseNum (ip ++ js "." ++ fp)
  /\ Parser.parseNum (ip ++ js "." ++ fp)
     = Ok (Parser.trimZeroes ip Parser.pos_start "0",
           Parser.trimZeroes fp Parser.pos_end "0").
Proof.
  intros Hip Hfp Hes HE Hmax.
  assert (Hne : es <> []) by (intros ->; unfold len in HE; cbn in HE; lia).
  assert (Hm53 : max_string_length < 2 ^ 53) by reflexivity.
  assert (Hli : 0 <= len ip) by (unfold len; lia).
  assert (Hlf : 0 <= len fp) by (unfold len; lia).
  destruct (pointed_mantissa ip fp Hip Hfp) as (Hm & Hd & Hs & Hi & Hf).
  cbv zeta in *.
  assert (Hplain : Parser.parseNum (ip ++ js "." ++ fp)
                   = Ok (Parser.trimZeroes ip Parser.pos_start "0",
                         Parser.trimZeroes fp Parser.pos_end "0")).
  { unfold Parser.parseNum, Parser.isValid.
    rewrite (indexOf_lacks "e" _ Hm), Hd, Hs. reflexivity. }
  split; [|exact Hplain]. rewrite Hplain.
  replace (ip ++ js "." ++ fp ++ js "e" ++ es)
    with ((ip ++ js "." ++ fp) ++ "e"%char :: es)
    by (rewrite <- !app_assoc; reflexivity).
  rewrite (parseNum_exponent _ es Hm Hd (isInteger_numeral es false Hes)).
  cbv zeta. rewrite Hi, Hf, (proj1 (Number_of_numeral es Hes Hne)).
  rewrite Number_of_Z_exact by lia. cbn [number_ltb number_sub].
  replace (len fp <? value es) with true
    by (symmetry; apply Z.ltb_lt; exact HE).
  rewrite Number_of_Z_exact by lia.
  rewrite pad_ok
    by (rewrite ?len_app; change (len (js ".")) with 1; lia).
  cbn [bind].
  replace ((ip ++ js "." ++ fp) ++ repeat "0"%char (Z.to_nat (value es - len fp)))
    with (ip ++ js "." ++ (fp ++ repeat "0"%char (Z.to_nat (value es - len fp))))
    by (rewrite <- !app_assoc; reflexivity).
  rewrite split_point;
    [| apply numeral_no_point, Hip
     | apply numeral_no_point; rewrite numeral_app, Hfp, numeral_zeros;
       reflexivity].
  cbn [Parser.trimZeroes]. rewrite trimEnd_zeros. reflexivity.
Qed.

Lemma parseNum_exponent_ignored_witness :
  numeral (js "1") = true /\ numeral (js "5") = true
  /\ numeral (js "3") = true /\ len (js "5") < value (js "3")
  /\ len (js "1") + 1 + value (js "3") <= max_string_length
  /\ Parser.parseNum (js "1" ++ js "." ++ js "5" ++ js "e" ++ js "3")
     = Parser.parseNum (js "1" ++ js "." ++ js "5")
  /\ Parser.parseNum (js "1" ++ js "." ++ js "5")
     = Ok (Parser.trimZeroes (js "1") Parser.pos_start "0",
           Parser.trimZeroes (js "5") Parser.pos_end "0").
Proof.
  split; [reflexivity|]. split; [reflexivity|]. split; [reflexivity|].
  split; [reflexivity|]. split; [vm_compute; discriminate|].
  apply (parseNum_exponent_ignored (js "1") (js "5") (js "3"));
    [reflexivity | reflexivity | reflexivity | reflexivity
     | vm_compute; discriminate].
Defined.

(** X19. A mantissa with a decimal point and an exponent, of either sign,
    not larger than the number of its fractional digits, where the index
    of the decimal point and the digits of the mantissa stay three
    characters within the longest string: the two parts returned are
    digits and stand for the mantissa times ten to the exponent. *)
Theorem parseNum_scientific_value (neg : bool) ip fp es :
  numeral ip = true -> numeral fp = true ->
  numeral es = true -> es <> [] ->
  let E := if neg then - value es else value es in
  E <= len fp ->
  Z.max (len fp - E) (len ip + len fp) + 3 <= max_string_length ->
  exists i d,
    Parser.parseNum (ip ++ js "." ++ fp ++ js "e"
                     ++ (if neg then js "-" else []) ++ es) = Ok (i, d)
    /\ numeral i = true /\ numeral d = true
    /\ value (i ++ d) * 10 ^ (len fp - E) = value (ip ++ fp) * 10 ^ len d.
Proof.
  intros Hip Hfp Hes Hne E HE Hmax.
  assert (Hm53 : max_string_length < 2 ^ 53) by reflexivity.
  assert (Hli : 0 <= len ip) by (unfold len; lia).
  assert (Hlf : 0 <= len fp) by (unfold len; lia).
  pose proof (value_bounds es Hes) as Hves.
  destruct (pointed_mantissa ip fp Hip Hfp) as (Hm & Hd & Hs & Hi & Hf).
  cbv zeta in *.
  destruct (Number_of_numeral es Hes Hne) as [Hpos Hneg].
  assert (Hgen : forall x,
            Parser.isInteger x false = true ->
            Parser.Number_of_integer x = Finite E ->
            exists i d,
              Parser.parseNum (ip ++ js "." ++ fp ++ js "e" ++ x)
              = Ok (i, d)
              /\ numeral i = true /\ numeral d = true
              /\ value (i ++ d) * 10 ^ (len fp - E)
                 = value (ip ++ fp) * 10 ^ len d).
  { intros x Hx1 Hx2.
    replace (ip ++ js "." ++ fp ++ js "e" ++ x)
      with ((ip ++ js "." ++ fp) ++ "e"%char :: x)
      by (rewrite <- !app_assoc; reflexivity).
    rewrite (parseNum_exponent _ x Hm Hd Hx1).
    cbv zeta. rewrite Hi, Hf, Hs, Hx2. cbn [number_ltb number_sub].
    replace (len fp <? E) with false
      by (symmetry; apply Z.ltb_ge; exact HE).
    rewrite Number_of_Z_exact by lia.
    cbn [List.concat]. rewrite app_nil_r.
    assert (Hnum : numeral (ip ++ fp) = true)
      by (rewrite numeral_app, Hip, Hfp; reflexivity).
    destruct (decimate_numeral false (ip ++ fp) (len fp - E) Hnum
                ltac:(lia) ltac:(rewrite len_app; lia))
      as (ip' & fp' & Hdec & Hip' & Hfp' & Hlen & Hval & _).
    cbv zeta in Hdec. cbn [app] in Hdec. rewrite Hdec. cbn [bind].
    rewrite split_point by (apply numeral_no_point; assumption).
    cbn [Parser.trimZeroes].
    destruct (numeral_trimStart ip' Hip') as [Hi1 Hi2].
    destruct (numeral_trimEnd fp' Hfp') as [Hd1 Hd2].
    eexists _, _. split; [reflexivity|]. split; [exact Hi1|].
    split; [exact Hd1|].
    rewrite <- Hval, <- Hlen, !value_app, Hi2.
    set (d := Parser.trimEnd fp' "0") in *.
    rewrite Z.mul_add_distr_r, Hd2. ring. }
  unfold E in *. destruct neg.
  - apply (Hgen ("-"%char :: es)); [exact Hes|].
    rewrite Hneg. apply Number_of_Z_exact. lia.
  - apply (Hgen es); [apply isInteger_numeral, Hes|].
    rewrite Hpos. apply Number_of_Z_exact. lia.
Qed.

Lemma parseNum_scientific_value_witness :
  numeral (js "12") = true /\ numeral (js "5") = true
  /\ numeral (js "2") = true /\ js "2" <> []
  /\ - value (js "2") <= len (js "5")
  /\ Z.max (len (js "5") - - value (js "2")) (len (js "12") + len (js "5"))
     + 3 <= max_string_length
  /\ exists i d,
       Parser.parseNum (js "12" ++ js "." ++ js "5" ++ js "e"
                        ++ js "-" ++ js "2") = Ok (i, d)
       /\ numeral i = true /\ numeral d = true
       /\ value (i ++ d) * 10 ^ (len (js "5") - - value (js "2"))
          = value (js "12" ++ js "5") * 10 ^ len d.
Proof.
  split; [reflexivity|]. split; [reflexivity|]. split; [reflexivity|].
  split; [discriminate|]. split; [vm_compute; discriminate|].
  split; [vm_compute; discriminate|].
  apply (parseNum_scientific_value true (js "12") (js "5") (js "2"));
    [reflexivity | reflexivity | reflexivity | discriminate
     | vm_compute; discriminate | vm_compute; discriminate].
Defined.

(** X20. A mantissa of digits without decimal point and a positive
    unsigned exponent, where the digits and the zeros together stay
    within the longest string: the zeros are appended to the digits, and
    the integer part returned is the mantissa times ten to the exponent,
    with an empty fractional part. *)
Theorem parseNum_integer_mantissa ip es :
  numeral ip = true -> numeral es = true -> 0 < value es ->
  len ip + value es <= max_string_length ->
  exists i,
    Parser.parseNum (ip ++ js "e" ++ es) = Ok (i, [])
    /\ numeral i = true
    /\ value i = value ip * 10 ^ value es.
Proof.
  intros Hip Hes HE Hmax.
  assert (Hne : es <> []) by (intros ->; cbn in HE; lia).
  assert (Hm53 : max_string_length < 2 ^ 53) by reflexivity.
  assert (Hli : 0 <= len ip) by (unfold len; lia).
  assert (Hm : no_exp ip = true) by apply numeral_no_exp, Hip.
  assert (Hs : split "." ip = [ip]).
  { unfold split. rewrite (split_on_no_point ip (numeral_no_point _ Hip)).
    reflexivity. }
  assert (Hd : Parser.isDecimal ip = true).
  { unfold Parser.isDecimal. rewrite Hs. apply isInteger_numeral, Hip. }
  change (ip ++ js "e" ++ es) with (ip ++ "e"%char :: es).
  rewrite (parseNum_exponent ip es Hm Hd (isInteger_numeral es false Hes)).
  cbv zeta. rewrite (indexOf_lacks "." ip (numeral_no_point _ Hip)).
  rewrite (proj1 (Number_of_numeral es Hes Hne)).
  rewrite Number_of_Z_exact by lia. cbn [number_ltb number_sub].
  replace (0 <? value es) with true by (symmetry; apply Z.ltb_lt; exact HE).
  rewrite Z.sub_0_r, Number_of_Z_exact by lia.
  rewrite pad_ok by lia. cbn [bind].
  set (z := repeat "0"%char (Z.to_nat (value es))).
  assert (Hz : numeral (ip ++ z) = true)
    by (unfold z; rewrite numeral_app, Hip, numeral_zeros; reflexivity).
  unfold split. rewrite (split_on_no_point _ (numeral_no_point _ Hz)).
  cbn [Parser.trimZeroes].
  destruct (numeral_trimStart _ Hz) as [H1 H2].
  eexists. split; [reflexivity|]. split; [exact H1|].
  rewrite H2, value_app. unfold z. rewrite value_zeros.
  unfold len. rewrite repeat_length, Z2Nat.id by lia. ring.
Qed.

Lemma parseNum_integer_mantissa_witness :
  numeral (js "15") = true /\ numeral (js "3") = true
  /\ 0 < value (js "3")
  /\ len (js "15") + value (js "3") <= max_string_length
  /\ exists i,
       Parser.parseNum (js "15" ++ js "e" ++ js "3") = Ok (i, [])
       /\ numeral i = true
       /\ value i = value (js "15") * 10 ^ value (js "3").
Proof.
  split; [reflexivity|]. split; [reflexivity|]. split; [reflexivity|].
  split; [vm_compute; discriminate|].
  apply (parseNum_integer_mantissa (js "15") (js "3"));
    [reflexivity | reflexivity | reflexivity | vm_compute; discriminate].
Defined.

(** X21. A mantissa of digits with a decimal point, without sign, and an
    exponent that is only a sign, in a literal no longer than the longest
    string: the exponent is not a number, the comparisons with it fail,
    the decimal point is put in front of all the digits of the mantissa,
    and the literal is read as a fraction below one. *)
Theorem parseNum_sign_only_exponent (minus : bool) ip fp :
  numeral ip = true -> numeral fp = true ->
  let s := ip ++ js "." ++ fp ++ js "e"
           ++ (if minus then js "-" else js "+") in
  len s <= max_string_length ->
  Parser.parseNum s
  = Ok ([], Parser.trimZeroes (ip ++ fp) Parser.pos_end "0").
Proof.
  intros Hip Hfp s Hmax.
  assert (Hli : 0 <= len ip) by (unfold len; lia).
  assert (Hlf : 0 <= len fp) by (unfold len; lia).
  assert (Hlen : len ip + len fp + 3 <= max_string_length).
  { unfold s in Hmax. rewrite !len_app in Hmax.
    change (len (js ".")) with 1 in Hmax.
    change (len (js "e")) with 1 in Hmax.
    destruct minus; cbv beta iota in Hmax;
      [change (len (js "-")) with 1 in Hmax
      |change (len (js "+")) with 1 in Hmax]; lia. }
  clear Hmax.
  destruct (pointed_mantissa ip fp Hip Hfp) as (Hm & Hd & Hs & Hi & Hf).
  cbv zeta in *.
  assert (Hgen : forall x,
            Parser.isInteger x false = true ->
            Parser.Number_of_integer x = NaN ->
            Parser.parseNum (ip ++ js "." ++ fp ++ js "e" ++ x)
            = Ok ([], Parser.trimZeroes (ip ++ fp) Parser.pos_end "0"));
    [|unfold s; destruct minus; apply Hgen; reflexivity].
  intros x Hx1 Hx2.
  replace (ip ++ js "." ++ fp ++ js "e" ++ x)
    with ((ip ++ js "." ++ fp) ++ "e"%char :: x)
    by (rewrite <- !app_assoc; reflexivity).
  rewrite (parseNum_exponent _ x Hm Hd Hx1).
  cbv zeta. rewrite Hi, Hf, Hs, Hx2. cbn [number_ltb number_sub].
  cbn [List.concat]. rewrite app_nil_r.
  assert (Hnum : numeral (ip ++ fp) = true)
    by (rewrite numeral_app, Hip, Hfp; reflexivity).
  pose proof (decimate_unfold false (ip ++ fp) NaN Hnum) as Hu.
  cbv zeta in Hu. cbn [app] in Hu. rewrite Hu. clear Hu.
  cbn [number_ltb number_sub index_of_number].
  rewrite substring_prefix, substring_suffix. cbn [Z.to_nat firstn skipn].
  rewrite string_concat_ok by (cbn; lia). cbn [bind app].
  rewrite string_concat_ok
    by (rewrite len_app; change (len (js ".")) with 1; lia).
  cbn [bind].
  rewrite string_concat_ok
    by (rewrite !len_app; change (len (js ".")) with 1;
        change (len []) with 0; lia).
  cbn [bind app].
  change (js "." ++ ip ++ fp) with ([] ++ js "." ++ (ip ++ fp)).
  rewrite split_point; [reflexivity | reflexivity |].
  apply numeral_no_point, Hnum.
Qed.

Lemma parseNum_sign_only_exponent_witness :
  numeral (js "12") = true /\ numeral (js "50") = true
  /\ len (js "12" ++ js "." ++ js "50" ++ js "e" ++ js "-")
     <= max_string_length
  /\ Parser.parseNum (js "12" ++ js "." ++ js "50" ++ js "e" ++ js "-")
     = Ok ([], Parser.trimZeroes (js "12" ++ js "50") Parser.pos_end "0").
Proof.
  split; [reflexivity|]. split; [reflexivity|].
  split; [vm_compute; discriminate|].
  apply (parseNum_sign_only_exponent true (js "12") (js "50"));
    [reflexivity | reflexivity | vm_compute; discriminate].
Defined.

(** *** Exponents beyond the longest string *)

Lemma Number_of_Z_at_most b v :
  0 < b <= 2 ^ 53 -> v <= - b ->
  (exists w, Number_of_Z v = Finite (- w) /\ b <= w)
  \/ Number_of_Z v = Infinity true.
Proof.
  intros Hb Hv. unfold Number_of_Z.
  replace (v <? 0) with true by (symmetry; apply Z.ltb_lt; lia).
  rewrite Z.sgn_neg by lia.
  destruct (binary64_of_Z (Z.abs v)) as [w|] eqn:E; [|right; reflexivity].
  left. exists w. split; [f_equal; lia|].
  destruct (binary64_range _ _ (Z.abs_nonneg v) E) as [[_ ->] | [_ Hw]];
    lia.
Qed.

Lemma precision_bound m :
  0 <= match indexOf "." m with
       | None => 0
       | Some index => len (substring_from m (Z.of_nat index + 1))
       end <= len m.
Proof.
  destruct (indexOf "." m) as [i|]; [|unfold len; lia].
  rewrite substring_suffix. unfold len. rewrite length_skipn. lia.
Qed.

Lemma length_concat_split m :
  len (List.concat (split "." m)) <= len m.
Proof.
  unfold split.
  assert (H : forall p ps, split_on "." m = (p, ps) ->
                           len p + len (List.concat ps) <= len m).
  { induction m as [|x m IH]; intros p ps E.
    - injection E as <- <-. reflexivity.
    - cbn [split_on] in E. destruct (split_on "." m) as [q qs].
      specialize (IH q qs eq_refl).
      assert (Hx : len (x :: m) = 1 + len m)
        by (unfold len; cbn [List.length]; lia).
      rewrite Hx. destruct (Ascii.eqb x "."); injection E as <- <-.
      + cbn [List.concat]. rewrite len_app. change (len []) with 0. lia.
      + assert (Hq : len (x :: q) = 1 + len q)
          by (unfold len; cbn [List.length]; lia).
        rewrite Hq. lia. }
  destruct (split_on "." m) as [p ps]. cbn [List.concat].
  rewrite len_app. apply (H p ps eq_refl).
Qed.

(** On any string, an index beyond its length by more than a string can
    hold makes [decimate] throw. *)
Lemma decimate_beyond_any a index :
  index = Infinity false
  \/ (exists i, index = Finite i /\ max_string_length + len a < i) ->
  Parser.decimate a index = Throw RangeError.
Proof.
  intros H.
  assert (Hm : 0 < max_string_length) by reflexivity.
  assert (Hl : 0 <= len a) by (unfold len; lia).
  assert (H0 : number_ltb index (Finite 0) = false).
  { destruct H as [-> | (i & -> & Hi)]; [reflexivity|].
    cbn [number_ltb]. apply Z.ltb_ge. lia. }
  assert (Hs : forall s0, len s0 <= len a -> 0 <= len s0 ->
            number_ltb (Finite (len s0)) index = true
            /\ number_ltb (Finite max_string_length)
                 (number_sub index (Finite (len s0))) = true).
  { intros s0 Hle Hge. destruct H as [-> | (i & -> & Hi)].
    - split; reflexivity.
    - split; [cbn [number_ltb]; apply Z.ltb_lt; lia|].
      cbn [number_sub]. apply Number_of_Z_beyond. lia. }
  unfold Parser.decimate. rewrite H0.
  assert (Hsplit : exists sgn s0,
            match a with
            | "-"%char :: r => (js "-", r)
            | _ => ([], a)
            end = (sgn, s0) /\ len s0 <= len a /\ 0 <= len s0).
  { destruct a as [|c r]; [exists [], []; repeat split; lia|].
    destruct c as [[] [] [] [] [] [] [] []];
      eexists _, _; (split; [reflexivity|]);
      unfold len; cbn [List.length]; lia. }
  destruct Hsplit as (sgn & s0 & -> & Hle & Hge).
  destruct (Hs s0 Hle Hge) as [H1 H2].
  rewrite H1, (pad_too_long s0 _ true H2). reflexivity.
Qed.

(** X26. An exponent of digits, with or without a minus sign, whose
    value exceeds the longest string by more than the length of the
    mantissa: the zeros to add do not fit in a string, and [parseNum]
    throws a RangeError ("1e1000000000", "1.5e-1000000000"). *)
Theorem parseNum_exponent_too_large (neg : bool) m es :
  no_exp m = true -> Parser.isDecimal m = true -> numeral es = true ->
  len m <= max_string_length ->
  max_string_length + len m < value es ->
  Parser.parseNum (m ++ js "e" ++ (if neg then js "-" else []) ++ es)
  = Throw RangeError.
Proof.
  intros Hm Hd Hes Hlen HE.
  assert (Hmp : 0 < max_string_length) by reflexivity.
  assert (Hl : 0 <= len m) by (unfold len; lia).
  assert (Hne : es <> [])
    by (intros ->; change (value []) with 0 in HE; lia).
  assert (Hm53 : 2 * max_string_length + 1 <= 2 ^ 53)
    by (vm_compute; discriminate).
  pose proof (precision_bound m) as Hp.
  pose proof (length_concat_split m) as Hc.
  destruct (Number_of_numeral es Hes Hne) as [Hpos Hneg].
  assert (Hgen : forall x,
            Parser.isInteger x false = true ->
            (exists w, Parser.Number_of_integer x = Finite w
                       /\ max_string_length + len m + 1 <= Z.abs w
                       /\ (neg = true <-> w < 0))
            \/ Parser.Number_of_integer x = Infinity neg ->
            Parser.parseNum (m ++ js "e" ++ x) = Throw RangeError).
  { intros x Hx1 Hx2.
    change (m ++ js "e" ++ x) with (m ++ "e"%char :: x).
    rewrite (parseNum_exponent m x Hm Hd Hx1). cbv zeta.
    set (p := match indexOf "." m with
              | None => 0
              | Some index => len (substring_from m (Z.of_nat index + 1))
              end) in *.
    destruct Hx2 as [(w & -> & Hw & Hsign) | ->].
    - destruct (Z_lt_le_dec w 0) as [Hlt | Hge].
      + cbn [number_ltb number_sub].
        replace (p <? w) with false by (symmetry; apply Z.ltb_ge; lia).
        rewrite decimate_beyond_any; [reflexivity|].
        destruct (Number_of_Z_at_least (max_string_length + len m + 1)
                    (p - w)) as [(i & -> & Hi) | ->];
          [lia | lia | right | left; reflexivity].
        exists i. split; [reflexivity | lia].
      + cbn [number_ltb number_sub].
        replace (p <? w) with true by (symmetry; apply Z.ltb_lt; lia).
        rewrite pad_too_long; [reflexivity|].
        apply Number_of_Z_beyond. lia.
    - destruct neg.
      + cbn [number_ltb number_sub negb].
        rewrite decimate_beyond_any; [reflexivity | left; reflexivity].
      + cbn [number_ltb number_sub negb].
        rewrite pad_too_long; reflexivity. }
  destruct neg.
  - apply (Hgen ("-"%char :: es)); [exact Hes|]. rewrite Hneg.
    destruct (Number_of_Z_at_most (max_string_length + len m + 1)
                (- value es)) as [(w & -> & Hw) | ->];
      [lia | lia | left | right; reflexivity].
    exists (- w). split; [reflexivity|]. split; [lia|].
    split; [intros _; lia | reflexivity].
  - apply (Hgen es); [apply isInteger_numeral, Hes|]. rewrite Hpos.
    destruct (Number_of_Z_at_least (max_string_length + len m + 1)
                (value es)) as [(w & -> & Hw) | ->];
      [lia | lia | left | right; reflexivity].
    exists w. split; [reflexivity|]. split; [lia|].
    split; [discriminate | lia].
Qed.

Lemma parseNum_exponent_too_large_witness :
  no_exp (js "1.5") = true /\ Parser.isDecimal (js "1.5") = true
  /\ numeral (js "1000000000") = true
  /\ len (js "1.5") <= max_string_length
  /\ max_string_length + len (js "1.5") < value (js "1000000000")
  /\ Parser.parseNum (js "1.5" ++ js "e" ++ js "-" ++ js "1000000000")
     = Throw RangeError.
Proof.
  split; [reflexivity|]. split; [reflexivity|]. split; [reflexivity|].
  split; [vm_compute; discriminate|]. split; [reflexivity|].
  apply (parseNum_exponent_too_large true (js "1.5") (js "1000000000"));
    [reflexivity | reflexivity | reflexivity | vm_compute; discriminate
     | reflexivity].
Defined.

(** ** [div]: a dividend with many fractional digits *)

(** X22. For a dividend that has an unscaled integer and a divisor whose
    sign is not zero: where the dividend stores more than seventeen
    fractional digits beyond those of the divisor, and at most 323 more
    than that, the scale is a negative power of ten, which is no integer,
    and [div] throws a RangeError. *)
Theorem div_long_dividend this that n :
  BigNum.sign that <> 0 ->
  BigNum.asBigInt this = Ok n ->
  let raise := 17 - Z.of_nat (BigNum.precision this)
               + Z.of_nat (BigNum.precision that) in
  -323 <= raise < 0 ->
  BigNum.div this that = Throw RangeError.
Proof.
  intros Hs Hn raise Hr. unfold BigNum.div.
  replace (BigNum.sign that =? 0) with false
    by (symmetry; apply Z.eqb_neq; exact Hs).
  cbv zeta. rewrite Hn. cbn [bind].
  change (Z.of_nat (MathContext.precision BigNum.DEFAULT_CONTEXT))
    with 17.
  fold raise. unfold BigInt_pow10.
  replace (raise <? 0) with true by (symmetry; apply Z.ltb_lt; lia).
  replace (raise <? -323) with false by (symmetry; apply Z.ltb_ge; lia).
  reflexivity.
Qed.

Lemma div_long_dividend_witness :
  let this := {| BigNum.integer := js "0";
                 BigNum.decimal := js "0000000000000000001" |} in
  let that := {| BigNum.integer := js "3"; BigNum.decimal := js "0" |} in
  BigNum.sign that <> 0
  /\ BigNum.asBigInt this = Ok 1
  /\ -323 <= 17 - Z.of_nat (BigNum.precision this)
             + Z.of_nat (BigNum.precision that) < 0
  /\ BigNum.div this that = Throw RangeError.
Proof.
  cbv zeta. split; [vm_compute; discriminate|]. split; [reflexivity|].
  split; [vm_compute; split; [discriminate | reflexivity]|].
  apply (div_long_dividend
           {| BigNum.integer := js "0";
              BigNum.decimal := js "0000000000000000001" |}
           {| BigNum.integer := js "3"; BigNum.decimal := js "0" |} 1);
    [vm_compute; discriminate | reflexivity
     | vm_compute; split; [discriminate | reflexivity]].
Defined.

(** ** [div]: a short negative quotient *)

Lemma parse_digits_zeros_minus k : forall acc w,
  parse_digits 10 acc (repeat "0"%char k ++ "-"%char :: w) = None.
Proof.
  induction k as [|k IH]; intros acc w; [reflexivity|].
  cbn [repeat app parse_digits].
  change (digit_value "0") with (Some 0).
  change (0 <? 10) with true. cbv beta iota. apply IH.
Qed.

(** Zeros, then a minus sign: no integer. *)
Lemma StringToBigInt_zeros_minus z w :
  numeral w = true ->
  StringToBigInt (repeat "0"%char (S z) ++ "-"%char :: w) = None.
Proof.
  intros Hw.
  set (r := repeat "0"%char z ++ "-"%char :: w).
  change (repeat "0"%char (S z) ++ "-"%char :: w) with ("0"%char :: r).
  assert (Htrim : trim ("0"%char :: r) = "0"%char :: r).
  { destruct (rev ("0"%char :: r)) as [|l r'] eqn:E.
    - apply (f_equal (@List.length ascii)) in E.
      rewrite length_rev in E. discriminate E.
    - apply (trim_fixed _ _ l r' E); [reflexivity|].
      unfold r in E.
      destruct w as [|c w'] using rev_ind.
      + replace ("0"%char :: repeat "0"%char z ++ ["-"%char])
          with (("0"%char :: repeat "0"%char z) ++ ["-"%char]) in E
          by reflexivity.
        rewrite rev_app_distr in E. injection E as <- _. reflexivity.
      + replace ("0"%char :: repeat "0"%char z ++ "-"%char :: w' ++ [c])
          with (("0"%char :: repeat "0"%char z ++ "-"%char :: w') ++ [c])
          in E
          by (cbn [app]; rewrite <- app_assoc; reflexivity).
        rewrite rev_app_distr in E. injection E as <- _.
        rewrite numeral_app in Hw. apply andb_true_iff in Hw as [_ Hc].
        cbn [numeral forallb] in Hc. apply andb_true_iff in Hc as [Hc _].
        apply digit_not_white, Hc. }
  unfold StringToBigInt. rewrite Htrim. unfold r.
  destruct z as [|z]; [reflexivity|].
  cbn [repeat app]. unfold parse_number. cbn [parse_digits].
  change (digit_value "0") with (Some 0).
  change (0 <? 10) with true. cbv beta iota.
  apply parse_digits_zeros_minus.
Qed.

(** X28. For operands that have an unscaled integer, a divisor other than
    zero, a scale [10^raise] with [raise] between 0 and 22, and a
    negative quotient of fewer than seventeen digits (-1 / 20, 1 /
    -300): the zeros are put in front of the minus sign, the result has
    the integer part "0" and a fractional part of zeros, the minus sign
    and digits, and reading its unscaled integer throws a SyntaxError. *)
Theorem div_negative_short a b A B :
  BigNum.asBigInt a = Ok A ->
  BigNum.asBigInt b = Ok B ->
  B <> 0 ->
  0 <= 17 - Z.of_nat (BigNum.precision a) + Z.of_nat (BigNum.precision b) <= 22 ->
  let q := Spec.truncated (Spec.quotient_num A (BigNum.precision b))
                          (Spec.quotient_den B (BigNum.precision a)) in
  - 10 ^ 16 < q < 0 ->
  exists z w,
    numeral w = true
    /\ BigNum.div a b
       = Ok {| BigNum.integer := js "0";
               BigNum.decimal := repeat "0"%char z ++ "-"%char :: w |}
    /\ BigNum.asBigInt
         {| BigNum.integer := js "0";
            BigNum.decimal := repeat "0"%char z ++ "-"%char :: w |}
       = Throw SyntaxError.
Proof.
  intros Ha Hb HB Hraise q Hq.
  assert (Eq : q = Z.quot (A * 10 ^ (17 - Z.of_nat (BigNum.precision a)
                                     + Z.of_nat (BigNum.precision b))) B)
    by (apply quotient_scaled; lia).
  unfold BigNum.div.
  destruct (BigNum.sign b =? 0) eqn:Es.
  { apply Z.eqb_eq, sign_zero_value in Es. congruence. }
  replace (MathContext.precision BigNum.DEFAULT_CONTEXT) with 17%nat
    by reflexivity.
  replace (Z.of_nat 17) with 17 by reflexivity.
  rewrite Ha, Hb, BigInt_pow10_small by lia. cbn [bind].
  replace (B =? 0) with false by (symmetry; apply Z.eqb_neq; exact HB).
  rewrite <- Eq. clearbody q. clear Eq.
  unfold BigInt_toString.
  replace (q <? 0) with true by (symmetry; apply Z.ltb_lt; lia).
  destruct (digits_of_spec (- q)) as (Hn & Hne & Hv & Hz); [lia|].
  specialize (Hz ltac:(lia)).
  set (ds := digits_of (- q)) in *.
  assert (Hlen : (List.length ds <= 16)%nat).
  { pose proof (value_leading_bound ds Hn Hne Hz) as Hlb.
    rewrite Hv in Hlb.
    destruct (le_lt_dec (List.length ds) 16) as [?|Hgt]; [assumption|].
    assert (10 ^ 17 <= 10 ^ len ds)
      by (apply Z.pow_le_mono_r; unfold len; lia).
    assert (10 ^ 17 = 10 * 10 ^ 16) by reflexivity. lia. }
  set (z := (16 - List.length ds)%nat).
  assert (Hquo : (if (List.length ("-"%char :: ds) <? 17)%nat
                  then BigNum.zeros (17 - List.length ("-"%char :: ds))
                       ++ "-"%char :: ds
                  else "-"%char :: ds)
                 = repeat "0"%char z ++ "-"%char :: ds).
  { unfold BigNum.zeros, z. cbn [List.length].
    destruct (S (List.length ds) <? 17)%nat eqn:E.
    - reflexivity.
    - apply Nat.ltb_ge in E.
      replace (16 - List.length ds)%nat with O by lia. reflexivity. }
  rewrite Hquo.
  set (r := repeat "0"%char z ++ "-"%char :: ds).
  assert (Hr : List.length r = 17%nat)
    by (unfold r, z; rewrite length_app, repeat_length;
        cbn [List.length]; lia).
  assert (Hnp : no_point r = true).
  { unfold r, no_point. rewrite forallb_app.
    fold (no_point (repeat "0"%char z)).
    rewrite (numeral_no_point _ (numeral_zeros z)).
    cbn [forallb andb]. apply (numeral_no_point ds Hn). }
  rewrite (place_point_eq r 17 Hnp). cbv zeta.
  rewrite Hr, Nat.sub_diag.
  cbn [firstn skipn BigNum.first_nonzero BigNum.or_zero].
  unfold BigNum.after_last_nonzero. rewrite Hr.
  assert (Hrev : rev r = rev ds ++ "-"%char :: repeat "0"%char z).
  { unfold r. rewrite rev_app_distr, rev_repeat. cbn [rev].
    rewrite <- app_assoc. reflexivity. }
  pose proof (first_nonzero_before "-" (rev ds) (repeat "0"%char z)
                ltac:(discriminate)) as Hk.
  rewrite <- Hrev, length_rev in Hk.
  set (k := BigNum.first_nonzero (rev r)) in *.
  set (m := (List.length ds - k)%nat).
  assert (Hkeep : firstn (17 - k) r = repeat "0"%char z ++ "-"%char :: firstn m ds).
  { replace (17 - k)%nat
      with (List.length (repeat "0"%char z) + S m)%nat
      by (rewrite repeat_length; unfold z, m; lia).
    unfold r. rewrite firstn_app_2. reflexivity. }
  rewrite Hkeep.
  assert (Hw : numeral (firstn m ds) = true) by apply numeral_firstn, Hn.
  exists z, (firstn m ds). split; [exact Hw|].
  assert (Hnz : BigNum.or_zero (repeat "0"%char z ++ "-"%char :: firstn m ds)
                = repeat "0"%char z ++ "-"%char :: firstn m ds)
    by (destruct z; reflexivity).
  rewrite Hnz. split; [reflexivity|].
  unfold BigNum.asBigInt, BigInt_of_string.
  cbn [BigNum.integer BigNum.decimal].
  change (js "0" ++ repeat "0"%char z ++ "-"%char :: firstn m ds)
    with (repeat "0"%char (S z) ++ "-"%char :: firstn m ds).
  rewrite (StringToBigInt_zeros_minus z _ Hw). reflexivity.
Qed.

Lemma div_negative_short_witness :
  let a := {| BigNum.integer := js "1"; BigNum.decimal := js "0" |} in
  let b := {| BigNum.integer := js "-300"; BigNum.decimal := js "0" |} in
  BigNum.asBigInt a = Ok 10
  /\ BigNum.asBigInt b = Ok (-3000)
  /\ -3000 <> 0
  /\ 0 <= 17 - Z.of_nat (BigNum.precision a)
          + Z.of_nat (BigNum.precision b) <= 22
  /\ - 10 ^ 16
     < Spec.truncated (Spec.quotient_num 10 (BigNum.precision b))
                      (Spec.quotient_den (-3000) (BigNum.precision a)) < 0
  /\ exists z w,
       numeral w = true
       /\ BigNum.div a b
          = Ok {| BigNum.integer := js "0";
                  BigNum.decimal := repeat "0"%char z ++ "-"%char :: w |}
       /\ BigNum.asBigInt
            {| BigNum.integer := js "0";
               BigNum.decimal := repeat "0"%char z ++ "-"%char :: w |}
          = Throw SyntaxError.
Proof.
  cbv zeta.
  split; [reflexivity|]. split; [reflexivity|]. split; [lia|].
  split; [vm_compute; split; congruence|].
  split; [vm_compute; split; reflexivity|].
  apply (div_negative_short
           {| BigNum.integer := js "1"; BigNum.decimal := js "0" |}
           {| BigNum.integer := js "-300"; BigNum.decimal := js "0" |}
           10 (-3000));
    [reflexivity | reflexivity | lia | vm_compute; split; congruence
     | vm_compute; split; reflexivity].
Defined.

(** ** Instances of the properties of UNNECESSARY and of [toString] *)

Lemma unnecessary_exact_in_range_witness :
  let x := {| BigNum.integer := js "2"; BigNum.decimal := js "5" |} in
  let ctx := {| MathContext.precision := 0;
                MathContext.rounding := UNNECESSARY |} in
  Spec.well_formed x
  /\ Z.of_nat (BigNum.precision x) - Z.of_nat 0 <= 22
  /\ (BigNum.round x ctx = Throw RoundingNecessary <-> ~ Spec.exact_at x 0)
  /\ (Spec.exact_at x 0 ->
      exists y, BigNum.round x ctx = Ok y
                /\ forall v, Spec.denotes x v 0 -> Spec.denotes y v 0).
Proof.
  cbv zeta.
  assert (Hwf : Spec.well_formed
                  {| BigNum.integer := js "2"; BigNum.decimal := js "5" |}).
  { exists [], (js "2"). cbn [BigNum.integer BigNum.decimal].
    split; [reflexivity|]. split; [left; reflexivity|].
    split; [reflexivity|]. split; [discriminate|].
    split; [reflexivity|]. split; [discriminate|].
    right; reflexivity. }
  split; [exact Hwf|]. split; [vm_compute; discriminate|].
  apply (unnecessary_exact_in_range
           {| BigNum.integer := js "2"; BigNum.decimal := js "5" |} 0 Hwf).
  vm_compute; discriminate.
Defined.

Lemma toString_canonical_unsigned_witness :
  (numeral (js "007.50") = true
   \/ exists ip fp, js "007.50" = ip ++ js "." ++ fp
                    /\ numeral ip = true /\ numeral fp = true)
  /\ exists x, BigNum.new (js "007.50") = Ok x
               /\ Spec.canonical (BigNum.toString x) = true.
Proof.
  assert (H : numeral (js "007.50") = true
              \/ exists ip fp, js "007.50" = ip ++ js "." ++ fp
                               /\ numeral ip = true /\ numeral fp = true).
  { right. exists (js "007"), (js "50"). repeat split. }
  split; [exact H|].
  apply (toString_canonical_unsigned (js "007.50") H).
Defined.
